(** * SYNQfm/helpers: the subprocess runner, the PID-file guard and the request runner of the tests

    A shallow embedding of [common/exec.go] and of the request runner of
    [test_helper/http.go].  The Go code talks to the operating system
    through [os/exec], [io/ioutil], [os], [strconv], [strings], [fmt] and
    [encoding/json], and to the web framework through [gin], [net/http] and
    [httptest]; the parts of those packages that the files call are
    modelled first, then the functions of the two files themselves, in the
    order of the source, and finally the properties. *)

From Stdlib Require Import ZArith Lia Bool List String Ascii.
From Stdlib Require Import DecimalString DecimalZ DecimalPos DecimalN DecimalFacts.
From stdpp Require Import base strings gmap list.

Set Warnings "-register-all".

Open Scope string_scope.
Open Scope Z_scope.

(* ===================================================================== *)
(** * Go values *)
(* ===================================================================== *)

(** A Go [string] is a sequence of bytes: Rocq's [string].  A Go [[]byte] is
    either [nil] or a sequence of bytes: the difference is visible to
    [json.RawMessage], so it is kept. *)
Definition bytes := option string.

(** A Go [error] value; the code only ever asks it for its text.  The nil
    [error] is [None] at type [option error]. *)
Record error := errorString { Error : string }.

(** The value of a byte. *)
Definition byte_val (c : ascii) : Z := Z.of_N (N_of_ascii c).

(** [int] and [int64] on a 64-bit platform. *)
Definition minInt64 : Z := - 2 ^ 63.
Definition maxInt64 : Z := 2 ^ 63 - 1.
Definition maxUint64 : Z := 2 ^ 64 - 1.
Definition is_int64 (n : Z) : Prop := minInt64 <= n <= maxInt64.

(* ===================================================================== *)
(** * Package [strings] *)
(* ===================================================================== *)

Module Strings.

(** [strings.Contains(s, substr)]: [substr] occurs somewhere in [s]. *)
Fixpoint Contains (s substr : string) : bool :=
  String.prefix substr s ||
  match s with
  | EmptyString => false
  | String _ s' => Contains s' substr
  end.

(** [strings.HasPrefix(s, prefix)]. *)
Definition HasPrefix (s prefix : string) : bool := String.prefix prefix s.

(** [strings.Split(s, sep)] for a separator of one byte: the pieces of [s]
    between the occurrences of [sep], of which there is always at least
    one. *)
Fixpoint Split (s : string) (sep : ascii) : list string :=
  match s with
  | EmptyString => [EmptyString]
  | String c s' =>
      if Ascii.eqb c sep then EmptyString :: Split s' sep
      else
        match Split s' sep with
        | piece :: pieces => String c piece :: pieces
        | [] => [String c EmptyString]
        end
  end.

End Strings.

(* ===================================================================== *)
(** * Packages [strconv] and [fmt] *)
(* ===================================================================== *)

Module Strconv.

(** The two failures of [strconv]: [ErrSyntax] and [ErrRange]. *)
Inductive NumError := ErrSyntax | ErrRange.

(** The digit loop of [ParseUint] for base 10 and bit size 64.  [n] is the
    [uint64] accumulator; the two overflow tests are the ones of the Go
    loop, the addition wrapping around at [2^64]. *)
Fixpoint parseDigits (s : string) (n : Z) : Z * option NumError :=
  match s with
  | EmptyString => (n, None)
  | String c s' =>
      if (byte_val "0"%char <=? byte_val c) && (byte_val c <=? byte_val "9"%char) then
        let d := byte_val c - byte_val "0"%char in
        if maxUint64 / 10 + 1 <=? n then (maxUint64, Some ErrRange)
        else
          let n10 := n * 10 in
          let n1 := (n10 + d) mod 2 ^ 64 in
          if (n1 <? n10) || (maxUint64 <? n1) then (maxUint64, Some ErrRange)
          else parseDigits s' n1
      else (0, Some ErrSyntax)
  end.

(** [strconv.ParseUint(s, 10, 64)]. *)
Definition ParseUint (s : string) : Z * option NumError :=
  match s with
  | EmptyString => (0, Some ErrSyntax)
  | _ => parseDigits s 0
  end.

(** [strconv.ParseInt(s, 10, 64)]: an optional sign, then [ParseUint]; a
    syntax error gives 0, a range error the nearest bound of [int64]. *)
Definition ParseInt (s : string) : Z * option NumError :=
  match s with
  | EmptyString => (0, Some ErrSyntax)
  | String c s' =>
      let neg := Ascii.eqb c "-"%char in
      let s1 := if Ascii.eqb c "+"%char || neg then s' else s in
      match ParseUint s1 with
      | (_, Some ErrSyntax) => (0, Some ErrSyntax)
      | (un, _) =>
          let cutoff := 2 ^ 63 in
          if negb neg && (cutoff <=? un) then (cutoff - 1, Some ErrRange)
          else if neg && (cutoff <? un) then (- cutoff, Some ErrRange)
          else (if neg then - un else un, None)
      end
  end.

(** The verb [%d] of [fmt]: the decimal text of an integer, with a minus
    sign for a negative one. *)
Definition FormatInt (n : Z) : string := NilZero.string_of_int (Z.to_int n).

End Strconv.

(** [fmt.Sprintf(format, n)] for a format with the single verb [%d]. *)
Fixpoint Sprintf (format : string) (n : Z) : string :=
  match format with
  | EmptyString => EmptyString
  | String c rest =>
      match rest with
      | String v rest' =>
          if Ascii.eqb c "%" && Ascii.eqb v "d" then Strconv.FormatInt n +:+ rest'
          else String c (Sprintf rest n)
      | EmptyString => format
      end
  end.

(* ===================================================================== *)
(** * Package [unicode/utf8] *)
(* ===================================================================== *)

Module Utf8.

(** The byte [c] lies in the range from [lo] to [hi]. *)
Definition between (lo hi : Z) (c : ascii) : bool :=
  (lo <=? byte_val c) && (byte_val c <=? hi).

(** A continuation byte, [0x80..0xBF]. *)
Definition isCont (c : ascii) : bool := between 128 191 c.

(** The number of bytes of the well-formed UTF-8 sequence that starts with
    the byte [b0] (at least [0x80]) followed by [rest]; 0 when
    [utf8.DecodeRuneInString] answers [(RuneError, 1)].  The ranges are the
    ones of Go's [first] and [acceptRanges] tables. *)
Definition seqLen (b0 : ascii) (rest : string) : nat :=
  let second lo hi n :=
    match rest with
    | String b1 r1 =>
        if between lo hi b1 then
          match n, r1 with
          | 2%nat, _ => 2%nat
          | 3%nat, String b2 _ => if isCont b2 then 3%nat else 0%nat
          | 4%nat, String b2 (String b3 _) =>
              if isCont b2 && isCont b3 then 4%nat else 0%nat
          | _, _ => 0%nat
          end
        else 0%nat
    | EmptyString => 0%nat
    end in
  let b := byte_val b0 in
  if b <? 194 then 0%nat
  else if b <=? 223 then second 128 191 2%nat
  else if b =? 224 then second 160 191 3%nat
  else if b <=? 236 then second 128 191 3%nat
  else if b =? 237 then second 128 159 3%nat
  else if b <=? 239 then second 128 191 3%nat
  else if b =? 240 then second 144 191 4%nat
  else if b <=? 243 then second 128 191 4%nat
  else if b =? 244 then second 128 143 4%nat
  else 0%nat.

End Utf8.

(* ===================================================================== *)
(** * Package [encoding/json] *)
(* ===================================================================== *)

(** The parts of the package that [MarshalIndent] runs for a [SynqError]:
    the encoder of strings, the scanner that checks the bytes of a
    [RawMessage], [Compact], [Indent], and, to read a document back, the
    decoder of strings.  They follow the Go releases of the time of the
    repository: the encoder writes backspace and form feed as [\u0008] and
    [\u000c], and the scanner has no limit on nesting. *)
Module Json.

Definition quote : ascii := "034"%char.
Definition backslash : ascii := "\"%char.
Definition LF : ascii := "010"%char.

(** The sixteen digits of [hex]. *)
Definition hex (n : Z) : ascii :=
  if n <? 10 then ascii_of_N (Z.to_N (48 + n)) else ascii_of_N (Z.to_N (87 + n)).

(** [\u00XY] for the byte [c]. *)
Definition u00 (c : ascii) : string :=
  String backslash (String "u" (String "0" (String "0"
    (String (hex (byte_val c / 16)) (String (hex (byte_val c mod 16)) EmptyString))))).

(** ** Encoding a Go string

    [encodeState.string] with [escapeHTML] on, which is how [Marshal] writes
    every string: the text between the quotes. *)

(** A byte below [0x80]: [htmlSafeSet] lets printable ASCII through except
    the quote, the backslash and the three characters [<], [>], [&]. *)
Definition encodeByte (c : ascii) : string :=
  if Ascii.eqb c quote || Ascii.eqb c backslash then String backslash (String c EmptyString)
  else if Ascii.eqb c LF then String backslash "n"
  else if Ascii.eqb c "013" then String backslash "r"
  else if Ascii.eqb c "009" then String backslash "t"
  else if (byte_val c <? 32) || Ascii.eqb c "<" || Ascii.eqb c ">" || Ascii.eqb c "&"
  then u00 c
  else String c EmptyString.

(** U+2028 and U+2029 are [E2 80 A8] and [E2 80 A9]. *)
Definition isLineSep (b0 b1 b2 : ascii) : bool :=
  (byte_val b0 =? 226) && (byte_val b1 =? 128) && ((byte_val b2 =? 168) || (byte_val b2 =? 169)).

(** [\u2028] or [\u2029], from the last byte of the sequence. *)
Definition u202 (b2 : ascii) : string :=
  String backslash ("u202" +:+ String (hex (byte_val b2 mod 16)) EmptyString).

(** The loop of the encoder: bytes below [0x80] one by one, well-formed
    sequences as they are except the two line separators, and [\ufffd] for
    a byte that starts no well-formed sequence. *)
Fixpoint encodeString (s : string) : string :=
  match s with
  | EmptyString => EmptyString
  | String b0 r0 =>
      if byte_val b0 <? 128 then encodeByte b0 +:+ encodeString r0
      else
        match Utf8.seqLen b0 r0, r0 with
        | 2%nat, String b1 r1 => String b0 (String b1 (encodeString r1))
        | 3%nat, String b1 (String b2 r2) =>
            if isLineSep b0 b1 b2 then u202 b2 +:+ encodeString r2
            else String b0 (String b1 (String b2 (encodeString r2)))
        | 4%nat, String b1 (String b2 (String b3 r3)) =>
            String b0 (String b1 (String b2 (String b3 (encodeString r3))))
        | _, _ => String backslash "ufffd" +:+ encodeString r0
        end
  end.

(** ** JSON texts *)

(** A JSON text as a tree.  A string keeps the bytes between its quotes and
    a number its literal, as [Compact] and [Indent] pass them through. *)
Inductive value :=
| JNull
| JBool (b : bool)
| JNumber (lit : string)
| JString (tok : string)
| JArray (elems : list value)
| JObject (members : list (string * value)).

(** The white space of JSON: space, tab, carriage return, line feed. *)
Definition isSpace (c : ascii) : bool :=
  Ascii.eqb c " " || Ascii.eqb c "009" || Ascii.eqb c "013" || Ascii.eqb c LF.

Fixpoint skipSpace (s : string) : string :=
  match s with
  | String c s' => if isSpace c then skipSpace s' else s
  | EmptyString => s
  end.

Definition isDigit (c : ascii) : bool := Utf8.between 48 57 c.

Definition isHex (c : ascii) : bool :=
  isDigit c || Utf8.between 97 102 c || Utf8.between 65 70 c.

(** The bytes that may follow a backslash, [u] apart. *)
Definition isEscape (c : ascii) : bool :=
  Ascii.eqb c "b" || Ascii.eqb c "f" || Ascii.eqb c "n" || Ascii.eqb c "r" ||
  Ascii.eqb c "t" || Ascii.eqb c backslash || Ascii.eqb c "/" || Ascii.eqb c quote.

(** Puts [pre] in front of the token that the rest of the scan gave. *)
Definition consTok (pre : string) (r : option (string * string)) : option (string * string) :=
  match r with
  | Some (tok, rest) => Some (pre +:+ tok, rest)
  | None => None
  end.

(** The scanner inside a string, after the opening quote: the bytes up to
    the closing quote and the text after it. *)
Fixpoint lexString (s : string) : option (string * string) :=
  match s with
  | EmptyString => None
  | String c s' =>
      if Ascii.eqb c quote then Some (EmptyString, s')
      else if Ascii.eqb c backslash then
        match s' with
        | String e s2 =>
            if isEscape e then consTok (String c (String e EmptyString)) (lexString s2)
            else if Ascii.eqb e "u" then
              match s2 with
              | String h1 (String h2 (String h3 (String h4 s6))) =>
                  if isHex h1 && isHex h2 && isHex h3 && isHex h4
                  then consTok (String c (String e (String h1 (String h2 (String h3
                                  (String h4 EmptyString)))))) (lexString s6)
                  else None
              | _ => None
              end
            else None
        | EmptyString => None
        end
      else if byte_val c <? 32 then None
      else consTok (String c EmptyString) (lexString s')
  end.

(** The longest run of digits at the head of [s], and the rest. *)
Fixpoint lexDigits (s : string) : string * string :=
  match s with
  | String c s' =>
      if isDigit c then let (ds, r) := lexDigits s' in (String c ds, r)
      else (EmptyString, s)
  | EmptyString => (EmptyString, s)
  end.

(** The scanner on a number, part by part: each part gives the bytes it
    took and the text after them, or fails. *)
Definition lexSign (s : string) : string * string :=
  match s with
  | String c r => if Ascii.eqb c "-" then (String c EmptyString, r) else (EmptyString, s)
  | EmptyString => (EmptyString, s)
  end.

(** The integer part: a lone [0], or a digit from 1 to 9 and more digits. *)
Definition lexInt (s : string) : option (string * string) :=
  match s with
  | String c r =>
      if isDigit c then
        if Ascii.eqb c "0" then Some (String c EmptyString, r)
        else let (ds, r') := lexDigits r in Some (String c ds, r')
      else None
  | EmptyString => None
  end.

(** The fraction, if there is a point: the point and at least one digit. *)
Definition lexFrac (s : string) : option (string * string) :=
  match s with
  | String p r =>
      if Ascii.eqb p "." then
        match lexDigits r with
        | (EmptyString, _) => None
        | (ds, r') => Some (String p ds, r')
        end
      else Some (EmptyString, s)
  | EmptyString => Some (EmptyString, s)
  end.

(** The exponent, if there is an [e] or [E]: the letter, an optional sign,
    and at least one digit. *)
Definition lexExp (s : string) : option (string * string) :=
  match s with
  | String e r =>
      if Ascii.eqb e "e" || Ascii.eqb e "E" then
        let (sg, r1) :=
          match r with
          | String g r1 =>
              if Ascii.eqb g "+" || Ascii.eqb g "-"
              then (String g EmptyString, r1) else (EmptyString, r)
          | EmptyString => (EmptyString, r)
          end in
        match lexDigits r1 with
        | (EmptyString, _) => None
        | (ds, r2) => Some (String e (sg +:+ ds), r2)
        end
      else Some (EmptyString, s)
  | EmptyString => Some (EmptyString, s)
  end.

(** A number: sign, integer part, fraction, exponent. *)
Definition lexNumber (s : string) : option (string * string) :=
  let (sg, s1) := lexSign s in
  match lexInt s1 with
  | Some (int, s2) =>
      match lexFrac s2 with
      | Some (fr, s3) =>
          match lexExp s3 with
          | Some (ex, s4) => Some (sg +:+ int +:+ fr +:+ ex, s4)
          | None => None
          end
      | None => None
      end
  | None => None
  end.

(** [s] starts with the literal [lit]: the text after it. *)
Fixpoint lexLiteral (lit s : string) : option string :=
  match lit, s with
  | EmptyString, _ => Some s
  | String a lit', String b s' => if Ascii.eqb a b then lexLiteral lit' s' else None
  | _, EmptyString => None
  end.

(** The grammar the scanner accepts, by recursive descent.  [fuel] bounds
    the nesting and the number of elements. *)
Fixpoint parseValue (fuel : nat) (s : string) : option (value * string) :=
  match fuel with
  | O => None
  | S fuel =>
      match skipSpace s with
      | EmptyString => None
      | String c r =>
          if Ascii.eqb c "{" then
            match skipSpace r with
            | String c' r' =>
                if Ascii.eqb c' "}" then Some (JObject [], r')
                else
                  match parseMembers fuel r with
                  | Some (ms, r2) => Some (JObject ms, r2)
                  | None => None
                  end
            | EmptyString => None
            end
          else if Ascii.eqb c "[" then
            match skipSpace r with
            | String c' r' =>
                if Ascii.eqb c' "]" then Some (JArray [], r')
                else
                  match parseElements fuel r with
                  | Some (vs, r2) => Some (JArray vs, r2)
                  | None => None
                  end
            | EmptyString => None
            end
          else if Ascii.eqb c quote then
            match lexString r with
            | Some (tok, r') => Some (JString tok, r')
            | None => None
            end
          else if Ascii.eqb c "t" then
            match lexLiteral "rue" r with Some r' => Some (JBool true, r') | None => None end
          else if Ascii.eqb c "f" then
            match lexLiteral "alse" r with Some r' => Some (JBool false, r') | None => None end
          else if Ascii.eqb c "n" then
            match lexLiteral "ull" r with Some r' => Some (JNull, r') | None => None end
          else
            match lexNumber (String c r) with
            | Some (lit, r') => Some (JNumber lit, r')
            | None => None
            end
      end
  end
with parseElements (fuel : nat) (s : string) : option (list value * string) :=
  match fuel with
  | O => None
  | S fuel =>
      match parseValue fuel s with
      | Some (v, r) =>
          match skipSpace r with
          | String c r' =>
              if Ascii.eqb c "," then
                match parseElements fuel r' with
                | Some (vs, r2) => Some (v :: vs, r2)
                | None => None
                end
              else if Ascii.eqb c "]" then Some ([v], r')
              else None
          | EmptyString => None
          end
      | None => None
      end
  end
with parseMembers (fuel : nat) (s : string) : option (list (string * value) * string) :=
  match fuel with
  | O => None
  | S fuel =>
      match skipSpace s with
      | String q r =>
          if Ascii.eqb q quote then
            match lexString r with
            | Some (key, r1) =>
                match skipSpace r1 with
                | String c r2 =>
                    if Ascii.eqb c ":" then
                      match parseValue fuel r2 with
                      | Some (v, r3) =>
                          match skipSpace r3 with
                          | String c' r4 =>
                              if Ascii.eqb c' "," then
                                match parseMembers fuel r4 with
                                | Some (ms, r5) => Some ((key, v) :: ms, r5)
                                | None => None
                                end
                              else if Ascii.eqb c' "}" then Some ([(key, v)], r4)
                              else None
                          | EmptyString => None
                          end
                      | None => None
                      end
                    else None
                | EmptyString => None
                end
            | None => None
            end
          else None
      | EmptyString => None
      end
  end.

(** The fuel that is enough for a text: with more, the scanner gives the
    same answer. *)
Definition fuelFor (s : string) : nat := S (2 * String.length s).

(** A whole JSON text: one value, then nothing but white space.  [None] is
    the scanner's syntax error. *)
Definition parse (s : string) : option value :=
  match parseValue (fuelFor s) s with
  | Some (v, r) =>
      match skipSpace r with
      | EmptyString => Some v
      | _ => None
      end
  | None => None
  end.

(** [json.Valid]. *)
Definition Valid (s : string) : bool :=
  match parse s with Some _ => true | None => false end.

(** ** Decoding a string *)

(** The value of a hexadecimal digit. *)
Definition hexVal (c : ascii) : option Z :=
  if isDigit c then Some (byte_val c - 48)
  else if Utf8.between 97 102 c then Some (byte_val c - 87)
  else if Utf8.between 65 70 c then Some (byte_val c - 55)
  else None.

(** The number that four hexadecimal digits write. *)
Definition hex4 (h1 h2 h3 h4 : ascii) : option Z :=
  match hexVal h1, hexVal h2, hexVal h3, hexVal h4 with
  | Some a, Some b, Some c, Some d => Some (((a * 16 + b) * 16 + c) * 16 + d)
  | _, _, _, _ => None
  end.

(** [getu4]: the code unit of a [\\uXXXX] at the head of [s], and the text
    after it. *)
Definition getu4 (s : string) : option (Z * string) :=
  match s with
  | String b (String u (String h1 (String h2 (String h3 (String h4 r))))) =>
      if Ascii.eqb b backslash && Ascii.eqb u "u" then
        match hex4 h1 h2 h3 h4 with
        | Some v => Some (v, r)
        | None => None
        end
      else None
  | _ => None
  end.

Definition byte_of (n : Z) : ascii := ascii_of_N (Z.to_N n).

(** U+FFFD in UTF-8. *)
Definition replacement : string :=
  String (byte_of 239) (String (byte_of 191) (String (byte_of 189) EmptyString)).

(** [utf8.EncodeRune]. *)
Definition EncodeRune (r : Z) : string :=
  if r <? 128 then String (byte_of r) EmptyString
  else if r <? 2048 then
    String (byte_of (192 + r / 64)) (String (byte_of (128 + r mod 64)) EmptyString)
  else if ((55296 <=? r) && (r <=? 57343)) || (1114111 <? r) then replacement
  else if r <? 65536 then
    String (byte_of (224 + r / 4096))
      (String (byte_of (128 + (r / 64) mod 64))
         (String (byte_of (128 + r mod 64)) EmptyString))
  else
    String (byte_of (240 + r / 262144))
      (String (byte_of (128 + (r / 4096) mod 64))
         (String (byte_of (128 + (r / 64) mod 64))
            (String (byte_of (128 + r mod 64)) EmptyString))).

Definition isSurrogate (r : Z) : bool := (55296 <=? r) && (r <? 57344).

(** [utf16.DecodeRune]: the code point of a surrogate pair, if it is one. *)
Definition decodePair (r1 r2 : Z) : option Z :=
  if (55296 <=? r1) && (r1 <? 56320) && (56320 <=? r2) && (r2 <? 57344)
  then Some ((r1 - 55296) * 1024 + (r2 - 56320) + 65536)
  else None.

Definition simpleEscape (e : ascii) : option ascii :=
  if Ascii.eqb e quote || Ascii.eqb e backslash || Ascii.eqb e "/" || Ascii.eqb e "'"
  then Some e
  else if Ascii.eqb e "b" then Some "008"%char
  else if Ascii.eqb e "f" then Some "012"%char
  else if Ascii.eqb e "n" then Some LF
  else if Ascii.eqb e "r" then Some "013"%char
  else if Ascii.eqb e "t" then Some "009"%char
  else None.

Definition prepend (pre : string) (r : option string) : option string :=
  match r with
  | Some s => Some (pre +:+ s)
  | None => None
  end.

(** [unquote]: the string that the bytes between two quotes denote.
    Escapes are replaced, and bytes that are not UTF-8 become U+FFFD. *)
Fixpoint unquote (s : string) : option string :=
  match s with
  | EmptyString => Some EmptyString
  | String c s1 =>
      if Ascii.eqb c backslash then
        match s1 with
        | String e s2 =>
            if Ascii.eqb e "u" then
              match s2 with
              | String h1 (String h2 (String h3 (String h4 s6))) =>
                  match hex4 h1 h2 h3 h4 with
                  | Some rr =>
                      if isSurrogate rr then
                        match s6 with
                        | String b (String u (String k1 (String k2 (String k3
                            (String k4 s12))))) =>
                            match getu4 s6 with
                            | Some (rr1, _) =>
                                match decodePair rr rr1 with
                                | Some dec => prepend (EncodeRune dec) (unquote s12)
                                | None => prepend replacement (unquote s6)
                                end
                            | None => prepend replacement (unquote s6)
                            end
                        | _ => prepend replacement (unquote s6)
                        end
                      else prepend (EncodeRune rr) (unquote s6)
                  | None => None
                  end
              | _ => None
              end
            else
              match simpleEscape e with
              | Some b => prepend (String b EmptyString) (unquote s2)
              | None => None
              end
        | EmptyString => None
        end
      else if Ascii.eqb c quote || (byte_val c <? 32) then None
      else if byte_val c <? 128 then prepend (String c EmptyString) (unquote s1)
      else
        match Utf8.seqLen c s1, s1 with
        | 2%nat, String b1 r1 => prepend (String c (String b1 EmptyString)) (unquote r1)
        | 3%nat, String b1 (String b2 r2) =>
            prepend (String c (String b1 (String b2 EmptyString))) (unquote r2)
        | 4%nat, String b1 (String b2 (String b3 r3)) =>
            prepend (String c (String b1 (String b2 (String b3 EmptyString)))) (unquote r3)
        | _, _ => prepend replacement (unquote s1)
        end
  end.

(** [strings.ToValidUTF8(s, "�")] byte by byte: what is left of a string
    once every byte that is not part of a UTF-8 sequence is U+FFFD. *)
Fixpoint coerceUTF8 (s : string) : string :=
  match s with
  | EmptyString => EmptyString
  | String b0 r0 =>
      if byte_val b0 <? 128 then String b0 (coerceUTF8 r0)
      else
        match Utf8.seqLen b0 r0, r0 with
        | 2%nat, String b1 r1 => String b0 (String b1 (coerceUTF8 r1))
        | 3%nat, String b1 (String b2 r2) =>
            String b0 (String b1 (String b2 (coerceUTF8 r2)))
        | 4%nat, String b1 (String b2 (String b3 r3)) =>
            String b0 (String b1 (String b2 (String b3 (coerceUTF8 r3))))
        | _, _ => replacement +:+ coerceUTF8 r0
        end
  end.

(** ** [Compact] and [Indent] *)

(** What [compact] does to the bytes it copies when [escapeHTML] is on:
    [<], [>], [&] and the two line separators are written as escapes. *)
Fixpoint escapeHTML (s : string) : string :=
  match s with
  | EmptyString => EmptyString
  | String c r =>
      if Ascii.eqb c "<" || Ascii.eqb c ">" || Ascii.eqb c "&" then u00 c +:+ escapeHTML r
      else
        match r with
        | String b1 (String b2 r2) =>
            if isLineSep c b1 b2 then u202 b2 +:+ escapeHTML r2
            else String c (escapeHTML r)
        | _ => String c (escapeHTML r)
        end
  end.

(** [Compact] with [escapeHTML] on, on a parsed text: the white space is
    gone already, the strings and keys are escaped. *)
Fixpoint compact (v : value) : value :=
  match v with
  | JString tok => JString (escapeHTML tok)
  | JArray vs => JArray (List.map compact vs)
  | JObject ms => JObject (List.map (fun m => (escapeHTML (fst m), compact (snd m))) ms)
  | _ => v
  end.

(** The line break of [Indent] with an empty prefix and an indent of four
    spaces, at nesting depth [d]. *)
Fixpoint spaces (d : nat) : string :=
  match d with
  | O => EmptyString
  | S d' => "    " +:+ spaces d'
  end.

Definition newline (d : nat) : string := String LF (spaces d).

(** A token between its quotes. *)
Definition quoted (tok : string) : string :=
  String quote (tok +:+ String quote EmptyString).

(** The layout of [Indent]: one element or member per line, a space after
    the colon, and [[]] and [{}] for the empty array and object. *)
Fixpoint render (d : nat) (v : value) {struct v} : string :=
  match v with
  | JNull => "null"
  | JBool true => "true"
  | JBool false => "false"
  | JNumber lit => lit
  | JString tok => quoted tok
  | JArray [] => "[]"
  | JArray (x :: xs) =>
      "[" +:+ newline (S d) +:+ render (S d) x +:+
      (fix more (l : list value) : string :=
         match l with
         | [] => newline d +:+ "]"
         | y :: l' => "," +:+ newline (S d) +:+ render (S d) y +:+ more l'
         end) xs
  | JObject [] => "{}"
  | JObject ((k, x) :: ms) =>
      "{" +:+ newline (S d) +:+ quoted k +:+ ": " +:+ render (S d) x +:+
      (fix more (l : list (string * value)) : string :=
         match l with
         | [] => newline d +:+ "}"
         | (k', y) :: l' =>
             "," +:+ newline (S d) +:+ quoted k' +:+ ": " +:+ render (S d) y +:+ more l'
         end) ms
  end.

(** ** [RawMessage] *)

(** [json.RawMessage] is a [[]byte]; its [MarshalJSON] answers [null] for the
    nil slice and the bytes themselves otherwise. *)
Definition RawMessage := bytes.

Definition RawMessage_MarshalJSON (m : RawMessage) : string :=
  match m with
  | None => "null"
  | Some b => b
  end.

End Json.

(* ===================================================================== *)
(** * Package [os/exec], as one invocation sees it *)
(* ===================================================================== *)

(** The parent's end of each of the three pipes of the child. *)
Inductive Handle := hStdin | hStdout | hStderr.

(** The calls that reach the operating system, in the order in which they
    are made.  [CallFn] is the caller's callback, run with the handle it
    is given; what it writes is the caller's concern. *)
Inductive Call :=
| CallStdinPipe
| CallStdoutPipe
| CallStderrPipe
| CallStart
| CallFn (h : option Handle)
| CallClose (h : Handle)
| CallReadAll (h : Handle)
| CallWait.

(** What the operating system answers during one invocation: for each call,
    the error it reports ([None] for success) and, for [ReadAll], the bytes
    that arrived. *)
Record Answers := {
  onStdinPipe : option error;
  onStdoutPipe : option error;
  onStderrPipe : option error;
  onStart : option error;
  onClose : Handle -> option error;
  onReadAll : Handle -> string * option error;
  onWait : option error
}.

(** A computation that reads the answers, appends to the log of calls, and
    either returns or panics (a method called on a nil interface). *)
Inductive Res (A : Type) :=
| Ret (a : A) (log : list Call)
| Panic (log : list Call).
Arguments Ret {A} a log.
Arguments Panic {A} log.

(** The monad of such computations. *)
Definition M (A : Type) : Type := Answers -> list Call -> Res A.

#[global] Instance M_ret : MRet M := fun A a _ log => Ret a log.

#[global] Instance M_bind : MBind M := fun A B f m w log =>
  match m w log with
  | Ret a log' => f a w log'
  | Panic log' => Panic log'
  end.

(** Records a call. *)
Definition call (c : Call) : M unit := fun _ log => Ret tt (log ++ [c]).

(** Reads what the operating system answers. *)
Definition answer {A : Type} (f : Answers -> A) : M A := fun w log => Ret (f w) log.

(** A run-time panic: the computation stops there. *)
Definition panic {A : Type} : M A := fun _ log => Panic log.

(** A pipe method of [exec.Cmd]: the handle and a nil error, or a nil
    handle and the error. *)
Definition pipe (c : Call) (h : Handle) (f : Answers -> option error)
  : M (option Handle * option error) :=
  _ ← call c;
  err ← answer f;
  mret (match err with
        | None => (Some h, None)
        | Some _ => (None, err)
        end).

Definition Cmd_StdinPipe : M (option Handle * option error) :=
  pipe CallStdinPipe hStdin onStdinPipe.

Definition Cmd_StdoutPipe : M (option Handle * option error) :=
  pipe CallStdoutPipe hStdout onStdoutPipe.

Definition Cmd_StderrPipe : M (option Handle * option error) :=
  pipe CallStderrPipe hStderr onStderrPipe.

(** [Cmd.Start] and [Cmd.Wait]. *)
Definition Cmd_Start : M (option error) := _ ← call CallStart; answer onStart.

Definition Cmd_Wait : M (option error) := _ ← call CallWait; answer onWait.

(** [Close] on an [io.ReadCloser] or [io.WriteCloser]; on the nil interface
    the call panics. *)
Definition io_Close (h : option Handle) : M (option error) :=
  match h with
  | None => panic
  | Some h => _ ← call (CallClose h); answer (fun w => onClose w h)
  end.

(** [ioutil.ReadAll]: the slice it returns is never nil. *)
Definition ioutil_ReadAll (h : option Handle) : M (bytes * option error) :=
  match h with
  | None => panic
  | Some h =>
      _ ← call (CallReadAll h);
      r ← answer (fun w => onReadAll w h);
      mret (Some (fst r), snd r)
  end.

(* ===================================================================== *)
(** * Package [common]: [exec.go] *)
(* ===================================================================== *)

(** Modelled from the spec: the declaration of [SynqError] is not in
    [exec.go].  Its fields are the ones [exec.go] assigns; the JSON document
    is [{name, url, message, details?}] in this order, [details] being left
    out when the pointer is nil. *)
Record SynqError := {
  Name : string;
  Url : string;
  Message : string;
  Details : option Json.RawMessage
}.

(** The members [Marshal] writes for the three strings of a [SynqError]. *)
Definition fields (v : SynqError) : list (string * Json.value) :=
  [("name", Json.JString (Json.encodeString (Name v)));
   ("url", Json.JString (Json.encodeString (Url v)));
   ("message", Json.JString (Json.encodeString (Message v)))].

(** [json.MarshalIndent(v, "", "    ")] for a [SynqError]: the document, or
    [None] when the encoder fails, which it does when the bytes of
    [details] are not a JSON text. *)
Definition MarshalIndent (v : SynqError) : option string :=
  match Details v with
  | None => Some (Json.render 0 (Json.JObject (fields v)))
  | Some raw =>
      match Json.parse (Json.RawMessage_MarshalJSON raw) with
      | Some d =>
          Some (Json.render 0 (Json.JObject (fields v ++ [("details", Json.compact d)])))
      | None => None
      end
  end.

(** [exec.Cmd]: the command, its arguments and its environment. *)
Record exec_Cmd := {
  Path : string;
  Args : list string;
  Env : list string
}.

Record ExecObj := {
  Cmd : exec_Cmd;
  stdout : option Handle;
  stderr : option Handle;
  stdin : option Handle;
  ReadOut : bytes;
  ReadErr : bytes;
  RunErr : option error;
  Err : SynqError
}.

Definition set_stdout (h : option Handle) (e : ExecObj) : ExecObj :=
  {| Cmd := Cmd e; stdout := h; stderr := stderr e; stdin := stdin e;
     ReadOut := ReadOut e; ReadErr := ReadErr e; RunErr := RunErr e; Err := Err e |}.

Definition set_stderr (h : option Handle) (e : ExecObj) : ExecObj :=
  {| Cmd := Cmd e; stdout := stdout e; stderr := h; stdin := stdin e;
     ReadOut := ReadOut e; ReadErr := ReadErr e; RunErr := RunErr e; Err := Err e |}.

Definition set_stdin (h : option Handle) (e : ExecObj) : ExecObj :=
  {| Cmd := Cmd e; stdout := stdout e; stderr := stderr e; stdin := h;
     ReadOut := ReadOut e; ReadErr := ReadErr e; RunErr := RunErr e; Err := Err e |}.

Definition set_ReadOut (b : bytes) (e : ExecObj) : ExecObj :=
  {| Cmd := Cmd e; stdout := stdout e; stderr := stderr e; stdin := stdin e;
     ReadOut := b; ReadErr := ReadErr e; RunErr := RunErr e; Err := Err e |}.

Definition set_ReadErr (b : bytes) (e : ExecObj) : ExecObj :=
  {| Cmd := Cmd e; stdout := stdout e; stderr := stderr e; stdin := stdin e;
     ReadOut := ReadOut e; ReadErr := b; RunErr := RunErr e; Err := Err e |}.

Definition set_RunErr (err : option error) (e : ExecObj) : ExecObj :=
  {| Cmd := Cmd e; stdout := stdout e; stderr := stderr e; stdin := stdin e;
     ReadOut := ReadOut e; ReadErr := ReadErr e; RunErr := err; Err := Err e |}.

Definition set_Err (v : SynqError) (e : ExecObj) : ExecObj :=
  {| Cmd := Cmd e; stdout := stdout e; stderr := stderr e; stdin := stdin e;
     ReadOut := ReadOut e; ReadErr := ReadErr e; RunErr := RunErr e; Err := v |}.

(** The default [SynqError] of [NewExec]. *)
Definition defaultErr : SynqError :=
  {| Name := "exec_error";
     Url := "http://docs.synq.fm/api/v1/errors/";
     Message := "An error occured while running your script";
     Details := None |}.

(** [NewExec(command, args...)]; [environ] is [os.Environ()]. *)
Definition NewExec (environ : list string) (command : string) (args : list string) : ExecObj :=
  {| Cmd := {| Path := command; Args := command :: args; Env := environ |};
     stdout := None; stderr := None; stdin := None;
     ReadOut := None; ReadErr := None; RunErr := None;
     Err := defaultErr |}.

Definition Open (e : ExecObj) : M (ExecObj * option error) :=
  '(stdin, err) ← Cmd_StdinPipe;
  let e := set_stdin stdin e in
  match err with
  | Some _ => mret (e, err)
  | None =>
      '(stdout, err) ← Cmd_StdoutPipe;
      let e := set_stdout stdout e in
      match err with
      | Some _ => mret (e, err)
      | None =>
          '(stderr, err) ← Cmd_StderrPipe;
          let e := set_stderr stderr e in
          match err with
          | Some _ => mret (e, err)
          | None => mret (e, None)
          end
      end
  end.

Definition Close (e : ExecObj) : M unit :=
  _ ← io_Close (stderr e);
  _ ← io_Close (stdout e);
  mret tt.

Definition Read (e : ExecObj) : M (ExecObj * option error) :=
  '(o, err) ← ioutil_ReadAll (stdout e);
  match err with
  | Some _ => mret (e, err)
  | None =>
      let e := set_ReadOut o e in
      '(o2, err) ← ioutil_ReadAll (stderr e);
      match err with
      | Some _ => mret (e, err)
      | None => mret (set_ReadErr o2 e, None)
      end
  end.

(** [Exec(fn)]: the callback [fn] is the caller's; the model records its
    invocation as [CallFn]. *)
Definition Exec (e : ExecObj) : M ExecObj :=
  '(e, err) ← Open e;
  match err with
  | Some _ => mret (set_RunErr err e)
  | None =>
      err ← Cmd_Start;
      match err with
      | Some _ => mret (set_RunErr err e)
      | None =>
          _ ← call (CallFn (stdin e));
          err ← io_Close (stdin e);
          match err with
          | Some _ => mret (set_RunErr err e)
          | None =>
              '(e, err) ← Read e;
              match err with
              | Some _ => mret (set_RunErr err e)
              | None =>
                  err ← Cmd_Wait;
                  match err with
                  | Some _ => mret (set_RunErr err e)
                  | None => mret e
                  end
              end
          end
      end
  end.

Definition ErrorMsg (e : ExecObj) : string :=
  match RunErr e with
  | None => EmptyString
  | Some err => Error err
  end.

Definition StatusCode (e : ExecObj) : Z :=
  if String.eqb (ErrorMsg e) EmptyString then 200 else 400.

(** [MarshalError] has a pointer receiver and writes to [e.Err]: the object
    after the call and the body.  The lines it sends to [log] are left out. *)
Definition MarshalError (e : ExecObj) : ExecObj * bytes :=
  let e :=
    if negb (String.eqb (ErrorMsg e) "exit status 1") then
      set_Err {| Name := Name (Err e); Url := Url (Err e);
                 Message := ErrorMsg e; Details := Details (Err e) |} e
    else
      let jsErr : Json.RawMessage := ReadErr e in
      set_Err {| Name := Name (Err e); Url := Url (Err e);
                 Message := Message (Err e); Details := Some jsErr |} e in
  (e, MarshalIndent (Err e)).

Definition StatusBody (e : ExecObj) : ExecObj * bytes :=
  if String.eqb (ErrorMsg e) EmptyString then (e, ReadOut e)
  else MarshalError e.

(** ** The lock file and the processes around it *)

(** A file: its content, and whether the process may read it. *)
Record File := {
  content : string;
  readable : bool
}.

(** The files [CheckPid] can see and the processes it can probe: [files]
    maps a path to the file there, [probe] is what
    [process.Signal(syscall.Signal(0))] answers for a PID, and [onWrite] is
    what [ioutil.WriteFile] answers for a path: nil when the file there can
    be opened for writing, and the error when it cannot (a directory that
    does not exist, a file or a directory that may not be written, a file
    system that is mounted read-only). *)
Record World := {
  pid : Z;
  files : gmap string File;
  probe : Z -> option error;
  onWrite : string -> option error
}.

Definition os_Getpid (w : World) : Z := pid w.

(** [os.Stat]: nil exactly when the file exists. *)
Definition os_Stat (name : string) (w : World) : option error :=
  match files w !! name with
  | Some _ => None
  | None => Some (errorString ("stat " +:+ name +:+ ": no such file or directory"))
  end.

Definition ioutil_ReadFile (name : string) (w : World) : bytes * option error :=
  match files w !! name with
  | Some f =>
      if readable f then (Some (content f), None)
      else (None, Some (errorString ("open " +:+ name +:+ ": permission denied")))
  | None => (None, Some (errorString ("open " +:+ name +:+ ": no such file or directory")))
  end.

(** [ioutil.WriteFile(name, data, 0644)].  The file is opened for writing,
    created if it is missing and emptied if it is there.  When it cannot be
    opened, the error is returned and the files are as before.  When it can,
    an existing file keeps its mode and gets the new content, and a missing
    one is created readable.  A write that fails after the file was opened
    (a disk that is full) is left out. *)
Definition ioutil_WriteFile (name : string) (data : string) (w : World)
    : World * option error :=
  match onWrite w name with
  | Some err => (w, Some err)
  | None =>
      let mode :=
        match files w !! name with
        | Some f => readable f
        | None => true
        end in
      ({| pid := pid w;
          files := <[name := {| content := data; readable := mode |}]> (files w);
          probe := probe w;
          onWrite := onWrite w |}, None)
  end.

(** [string(b)] for a [[]byte]. *)
Definition string_of_bytes (b : bytes) : string :=
  match b with
  | None => EmptyString
  | Some s => s
  end.

(** Modelled from the spec: [NewError] is declared outside [exec.go]; it
    builds the error whose text is the format with the PID filled in. *)
Definition NewError (format : string) (n : Z) : error :=
  errorString (Sprintf format n).

(** [CheckPid(pidFile)], on a platform whose [int] has 64 bits and whose
    [os.FindProcess] always finds (Unix).  The error of [ioutil.WriteFile]
    is dropped, as the errors of [ReadFile] and [ParseInt] are.  The lines
    sent to [log] are left out. *)
Definition CheckPid (pidFile : string) (w : World) : World * (Z * option error) :=
  let currentPid := os_Getpid w in
  let claim :=
    let '(w', _) := ioutil_WriteFile pidFile (Sprintf "%d" currentPid) w in
    (w', (currentPid, None)) in
  match os_Stat pidFile w with
  | None =>
      let '(bytes, _) := ioutil_ReadFile pidFile w in
      let '(pid, _) := Strconv.ParseInt (string_of_bytes bytes) in
      if currentPid =? pid then (w, (currentPid, None))
      else
        let err := probe w pid in
        let pidExists :=
          match err with
          | Some err =>
              if Strings.Contains (Error err) "already finished" ||
                 Strings.Contains (Error err) "no such process"
              then false else true
          | None => true
          end in
        if pidExists
        then (w, (pid, Some (NewError "Pid '%d' already exists, will not run" pid)))
        else claim
  | Some _ => claim
  end.

(* ===================================================================== *)
(** * Package [test_helper]: [http.go] *)
(* ===================================================================== *)

(** [RunRequest] drives [gin], [net/http] and [httptest].  The model keeps
    the calls it makes on them, with their arguments and in their order;
    what the packages do with the calls is theirs.  Two things come back
    from them: whether [http.NewRequest] gives a request, and whether a call
    panics. *)
Module test_helper.

(** A function value of the caller (a middleware, the handler, the
    finaliser): the model knows it by a number. *)
Definition Func := nat.

(** [Headers] is a Go map: the list has its entries in the order in which
    the [range] statement of this run visits them.  [Middlewares] is a slice,
    nil or not. *)
Record RequestConfig := {
  Method : string;
  Path : string;
  Body : string;
  Headers : list (string * string);
  Middlewares : option (list Func);
  Handler : Func;
  Finaliser : option Func
}.

(** The calls on the three packages.  [URL_RawQuery] is the assignment to
    [req.URL.RawQuery]; [Engine_ServeHTTP] says whether the request it is
    given is there or nil. *)
Inductive Call :=
| gin_SetMode
| gin_New
| Engine_Use (mw : Func)
| http_NewRequest (method url body : string)
| URL_RawQuery (qs : string)
| Header_Set (key value : string)
| Engine_Handle (method path : string) (handler : Func)
| httptest_NewRecorder
| Engine_ServeHTTP (request : bool)
| Finaliser_call (f : Func).

(** What the packages answer during one run: the error of
    [http.NewRequest] for a method and a URL, and the calls that panic. *)
Record Answers := {
  onNewRequest : string -> string -> option error;
  panics : Call -> bool
}.

(** A run returns, or panics; both leave the log of the calls made. *)
Inductive Res (A : Type) :=
| Ret (a : A) (log : list Call)
| Panic (log : list Call).
Arguments Ret {A} a log.
Arguments Panic {A} log.

Definition M (A : Type) : Type := Answers -> list Call -> Res A.

#[global] Instance M_ret : MRet M := fun A a _ log => Ret a log.

#[global] Instance M_bind : MBind M := fun A B f m w log =>
  match m w log with
  | Ret a log' => f a w log'
  | Panic log' => Panic log'
  end.

(** Makes a call: it is logged, and it returns unless it panics. *)
Definition call (c : Call) : M unit := fun w log =>
  if panics w c then Panic (log ++ [c]) else Ret tt (log ++ [c]).

Definition panic {A : Type} : M A := fun _ log => Panic log.

(** A [for ... range] loop over a slice or a map. *)
Fixpoint forEach {A : Type} (f : A -> M unit) (l : list A) : M unit :=
  match l with
  | [] => mret tt
  | x :: l' => _ ← f x; forEach f l'
  end.

(** [ss[i]]: out of range, the index panics. *)
Definition index (ss : list string) (i : nat) : M string :=
  match ss !! i with
  | Some s => mret s
  | None => panic
  end.

(** [http.NewRequest]: the request, or nil with an error.  The model keeps
    of the request that it is there. *)
Definition NewRequest (method url body : string) : M (option unit) := fun w log =>
  let c := http_NewRequest method url body in
  if panics w c then Panic (log ++ [c])
  else Ret (match onNewRequest w method url with
            | None => Some tt
            | Some _ => None
            end) (log ++ [c]).

(** A write through the request: on the nil request it panics. *)
Definition onRequest (req : option unit) (c : Call) : M unit :=
  match req with
  | Some _ => call c
  | None => panic
  end.

Definition RunRequest (rc : RequestConfig) : M unit :=
  _ ← call gin_SetMode;
  _ ← call gin_New;
  _ ← match Middlewares rc with
      | Some mws =>
          if (0 <? length mws)%nat then forEach (fun mw => call (Engine_Use mw)) mws
          else mret tt
      | None => mret tt
      end;
  '(path, qs) ←
    (if Strings.Contains (Path rc) "?" then
       let ss := Strings.Split (Path rc) "?" in
       p ← index ss 0;
       q ← index ss 1;
       mret (p, q)
     else mret (Path rc, EmptyString));
  req ← NewRequest (Method rc) path (Body rc);
  _ ← (if (0 <? String.length qs)%nat then onRequest req (URL_RawQuery qs) else mret tt);
  _ ← (if (0 <? length (Headers rc))%nat then
         forEach (fun kv => onRequest req (Header_Set (fst kv) (snd kv))) (Headers rc)
       else if String.eqb (Method rc) "POST" || String.eqb (Method rc) "PUT" then
         if Strings.HasPrefix (Body rc) "{" then
           onRequest req (Header_Set "Content-Type" "application/json")
         else
           onRequest req (Header_Set "Content-Type" "application/x-www-form-urlencoded")
       else mret tt);
  _ ← call (Engine_Handle (Method rc) path (Handler rc));
  _ ← call httptest_NewRecorder;
  _ ← call (Engine_ServeHTTP (bool_decide (is_Some req)));
  match Finaliser rc with
  | Some f => call (Finaliser_call f)
  | None => mret tt
  end.

Definition RunSimpleGet (path : string) (handler : Func) (reply : option Func) : M unit :=
  RunRequest {| Method := "GET"; Path := path; Body := EmptyString; Headers := [];
                Middlewares := None; Handler := handler; Finaliser := reply |}.

Definition RunSimplePost (path body : string) (handler : Func) (reply : option Func)
  : M unit :=
  RunRequest {| Method := "POST"; Path := path; Body := body; Headers := [];
                Middlewares := None; Handler := handler; Finaliser := reply |}.

(** [MiddleWares()]: the empty slice, not nil. *)
Definition MiddleWares : option (list Func) := Some [].

(** ** What the properties of [RunRequest] speak about *)

(** The packages are willing: [http.NewRequest] gives a request and no call
    panics. *)
Definition willing : Answers :=
  {| onNewRequest := fun _ _ => None; panics := fun _ => false |}.

(** [http.NewRequest] fails with [err], and no call panics. *)
Definition noRequest (err : error) : Answers :=
  {| onNewRequest := fun _ _ => Some err; panics := fun _ => false |}.

(** The path and the query that a run takes from [Path]: the piece before
    the first [?] and the piece after it, or the path and no query. *)
Definition pathAndQuery (path : string) : string * string :=
  if Strings.Contains path "?" then
    match Strings.Split path "?" with
    | p :: q :: _ => (p, q)
    | _ => (path, EmptyString)
    end
  else (path, EmptyString).

(** The middlewares put on the engine. *)
Definition usesOf (rc : RequestConfig) : list Call :=
  match Middlewares rc with
  | Some mws => List.map Engine_Use mws
  | None => []
  end.

(** The headers put on the request: those of the configuration if there
    are any; otherwise, for a POST or a PUT, the content type that the first
    byte of the body decides; otherwise none. *)
Definition headersOf (rc : RequestConfig) : list Call :=
  match Headers rc with
  | _ :: _ => List.map (fun kv => Header_Set (fst kv) (snd kv)) (Headers rc)
  | [] =>
      if String.eqb (Method rc) "POST" || String.eqb (Method rc) "PUT" then
        [Header_Set "Content-Type"
           (if Strings.HasPrefix (Body rc) "{" then "application/json"
            else "application/x-www-form-urlencoded")]
      else []
  end.

Definition finaliserOf (rc : RequestConfig) : list Call :=
  match Finaliser rc with
  | Some f => [Finaliser_call f]
  | None => []
  end.

(** The calls up to [http.NewRequest], for the URL [p]. *)
Definition callsBefore (rc : RequestConfig) (p : string) : list Call :=
  [gin_SetMode; gin_New] ++ usesOf rc ++ [http_NewRequest (Method rc) p (Body rc)].

(** The calls of a whole run that has the path [p] and the query [q]. *)
Definition callsOf (rc : RequestConfig) (p q : string) (request : bool) : list Call :=
  callsBefore rc p ++
  (if (0 <? String.length q)%nat then [URL_RawQuery q] else []) ++
  headersOf rc ++
  [Engine_Handle (Method rc) p (Handler rc); httptest_NewRecorder;
   Engine_ServeHTTP request] ++
  finaliserOf rc.

End test_helper.

(* ===================================================================== *)
(** * What the properties speak about *)
(* ===================================================================== *)

(** ** Invocations *)

(** The first of two optional errors. *)
Definition orElse (a b : option error) : option error :=
  match a with
  | Some _ => a
  | None => b
  end.

(** The failure of pipe acquisition: the first pipe that could not be had. *)
Definition openFailure (w : Answers) : option error :=
  orElse (onStdinPipe w) (orElse (onStdoutPipe w) (onStderrPipe w)).

(** The failure of the drain: standard output is read before standard
    error. *)
Definition drainFailure (w : Answers) : option error :=
  orElse (snd (onReadAll w hStdout)) (snd (onReadAll w hStderr)).

(** The first failure of open, start, close-input, drain, wait. *)
Definition firstFailure (w : Answers) : option error :=
  orElse (openFailure w)
    (orElse (onStart w)
       (orElse (onClose w hStdin)
          (orElse (drainFailure w) (onWait w)))).

(** Every error the operating system reports says something: the errors of
    [os/exec] and [os] all carry a text. *)
Definition reportsText (w : Answers) : Prop :=
  forall err,
    In (Some err) [onStdinPipe w; onStdoutPipe w; onStderrPipe w; onStart w;
                   onClose w hStdin; snd (onReadAll w hStdout);
                   snd (onReadAll w hStderr); onWait w] ->
    Error err <> EmptyString.

(** One invocation of a fresh runner: the object and the log of calls when
    [Exec] returns. *)
Definition run (w : Answers) (environ : list string) (command : string)
    (args : list string) : Res ExecObj :=
  Exec (NewExec environ command args) w [].

(** The release operation, run after the invocation of [command], closes
    all three handles and returns. *)
Definition releasesAll (w : Answers) (command : string) : Prop :=
  exists e log log',
    run w [] command [] = Ret e log /\
    Close e w log = Ret tt log' /\
    forall h, CallClose h ∈ log'.

(** A child that starts, writes [out] and [err] to its two streams and
    exits, [Wait] answering [wait]. *)
Definition childExits (out err : string) (wait : option error) : Answers :=
  {| onStdinPipe := None; onStdoutPipe := None; onStderrPipe := None;
     onStart := None;
     onClose := fun _ => None;
     onReadAll := fun h =>
       match h with
       | hStdout => (out, None)
       | _ => (err, None)
       end;
     onWait := wait |}.

(** A command that cannot be started. *)
Definition childFailsToStart (err : error) : Answers :=
  {| onStdinPipe := None; onStdoutPipe := None; onStderrPipe := None;
     onStart := Some err;
     onClose := fun _ => None;
     onReadAll := fun _ => (EmptyString, None);
     onWait := None |}.

(** An invocation whose first pipe cannot be had. *)
Definition noStdinPipe (err : error) : Answers :=
  {| onStdinPipe := Some err; onStdoutPipe := None; onStderrPipe := None;
     onStart := None;
     onClose := fun _ => None;
     onReadAll := fun _ => (EmptyString, None);
     onWait := None |}.

(** The JSON text of the object with the one member [foo] of value [bar]. *)
Definition fooBar : string :=
  "{" +:+ Json.quoted "foo" +:+ ":" +:+ Json.quoted "bar" +:+ "}".

(** The text [body] decodes as a structured error whose message is [msg]:
    it is a JSON text, an object with the string members [name], [url] and
    [message], in this order, and at most a member [details] after them;
    and the string of [message] denotes [msg]. *)
Definition decodesAsError (body msg : string) : Prop :=
  exists n u m more,
    Json.parse body =
      Some (Json.JObject (("name", Json.JString n) :: ("url", Json.JString u) ::
                          ("message", Json.JString m) :: more)) /\
    (more = [] \/ exists d, more = [("details", d)]) /\
    Json.unquote m = Some msg.

(** The claim C4 for one body: it is not empty, and it decodes as a
    structured error with a message that is not empty. *)
Definition structuredError (body : bytes) : Prop :=
  exists b msg,
    body = Some b /\ b <> EmptyString /\ decodesAsError b msg /\ msg <> EmptyString.

(** A child that writes [err] to its error stream and exits with status 1. *)
Definition childExitsOne (err : string) : Answers :=
  childExits EmptyString err (Some (errorString "exit status 1")).

(** The claim C1 for the document [MarshalError] returns: there is one, and
    the bytes [raw] of the error stream stand in it as they are. *)
Definition detailsVerbatim (body : bytes) (raw : string) : Prop :=
  exists b, body = Some b /\ Strings.Contains b raw = true.

(** ** Lock files *)

(** The PID [CheckPid] takes from the lock file: what [ParseInt] makes of
    the bytes [ReadFile] returned, both errors dropped. *)
Definition recordedPid (pidFile : string) (w : World) : Z :=
  fst (Strconv.ParseInt (string_of_bytes (fst (ioutil_ReadFile pidFile w)))).

(** The content of the file at a path, if there is one. *)
Definition contentOf (name : string) (w : World) : option string :=
  content <$> files w !! name.

(** The probe failed with one of the two texts that mean the process is
    gone. *)
Definition notAlive (r : option error) : bool :=
  match r with
  | Some err =>
      Strings.Contains (Error err) "already finished" ||
      Strings.Contains (Error err) "no such process"
  | None => false
  end.

(** The error that names the PID in the way. *)
Definition conflict (p : Z) : error :=
  errorString ("Pid '" +:+ Strconv.FormatInt p +:+ "' already exists, will not run").

(** The world after the caller has written its PID to the lock file, the
    error of the write being dropped: the file holds the PID when the write
    went through, and the world is as before when it did not. *)
Definition claimed (pidFile : string) (w : World) : World :=
  fst (ioutil_WriteFile pidFile (Strconv.FormatInt (pid w)) w).


(** The path of the lock file in the sample worlds. *)
Definition lockFile : string := "/tmp/app.pid".

(** Every process but [p] is gone. *)
Definition onlyAlive (p : Z) (q : Z) : option error :=
  if q =? p then None else Some (errorString "os: process already finished").

(** The probe is refused for every PID. *)
Definition probeRefused (q : Z) : option error :=
  Some (errorString "operation not permitted").

(** A readable file with the content [s]. *)
Definition textFile (s : string) : File := {| content := s; readable := true |}.

(** The caller has PID 100; the lock file, if any, is the only file. *)
Definition world (lock : option File) (probe : Z -> option error) : World :=
  {| pid := 100;
     files := match lock with
              | Some f => {[ lockFile := f ]}
              | None => ∅
              end;
     probe := probe;
     onWrite := fun _ => None |}.

(** The files of [w] on a file system that is mounted read-only: no file
    can be opened for writing. *)
Definition readOnly (w : World) : World :=
  {| pid := pid w;
     files := files w;
     probe := probe w;
     onWrite := fun name =>
       Some (errorString ("open " +:+ name +:+ ": read-only file system")) |}.

(** The claim C10 as it is stated: the recorded PID of a lock file whose
    content does not parse is 0, and the call ends in the conflict that
    names PID 0 or in the overwrite. *)
Definition resolvedByPidZero (pidFile : string) (w : World) : Prop :=
  recordedPid pidFile w = 0 /\
  (CheckPid pidFile w = (w, (0, Some (conflict 0))) \/
   CheckPid pidFile w = (claimed pidFile w, (pid w, None))).

(** ** Decimal text *)

(** The value of a run of decimal digits read after the value [acc]. *)
Fixpoint uval (d : Decimal.uint) (acc : Z) : Z :=
  match d with
  | Decimal.Nil => acc
  | Decimal.D0 l => uval l (10 * acc)
  | Decimal.D1 l => uval l (10 * acc + 1)
  | Decimal.D2 l => uval l (10 * acc + 2)
  | Decimal.D3 l => uval l (10 * acc + 3)
  | Decimal.D4 l => uval l (10 * acc + 4)
  | Decimal.D5 l => uval l (10 * acc + 5)
  | Decimal.D6 l => uval l (10 * acc + 6)
  | Decimal.D7 l => uval l (10 * acc + 7)
  | Decimal.D8 l => uval l (10 * acc + 8)
  | Decimal.D9 l => uval l (10 * acc + 9)
  end.

(** ** JSON texts *)

(** Bytes below [0x80] only: such a string is its own UTF-8 reading. *)
Fixpoint isASCII (s : string) : bool :=
  match s with
  | EmptyString => true
  | String c s' => (byte_val c <? 128) && isASCII s'
  end.

(** The text [s] is empty or starts with a byte that [p] rejects. *)
Definition stops (p : ascii -> bool) (s : string) : Prop :=
  match s with
  | EmptyString => True
  | String c _ => p c = false
  end.

(** What follows a value in an indented text: a comma, a line break, or
    the end. *)
Definition follows (rest : string) : Prop :=
  match rest with
  | EmptyString => True
  | String c _ => c = ","%char \/ c = Json.LF
  end.

(** The point of a fraction; the letter of an exponent. *)
Definition isPoint (c : ascii) : bool := Ascii.eqb c ".".

Definition isExpMark (c : ascii) : bool := Ascii.eqb c "e" || Ascii.eqb c "E".

(** A number literal: it starts as a number does, and the scanner takes it
    whole from any text in which a comma, a line break or nothing follows
    it. *)
Definition numOK (lit : string) : Prop :=
  (exists c l, lit = String c l /\ (Json.isDigit c = true \/ c = "-"%char)) /\
  forall rest, follows rest -> Json.lexNumber (lit +:+ rest) = Some (lit, rest).

(** The bytes between the quotes of a JSON string, as the scanner accepts
    them: bytes from [0x20] on other than the quote and the backslash, the
    eight short escapes, and [\\u] with four hexadecimal digits. *)
Inductive Token : string -> Prop :=
| Token_nil : Token EmptyString
| Token_byte c t :
    Ascii.eqb c Json.quote = false -> Ascii.eqb c Json.backslash = false ->
    (byte_val c <? 32) = false -> Token t -> Token (String c t)
| Token_escape e t :
    Json.isEscape e = true -> Token t -> Token (String Json.backslash (String e t))
| Token_u h1 h2 h3 h4 t :
    Json.isHex h1 && Json.isHex h2 && Json.isHex h3 && Json.isHex h4 = true ->
    Token t ->
    Token (String Json.backslash (String "u" (String h1 (String h2 (String h3
             (String h4 t)))))).

(** The bytes that [escapeHTML] rewrites on their own. *)
Definition isHTML (c : ascii) : bool :=
  Ascii.eqb c "<" || Ascii.eqb c ">" || Ascii.eqb c "&".

(** A tree whose numbers and strings are literals the scanner takes. *)
Fixpoint wf (v : Json.value) : Prop :=
  match v with
  | Json.JNumber lit => numOK lit
  | Json.JString tok => Token tok
  | Json.JArray vs =>
      (fix all (l : list Json.value) : Prop :=
         match l with
         | [] => True
         | x :: l' => wf x /\ all l'
         end) vs
  | Json.JObject ms =>
      (fix all (l : list (string * Json.value)) : Prop :=
         match l with
         | [] => True
         | (k, x) :: l' => (Token k /\ wf x) /\ all l'
         end) ms
  | _ => True
  end.

(** The elements of an array after the first, and the bracket that closes
    it; the members of an object after the first, and its brace. *)
Fixpoint renderElems (d : nat) (l : list Json.value) : string :=
  match l with
  | [] => Json.newline d +:+ "]"
  | y :: l' => "," +:+ Json.newline (S d) +:+ Json.render (S d) y +:+ renderElems d l'
  end.

Fixpoint renderMembers (d : nat) (l : list (string * Json.value)) : string :=
  match l with
  | [] => Json.newline d +:+ "}"
  | (k, y) :: l' =>
      "," +:+ Json.newline (S d) +:+ Json.quoted k +:+ ": " +:+
      Json.render (S d) y +:+ renderMembers d l'
  end.

(** The fuel the scanner needs for a tree. *)
Fixpoint need (v : Json.value) : nat :=
  match v with
  | Json.JArray vs =>
      S ((fix go (l : list Json.value) : nat :=
            match l with
            | [] => 0%nat
            | x :: l' => S (Nat.max (need x) (go l'))
            end) vs)
  | Json.JObject ms =>
      S ((fix go (l : list (string * Json.value)) : nat :=
            match l with
            | [] => 0%nat
            | (_, x) :: l' => S (Nat.max (need x) (go l'))
            end) ms)
  | _ => 1%nat
  end.

(** The fuel for the elements of an array, and for the members of an
    object. *)
Fixpoint needElems (l : list Json.value) : nat :=
  match l with
  | [] => 0%nat
  | x :: l' => S (Nat.max (need x) (needElems l'))
  end.

Fixpoint needMembers (l : list (string * Json.value)) : nat :=
  match l with
  | [] => 0%nat
  | (_, x) :: l' => S (Nat.max (need x) (needMembers l'))
  end.

(** The first byte of a value: not white space, and neither of the two
    closing brackets. *)
Definition opens (c : ascii) : Prop :=
  Json.isSpace c = false /\ Ascii.eqb c "]" = false /\ Ascii.eqb c "}" = false.

(** The property of one tree that the induction carries: the scanner reads
    its layout back, whatever the depth and the text after it. *)
Definition readsBack (v : Json.value) : Prop :=
  wf v ->
  forall d fuel rest,
    (need v <= fuel)%nat -> follows rest ->
    Json.parseValue fuel (Json.render d v +:+ rest) = Some (v, rest).

(** The property of one tree that the induction carries: its layout is at
    least as long as the fuel it needs. *)
Definition fitsFuel (v : Json.value) : Prop :=
  wf v -> forall d, (need v <= String.length (Json.render d v))%nat.

(** ** Invocations, call by call *)

(** The call was answered with an error. *)
Definition failed (r : option error) : bool :=
  match r with
  | Some _ => true
  | None => false
  end.

(** The calls of [Exec] in the order of the source: the three pipes of
    [Open], [Start], the callback, the close of the input, the two reads of
    [Read], and [Wait]. *)
Definition callOrder : list Call :=
  [CallStdinPipe; CallStdoutPipe; CallStderrPipe; CallStart;
   CallFn (Some hStdin); CallClose hStdin;
   CallReadAll hStdout; CallReadAll hStderr; CallWait].

(** How many of them one invocation makes: those up to the first that is
    answered with an error, that one included.  The callback returns
    nothing, so the fifth call is never the last. *)
Definition callsMade (w : Answers) : nat :=
  if failed (onStdinPipe w) then 1%nat
  else if failed (onStdoutPipe w) then 2%nat
  else if failed (onStderrPipe w) then 3%nat
  else if failed (onStart w) then 4%nat
  else if failed (onClose w hStdin) then 6%nat
  else if failed (snd (onReadAll w hStdout)) then 7%nat
  else if failed (snd (onReadAll w hStderr)) then 8%nat
  else 9%nat.

(** The invocation gets as far as [Read]: the pipes were had, the child
    started, and the input was closed. *)
Definition reachesRead (w : Answers) : bool :=
  negb (failed (openFailure w)) && negb (failed (onStart w)) &&
  negb (failed (onClose w hStdin)).


(** ** Two processes and one lock file *)

(** The files of [w] as the process [p] sees them, [alive] being what its
    probes answer. *)
Definition seenBy (p : Z) (alive : Z -> option error) (w : World) : World :=
  {| pid := p; files := files w; probe := alive; onWrite := onWrite w |}.

(** ** Decimal text in a lock file *)

(** Decimal digits only. *)
Fixpoint allDigits (s : string) : bool :=
  match s with
  | EmptyString => true
  | String c s' => Json.isDigit c && allDigits s'
  end.

(** The number that the digits [s] write after the digits of [acc]. *)
Fixpoint digitsValue (s : string) (acc : Z) : Z :=
  match s with
  | EmptyString => acc
  | String c s' => digitsValue s' (10 * acc + (byte_val c - 48))
  end.

(** The [int64] nearest to [n]. *)
Definition clampInt64 (n : Z) : Z := Z.max minInt64 (Z.min maxInt64 n).

(** A plus or a minus sign. *)
Definition isSign (c : ascii) : bool := Ascii.eqb c "+" || Ascii.eqb c "-".

(** ** What a JSON text says *)

(** The tests of [Utf8.seqLen] on the bytes after the first, by
    themselves: the second byte in its range, the others continuation
    bytes, [n] bytes in all. *)
Definition secondBytes (lo hi : Z) (n : nat) (rest : string) : nat :=
  match rest with
  | String b1 r1 =>
      if Utf8.between lo hi b1 then
        match n, r1 with
        | 2%nat, _ => 2%nat
        | 3%nat, String b2 _ => if Utf8.isCont b2 then 3%nat else 0%nat
        | 4%nat, String b2 (String b3 _) =>
            if Utf8.isCont b2 && Utf8.isCont b3 then 4%nat else 0%nat
        | _, _ => 0%nat
        end
      else 0%nat
  | EmptyString => 0%nat
  end.

(** What [unquote] makes of the text after a [\\u] escape that wrote the
    surrogate [rr]: the code point of the pair, if a second escape follows
    and completes it, and U+FFFD otherwise. *)
Definition afterSurrogate (rr : Z) (s : string) : option string :=
  match Json.getu4 s with
  | Some (rr1, s') =>
      match Json.decodePair rr rr1 with
      | Some dec => Json.prepend (Json.EncodeRune dec) (Json.unquote s')
      | None => Json.prepend Json.replacement (Json.unquote s)
      end
  | None => Json.prepend Json.replacement (Json.unquote s)
  end.

(** Two JSON trees say the same: the same shape, the same literals for the
    numbers, and strings and keys that denote the same Go strings. *)
Inductive sameJSON : Json.value -> Json.value -> Prop :=
| same_null : sameJSON Json.JNull Json.JNull
| same_bool b : sameJSON (Json.JBool b) (Json.JBool b)
| same_number lit : sameJSON (Json.JNumber lit) (Json.JNumber lit)
| same_string t1 t2 :
    Json.unquote t1 = Json.unquote t2 ->
    sameJSON (Json.JString t1) (Json.JString t2)
| same_array vs1 vs2 :
    Forall2 sameJSON vs1 vs2 ->
    sameJSON (Json.JArray vs1) (Json.JArray vs2)
| same_object ms1 ms2 :
    Forall2 (fun m1 m2 => Json.unquote (fst m1) = Json.unquote (fst m2) /\
                          sameJSON (snd m1) (snd m2)) ms1 ms2 ->
    sameJSON (Json.JObject ms1) (Json.JObject ms2).

(** None of the bytes of [s] is [<], [>] or [&]. *)
Fixpoint htmlFree (s : string) : bool :=
  match s with
  | EmptyString => true
  | String c s' => negb (isHTML c) && htmlFree s'
  end.

(** A tree whose strings, keys and numbers are free of those bytes. *)
Fixpoint clean (v : Json.value) : Prop :=
  match v with
  | Json.JNumber lit => htmlFree lit = true
  | Json.JString tok => htmlFree tok = true
  | Json.JArray vs =>
      (fix all (l : list Json.value) : Prop :=
         match l with
         | [] => True
         | x :: l' => clean x /\ all l'
         end) vs
  | Json.JObject ms =>
      (fix all (l : list (string * Json.value)) : Prop :=
         match l with
         | [] => True
         | (k, x) :: l' => (htmlFree k = true /\ clean x) /\ all l'
         end) ms
  | _ => True
  end.

(** The JSON text of the object with the one member [msg], whose string
    has a [<] in it. *)
Definition lessThan : string :=
  "{" +:+ Json.quoted "msg" +:+ ": " +:+ Json.quoted "a<b" +:+ "}".

(* ===================================================================== *)
(** * Decimal text *)
(* ===================================================================== *)

Example ParseInt_plain : Strconv.ParseInt "4711" = (4711, None).
Proof. reflexivity. Qed.

Example ParseInt_newline :
  Strconv.ParseInt ("4711" +:+ String (ascii_of_nat 10) "") = (0, Some Strconv.ErrSyntax).
Proof. reflexivity. Qed.

Example ParseInt_max : Strconv.ParseInt "9223372036854775807" = (maxInt64, None).
Proof. reflexivity. Qed.

Example ParseInt_over :
  Strconv.ParseInt "9223372036854775808" = (maxInt64, Some Strconv.ErrRange).
Proof. reflexivity. Qed.

Example ParseInt_min : Strconv.ParseInt "-9223372036854775808" = (minInt64, None).
Proof. reflexivity. Qed.

Example ParseInt_huge :
  Strconv.ParseInt "99999999999999999999x" = (maxInt64, Some Strconv.ErrRange).
Proof. reflexivity. Qed.

Example Sprintf_negative : Sprintf "pid %d." (-120) = "pid -120.".
Proof. reflexivity. Qed.

Lemma uval_of_uint_acc (d : Decimal.uint) (p : positive) :
  Z.pos (Pos.of_uint_acc d p) = uval d (Z.pos p).
Proof.
  revert p. induction d; intros p; simpl; try reflexivity; rewrite IHd; f_equal; lia.
Qed.

Lemma uval_of_uint (d : Decimal.uint) : Z.of_N (Pos.of_uint d) = uval d 0.
Proof.
  induction d; simpl; try reflexivity; try exact IHd; apply uval_of_uint_acc.
Qed.

Lemma uval_ge (d : Decimal.uint) (acc : Z) : 0 <= acc -> acc <= uval d acc.
Proof.
  revert acc. induction d; intros acc Hacc; simpl; try lia;
    match goal with
    | |- _ <= uval _ ?a => specialize (IHd a); lia
    end.
Qed.

Lemma parseDigits_step (c : ascii) (s : string) (n k : Z) :
  byte_val c = 48 + k -> 0 <= k <= 9 -> 0 <= n -> 10 * n + k <= maxUint64 ->
  Strconv.parseDigits (String c s) n = Strconv.parseDigits s (10 * n + k).
Proof.
  unfold maxUint64. intros Hc Hk Hn Hmax. cbn [Strconv.parseDigits].
  change (byte_val "0") with 48. change (byte_val "9") with 57. unfold maxUint64.
  rewrite Hc.
  replace ((48 <=? 48 + k) && (48 + k <=? 57)) with true
    by (symmetry; apply andb_true_iff; split; apply Z.leb_le; lia).
  replace ((2 ^ 64 - 1) `div` 10 + 1 <=? n) with false
    by (symmetry; apply Z.leb_gt; change ((2 ^ 64 - 1) `div` 10) with 1844674407370955161; lia).
  replace (n * 10 + (48 + k - 48)) with (10 * n + k) by lia.
  rewrite Z.mod_small by lia.
  replace ((10 * n + k <? n * 10) || (2 ^ 64 - 1 <? 10 * n + k)) with false
    by (symmetry; apply orb_false_iff; split; apply Z.ltb_ge; lia).
  reflexivity.
Qed.

Lemma parseDigits_uint (d : Decimal.uint) (n : Z) :
  0 <= n -> uval d n <= maxUint64 ->
  Strconv.parseDigits (NilEmpty.string_of_uint d) n = (uval d n, None).
Proof.
  revert n.
  induction d; intros n Hn Hmax; [reflexivity|..]; cbn [uval] in *;
    match type of Hmax with
    | uval _ (10 * n) <= _ =>
        pose proof (uval_ge d (10 * n) ltac:(lia)) as Hge;
        cbn [NilEmpty.string_of_uint];
        rewrite (parseDigits_step _ _ n 0) by (try reflexivity; lia);
        rewrite Z.add_0_r; apply IHd; [lia | exact Hmax]
    | uval _ (10 * n + ?k) <= _ =>
        pose proof (uval_ge d (10 * n + k) ltac:(lia)) as Hge;
        cbn [NilEmpty.string_of_uint];
        rewrite (parseDigits_step _ _ n k) by (try reflexivity; lia);
        apply IHd; [lia | exact Hmax]
    end.
Qed.

Lemma string_of_uint_nonnil (d : Decimal.uint) :
  d <> Decimal.Nil -> NilZero.string_of_uint d = NilEmpty.string_of_uint d.
Proof. by destruct d. Qed.

(** The decimal text of a PID reads back as that PID. *)
Lemma ParseInt_FormatInt (n : Z) :
  is_int64 n -> Strconv.ParseInt (Strconv.FormatInt n) = (n, None).
Proof.
  unfold is_int64, minInt64, maxInt64, Strconv.FormatInt. intros Hn.
  destruct n as [|p|p]; [reflexivity|..]; cbn [Z.to_int NilZero.string_of_int].
  - rewrite string_of_uint_nonnil by apply Unsigned.to_uint_nonnil.
    pose proof (DecimalPos.Unsigned.of_to p) as Hval.
    apply (f_equal Z.of_N) in Hval. rewrite uval_of_uint in Hval. simpl in Hval.
    pose proof (parseDigits_uint (Pos.to_uint p) 0 ltac:(lia)
                  ltac:(rewrite Hval; unfold maxUint64; lia)) as Hparse.
    rewrite Hval in Hparse.
    pose proof (Unsigned.to_uint_nonnil p) as Hnil.
    destruct (Pos.to_uint p) eqn:Hd; [congruence|..];
      cbn [NilEmpty.string_of_uint] in *; unfold Strconv.ParseInt;
      cbn [Ascii.eqb Bool.eqb orb andb negb]; unfold Strconv.ParseUint; rewrite Hparse;
      replace (2 ^ 63 <=? Z.pos p) with false by (symmetry; apply Z.leb_gt; lia);
      reflexivity.
  - rewrite string_of_uint_nonnil by apply Unsigned.to_uint_nonnil.
    pose proof (DecimalPos.Unsigned.of_to p) as Hval.
    apply (f_equal Z.of_N) in Hval. rewrite uval_of_uint in Hval. simpl in Hval.
    pose proof (parseDigits_uint (Pos.to_uint p) 0 ltac:(lia)
                  ltac:(rewrite Hval; unfold maxUint64; lia)) as Hparse.
    rewrite Hval in Hparse.
    pose proof (Unsigned.to_uint_nonnil p) as Hnil.
    unfold Strconv.ParseInt. cbn [Ascii.eqb Bool.eqb orb andb negb].
    destruct (Pos.to_uint p) eqn:Hd; [congruence|..];
      cbn [NilEmpty.string_of_uint] in *; unfold Strconv.ParseUint; rewrite Hparse;
      replace (2 ^ 63 <? Z.pos p) with false by (symmetry; apply Z.ltb_ge; lia);
      reflexivity.
Qed.

(* ===================================================================== *)
(** * Strings in JSON *)
(* ===================================================================== *)

Lemma append_cons (a : ascii) (s t : string) : String a s +:+ t = String a (s +:+ t).
Proof. reflexivity. Qed.

Lemma append_assoc (s t u : string) : (s +:+ t) +:+ u = s +:+ (t +:+ u).
Proof.
  induction s as [|a s IH]; [reflexivity|].
  by rewrite !append_cons, IH.
Qed.

(** Strong induction on the length of a string: the encoder takes up to four
    bytes at a time. *)
Lemma string_length_ind (P : string -> Prop) :
  (forall s, (forall t, (String.length t < String.length s)%nat -> P t) -> P s) ->
  forall s, P s.
Proof.
  intros Hstep s.
  assert (Hall : forall n t, (String.length t < n)%nat -> P t).
  { induction n as [|n IH]; intros t Hlen; [lia|].
    apply Hstep. intros t' Hlen'. apply IH. lia. }
  apply (Hall (S (String.length s))). lia.
Qed.

Lemma between_ge (lo hi : Z) (c : ascii) :
  Utf8.between lo hi c = true -> lo <= byte_val c.
Proof. unfold Utf8.between. intros [H _]%andb_true_iff. by apply Z.leb_le. Qed.

(** Splits on the first byte of a sequence as [seqLen] does. *)
Ltac seqLen_first b0 :=
  unfold Utf8.seqLen;
  destruct (byte_val b0 <? 194), (byte_val b0 <=? 223), (byte_val b0 =? 224),
    (byte_val b0 <=? 236), (byte_val b0 =? 237), (byte_val b0 <=? 239),
    (byte_val b0 =? 240), (byte_val b0 <=? 243), (byte_val b0 =? 244).

(** Splits on the tests of the bytes that follow. *)
Ltac seqLen_next :=
  repeat match goal with
         | |- context [if Utf8.between ?lo ?hi ?b then _ else _] =>
             let H := fresh "Hb" in
             destruct (Utf8.between lo hi b) eqn:H;
             [apply between_ge in H|]
         | |- context [Utf8.isCont ?b] =>
             let H := fresh "Hb" in
             destruct (Utf8.isCont b) eqn:H;
             [apply between_ge in H|]
         end; simpl.

Lemma seqLen_2 (b0 b1 : ascii) (r : string) :
  Utf8.seqLen b0 (String b1 r) = 2%nat ->
  128 <= byte_val b1 /\ forall r', Utf8.seqLen b0 (String b1 r') = 2%nat.
Proof.
  seqLen_first b0; try discriminate; seqLen_next; try discriminate;
    intros H;
    first [ split; [lia | intros r'; reflexivity]
          | exfalso; destruct r as [|b2 [|b3 r]]; revert H; seqLen_next; discriminate ].
Qed.

Lemma seqLen_3 (b0 b1 b2 : ascii) (r : string) :
  Utf8.seqLen b0 (String b1 (String b2 r)) = 3%nat ->
  128 <= byte_val b1 /\ 128 <= byte_val b2 /\
  forall r', Utf8.seqLen b0 (String b1 (String b2 r')) = 3%nat.
Proof.
  seqLen_first b0; try discriminate; seqLen_next; try discriminate;
    intros H;
    first [ split; [lia | split; [lia | intros r'; reflexivity]]
          | exfalso; destruct r as [|b3 r]; revert H; seqLen_next; discriminate ].
Qed.

Lemma seqLen_4 (b0 b1 b2 b3 : ascii) (r : string) :
  Utf8.seqLen b0 (String b1 (String b2 (String b3 r))) = 4%nat ->
  128 <= byte_val b1 /\ 128 <= byte_val b2 /\ 128 <= byte_val b3 /\
  forall r', Utf8.seqLen b0 (String b1 (String b2 (String b3 r'))) = 4%nat.
Proof.
  seqLen_first b0; try discriminate; seqLen_next; try discriminate; intros H.
  all: repeat (split; [lia|]); intros r'; reflexivity.
Qed.

(** A byte of at least [0x80] inside a string is passed on as it is. *)
Lemma lexString_high (c : ascii) (s : string) :
  128 <= byte_val c ->
  Json.lexString (String c s) = Json.consTok (String c EmptyString) (Json.lexString s).
Proof.
  intros Hc. cbn [Json.lexString].
  destruct (Ascii.eqb_spec c Json.quote) as [->|_]; [vm_compute in Hc; by destruct Hc|].
  destruct (Ascii.eqb_spec c Json.backslash) as [->|_]; [vm_compute in Hc; by destruct Hc|].
  destruct (Z.ltb_spec (byte_val c) 32); [lia | reflexivity].
Qed.

(** What the encoder writes for a byte below [0x80] is passed on as it is. *)
Lemma lexString_encodeByte (c : ascii) (s : string) :
  byte_val c < 128 ->
  Json.lexString (Json.encodeByte c +:+ s) = Json.consTok (Json.encodeByte c) (Json.lexString s).
Proof.
  destruct c as [[] [] [] [] [] [] [] []]; intros Hc;
    first [ reflexivity | vm_compute in Hc; discriminate Hc ].
Qed.

Lemma lexString_u202 (b2 : ascii) (s : string) :
  (byte_val b2 =? 168) || (byte_val b2 =? 169) = true ->
  Json.lexString (Json.u202 b2 +:+ s) = Json.consTok (Json.u202 b2) (Json.lexString s).
Proof.
  destruct b2 as [[] [] [] [] [] [] [] []]; intros Hc;
    first [ reflexivity | vm_compute in Hc; discriminate Hc ].
Qed.

Lemma consTok_append (pre tok rest : string) (r : option (string * string)) :
  r = Some (tok, rest) -> Json.consTok pre r = Some (pre +:+ tok, rest).
Proof. by intros ->. Qed.

Lemma isLineSep_third (b0 b1 b2 : ascii) :
  Json.isLineSep b0 b1 b2 = true -> (byte_val b2 =? 168) || (byte_val b2 =? 169) = true.
Proof. unfold Json.isLineSep. by intros [_ H]%andb_true_iff. Qed.

(** The scanner reads back the encoding of a Go string up to the closing
    Json.quote: exactly the token the encoder wrote. *)
Lemma lexString_encodeString (s rest : string) :
  Json.lexString (Json.encodeString s +:+ String Json.quote rest) = Some (Json.encodeString s, rest).
Proof.
  induction s as [s IH] using string_length_ind.
  destruct s as [|b0 r0]; [reflexivity|].
  cbn [Json.encodeString].
  destruct (Z.ltb_spec (byte_val b0) 128) as [Hlow|Hhigh].
  { rewrite append_assoc, lexString_encodeByte by exact Hlow.
    apply consTok_append, IH. simpl. lia. }
  assert (Hbad : Json.lexString ((String Json.backslash "ufffd" +:+ Json.encodeString r0) +:+
                              String Json.quote rest) =
                 Some (String Json.backslash "ufffd" +:+ Json.encodeString r0, rest)).
  { rewrite append_assoc.
    change (Json.lexString (String Json.backslash "ufffd" +:+ ?t)) with
      (Json.consTok (String Json.backslash "ufffd") (Json.lexString t)).
    apply consTok_append, IH. simpl. lia. }
  destruct (Utf8.seqLen b0 r0) as [|[|[|[|[|n]]]]] eqn:Hlen; try exact Hbad.
  - destruct r0 as [|b1 r1]; [exact Hbad|].
    destruct (seqLen_2 _ _ _ Hlen) as (H1 & _).
    rewrite !append_cons, !lexString_high by lia.
    rewrite (IH r1) by (simpl; lia). reflexivity.
  - destruct r0 as [|b1 [|b2 r2]]; try exact Hbad.
    destruct (seqLen_3 _ _ _ _ Hlen) as (H1 & H2 & _).
    destruct (Json.isLineSep b0 b1 b2) eqn:Hsep.
    + rewrite append_assoc, lexString_u202 by (by apply (isLineSep_third b0 b1)).
      apply consTok_append, IH. simpl. lia.
    + rewrite !append_cons, !lexString_high by lia.
      rewrite (IH r2) by (simpl; lia). reflexivity.
  - destruct r0 as [|b1 [|b2 [|b3 r3]]]; try exact Hbad.
    destruct (seqLen_4 _ _ _ _ _ Hlen) as (H1 & H2 & H3 & _).
    rewrite !append_cons, !lexString_high by lia.
    rewrite (IH r3) by (simpl; lia). reflexivity.
Qed.

Lemma byte_val_inv (c : ascii) (n : N) : byte_val c = Z.of_N n -> c = ascii_of_N n.
Proof.
  unfold byte_val. intros H%N2Z.inj. by rewrite <- H, ascii_N_embedding.
Qed.

Lemma unquote_encodeByte (c : ascii) (s : string) :
  byte_val c < 128 ->
  Json.unquote (Json.encodeByte c +:+ s) = Json.prepend (String c EmptyString) (Json.unquote s).
Proof.
  destruct c as [[] [] [] [] [] [] [] []]; intros Hc;
    first [ reflexivity | vm_compute in Hc; discriminate Hc ].
Qed.

Lemma unquote_high (c : ascii) (s : string) :
  128 <= byte_val c ->
  Json.unquote (String c s) =
    match Utf8.seqLen c s, s with
    | 2%nat, String b1 r1 => Json.prepend (String c (String b1 EmptyString)) (Json.unquote r1)
    | 3%nat, String b1 (String b2 r2) =>
        Json.prepend (String c (String b1 (String b2 EmptyString))) (Json.unquote r2)
    | 4%nat, String b1 (String b2 (String b3 r3)) =>
        Json.prepend (String c (String b1 (String b2 (String b3 EmptyString)))) (Json.unquote r3)
    | _, _ => Json.prepend Json.replacement (Json.unquote s)
    end.
Proof.
  intros Hc. cbn [Json.unquote].
  destruct (Ascii.eqb_spec c Json.backslash) as [->|_]; [vm_compute in Hc; by destruct Hc|].
  destruct (Ascii.eqb_spec c Json.quote) as [->|_]; [vm_compute in Hc; by destruct Hc|].
  destruct (Z.ltb_spec (byte_val c) 32); [lia|].
  destruct (Z.ltb_spec (byte_val c) 128); [lia|]. reflexivity.
Qed.

Lemma unquote_u202 (b0 b1 b2 : ascii) (s : string) :
  Json.isLineSep b0 b1 b2 = true ->
  Json.unquote (Json.u202 b2 +:+ s) =
    Json.prepend (String b0 (String b1 (String b2 EmptyString))) (Json.unquote s).
Proof.
  unfold Json.isLineSep.
  intros [[H0%Z.eqb_eq H1%Z.eqb_eq]%andb_true_iff H2%orb_true_iff]%andb_true_iff.
  apply (byte_val_inv b0 226) in H0 as ->. apply (byte_val_inv b1 128) in H1 as ->.
  destruct H2 as [H2%Z.eqb_eq|H2%Z.eqb_eq];
    [apply (byte_val_inv b2 168) in H2 as -> | apply (byte_val_inv b2 169) in H2 as ->];
    reflexivity.
Qed.

Lemma prepend_Some (pre s : string) (r : option string) :
  r = Some s -> Json.prepend pre r = Some (pre +:+ s).
Proof. by intros ->. Qed.

(** Decoding the encoding of a Go string gives the string back, up to the
    bytes that are not UTF-8, which come back as U+FFFD. *)
Lemma unquote_encodeString (s : string) :
  Json.unquote (Json.encodeString s) = Some (Json.coerceUTF8 s).
Proof.
  induction s as [s IH] using string_length_ind.
  destruct s as [|b0 r0]; [reflexivity|].
  cbn [Json.encodeString Json.coerceUTF8].
  destruct (Z.ltb_spec (byte_val b0) 128) as [Hlow|Hhigh].
  { rewrite unquote_encodeByte by exact Hlow.
    apply (prepend_Some (String b0 EmptyString)), IH. simpl. lia. }
  assert (Hbad : Json.unquote (String Json.backslash "ufffd" +:+ Json.encodeString r0) =
                 Some (Json.replacement +:+ Json.coerceUTF8 r0)).
  { change (Json.unquote (String Json.backslash "ufffd" +:+ ?t)) with
      (Json.prepend Json.replacement (Json.unquote t)).
    apply prepend_Some, IH. simpl. lia. }
  destruct (Utf8.seqLen b0 r0) as [|[|[|[|[|n]]]]] eqn:Hlen; try exact Hbad.
  - destruct r0 as [|b1 r1]; [exact Hbad|].
    destruct (seqLen_2 _ _ _ Hlen) as (H1 & Hext).
    rewrite unquote_high, Hext by lia.
    apply (prepend_Some (String b0 (String b1 EmptyString))), IH. simpl. lia.
  - destruct r0 as [|b1 [|b2 r2]]; try exact Hbad.
    destruct (seqLen_3 _ _ _ _ Hlen) as (H1 & H2 & Hext).
    destruct (Json.isLineSep b0 b1 b2) eqn:Hsep.
    + rewrite (unquote_u202 b0 b1) by exact Hsep.
      apply (prepend_Some (String b0 (String b1 (String b2 EmptyString)))), IH.
      simpl. lia.
    + rewrite unquote_high, Hext by lia.
      apply (prepend_Some (String b0 (String b1 (String b2 EmptyString)))), IH.
      simpl. lia.
  - destruct r0 as [|b1 [|b2 [|b3 r3]]]; try exact Hbad.
    destruct (seqLen_4 _ _ _ _ _ Hlen) as (H1 & H2 & H3 & Hext).
    rewrite unquote_high, Hext by lia.
    apply (prepend_Some (String b0 (String b1 (String b2 (String b3 EmptyString))))), IH.
    simpl. lia.
Qed.

Lemma coerceUTF8_nonempty (s : string) : s <> EmptyString -> Json.coerceUTF8 s <> EmptyString.
Proof.
  destruct s as [|b0 r0]; [congruence|]. intros _. cbn [Json.coerceUTF8].
  destruct (byte_val b0 <? 128); [discriminate|].
  destruct (Utf8.seqLen b0 r0) as [|[|[|[|[|n]]]]]; try discriminate;
    destruct r0 as [|b1 [|b2 [|b3 r3]]]; discriminate.
Qed.

Lemma coerceUTF8_ASCII (s : string) : isASCII s = true -> Json.coerceUTF8 s = s.
Proof.
  induction s as [|c s IH]; [reflexivity|]. cbn [isASCII Json.coerceUTF8].
  intros [-> Hs]%andb_true_iff. by rewrite IH.
Qed.

Lemma append_nil_l (s : string) : EmptyString +:+ s = s.
Proof. reflexivity. Qed.

Lemma length_append (s t : string) :
  String.length (s +:+ t) = (String.length s + String.length t)%nat.
Proof.
  induction s as [|a s IH]; [reflexivity|].
  rewrite append_cons. simpl. by rewrite IH.
Qed.

Lemma append_empty_r (s : string) : s +:+ EmptyString = s.
Proof.
  induction s as [|a s IH]; [reflexivity|].
  change (String a s +:+ EmptyString) with (String a (s +:+ EmptyString)).
  by rewrite IH.
Qed.

(* ===================================================================== *)
(** * Reading back what [Indent] writes *)
(* ===================================================================== *)

(** ** Numbers *)

Lemma follows_stops (p : ascii -> bool) (rest : string) :
  p ","%char = false -> p Json.LF = false -> follows rest -> stops p rest.
Proof. destruct rest as [|c r]; [done|]. simpl. by intros ? ? [->| ->]. Qed.

Lemma lexDigits_stop (s : string) :
  stops Json.isDigit s -> Json.lexDigits s = (EmptyString, s).
Proof. destruct s as [|c r]; [done|]. simpl. by intros ->. Qed.

Lemma lexDigits_relex (s ds r rest : string) :
  Json.lexDigits s = (ds, r) -> stops Json.isDigit rest ->
  Json.lexDigits (ds +:+ rest) = (ds, rest).
Proof.
  revert ds r. induction s as [|c s IH]; intros ds r; cbn [Json.lexDigits].
  - intros [= <- <-] Hrest. by apply lexDigits_stop.
  - destruct (Json.isDigit c) eqn:Hc.
    + destruct (Json.lexDigits s) as [ds' r'] eqn:Hs. intros [= <- <-] Hrest.
      rewrite append_cons. cbn [Json.lexDigits]. rewrite Hc.
      by rewrite (IH ds' r' eq_refl Hrest).
    + intros [= <- <-] Hrest. by apply lexDigits_stop.
Qed.

(** The digits that [lexDigits] takes start with a digit, if there are any. *)
Lemma lexDigits_head (s ds r : string) :
  Json.lexDigits s = (ds, r) ->
  match ds with
  | EmptyString => True
  | String d _ => Json.isDigit d = true
  end.
Proof.
  destruct s as [|c s]; cbn [Json.lexDigits]; [by intros [= <- <-]|].
  destruct (Json.isDigit c) eqn:Hc; [|by intros [= <- <-]].
  destruct (Json.lexDigits s). by intros [= <- <-].
Qed.

Lemma isDigit_not (c : ascii) (p : ascii -> bool) :
  Json.isDigit c = true ->
  (forall d, In d ["0"; "1"; "2"; "3"; "4"; "5"; "6"; "7"; "8"; "9"]%char -> p d = false) ->
  p c = false.
Proof.
  intros Hc Hp. apply Hp.
  destruct c as [[] [] [] [] [] [] [] []]; try (vm_compute in Hc; discriminate Hc);
    simpl; tauto.
Qed.

Lemma lexInt_relex (s int r rest : string) :
  Json.lexInt s = Some (int, r) -> stops Json.isDigit rest ->
  Json.lexInt (int +:+ rest) = Some (int, rest) /\
  exists c l, int = String c l /\ Json.isDigit c = true.
Proof.
  destruct s as [|c s]; cbn [Json.lexInt]; [discriminate|].
  destruct (Json.isDigit c) eqn:Hc; [|discriminate].
  destruct (Ascii.eqb c "0") eqn:Hzero.
  - intros [= <- <-] Hrest. split; [|eauto].
    rewrite append_cons, append_nil_l. cbn [Json.lexInt]. by rewrite Hc, Hzero.
  - destruct (Json.lexDigits s) as [ds r'] eqn:Hs. intros [= <- <-] Hrest.
    split; [|eauto].
    rewrite append_cons. cbn [Json.lexInt]. rewrite Hc, Hzero.
    by rewrite (lexDigits_relex _ _ _ _ Hs Hrest).
Qed.

Lemma lexFrac_relex (s fr r rest : string) :
  Json.lexFrac s = Some (fr, r) -> stops Json.isDigit rest -> stops isPoint rest ->
  Json.lexFrac (fr +:+ rest) = Some (fr, rest) /\
  stops Json.isDigit (fr +:+ rest).
Proof.
  assert (Hnone : forall rest, stops isPoint rest ->
                    Json.lexFrac rest = Some (EmptyString, rest)).
  { intros [|c t]; [done|]. unfold isPoint. simpl. by intros ->. }
  destruct s as [|p s]; cbn [Json.lexFrac].
  - intros [= <- <-] Hd Hp. split; [by apply Hnone | exact Hd].
  - destruct (Ascii.eqb_spec p ".") as [->|Hp'].
    + destruct (Json.lexDigits s) as [ds r'] eqn:Hs.
      destruct ds as [|d ds]; [discriminate|]. intros [= <- <-] Hd Hp.
      split; [|reflexivity].
      rewrite append_cons. cbn [Json.lexFrac Ascii.eqb Bool.eqb].
      by rewrite (lexDigits_relex _ _ _ _ Hs Hd).
    + intros [= <- <-] Hd Hp. split; [by apply Hnone | exact Hd].
Qed.

Lemma lexExp_relex (s ex r rest : string) :
  Json.lexExp s = Some (ex, r) -> stops Json.isDigit rest -> stops isExpMark rest ->
  Json.lexExp (ex +:+ rest) = Some (ex, rest) /\
  (stops isPoint rest -> stops isPoint (ex +:+ rest)) /\
  stops Json.isDigit (ex +:+ rest).
Proof.
  assert (Hnone : forall rest, stops isExpMark rest ->
                    Json.lexExp rest = Some (EmptyString, rest)).
  { intros [|c t]; [done|]. unfold isExpMark. simpl. by intros ->. }
  destruct s as [|e s]; cbn [Json.lexExp].
  - intros [= <- <-] Hd He. split; [by apply Hnone | by split].
  - destruct (Ascii.eqb e "e" || Ascii.eqb e "E") eqn:Hmark.
    + destruct (match s with
                | EmptyString => (EmptyString, s)
                | String g r1 =>
                    if Ascii.eqb g "+" || Ascii.eqb g "-"
                    then (String g EmptyString, r1) else (EmptyString, s)
                end) as [sg r1] eqn:Hsign.
      destruct (Json.lexDigits r1) as [ds r2] eqn:Hs.
      destruct ds as [|d ds]; [discriminate|]. intros [= <- <-] Hd He.
      pose proof (lexDigits_head _ _ _ Hs) as Hdigit. simpl in Hdigit.
      assert (Hshape : isPoint e = false /\ Json.isDigit e = false).
      { apply orb_true_iff in Hmark as [->%Ascii.eqb_eq| ->%Ascii.eqb_eq]; by split. }
      split; [|by split; [intros _; apply Hshape | apply Hshape]].
      rewrite append_cons, append_assoc. cbn [Json.lexExp]. rewrite Hmark.
      destruct s as [|g s'].
      * injection Hsign as <- <-. simpl in Hs. discriminate.
      * destruct (Ascii.eqb g "+" || Ascii.eqb g "-") eqn:Hg; injection Hsign as <- <-.
        -- rewrite append_cons, append_nil_l, Hg.
           by rewrite (lexDigits_relex _ _ _ _ Hs Hd).
        -- rewrite append_nil_l, append_cons.
           rewrite (isDigit_not d (fun c => Ascii.eqb c "+" || Ascii.eqb c "-") Hdigit)
             by (simpl; intuition (subst; reflexivity)).
           rewrite <- append_cons. by rewrite (lexDigits_relex _ _ _ _ Hs Hd).
    + intros [= <- <-] Hd He. split; [by apply Hnone | by split].
Qed.

Lemma lexNumber_numOK (s lit r : string) :
  Json.lexNumber s = Some (lit, r) -> numOK lit.
Proof.
  unfold Json.lexNumber.
  destruct (Json.lexSign s) as [sg s1] eqn:Hsign.
  destruct (Json.lexInt s1) as [[int s2]|] eqn:Hint; [|discriminate].
  destruct (Json.lexFrac s2) as [[fr s3]|] eqn:Hfrac; [|discriminate].
  destruct (Json.lexExp s3) as [[ex s4]|] eqn:Hexp; [|discriminate].
  intros [= <- <-].
  assert (Hsg : sg = EmptyString \/ sg = "-").
  { unfold Json.lexSign in Hsign. destruct s as [|c s]; [injection Hsign as <- _; auto|].
    destruct (Ascii.eqb_spec c "-") as [->|_]; injection Hsign as <- _; auto. }
  destruct (lexInt_relex _ _ _ EmptyString Hint I) as (_ & c & l & -> & Hc).
  split.
  - destruct Hsg as [-> | ->]; [exists c | exists "-"%char]; eexists;
      (split; [by rewrite ?append_cons, ?append_nil_l|]); auto.
  - intros rest Hrest.
    destruct (lexExp_relex _ _ _ rest Hexp) as (Hex & Hpoint & Hdigit);
      [by apply follows_stops | by apply follows_stops|].
    destruct (lexFrac_relex _ _ _ (ex +:+ rest) Hfrac Hdigit) as (Hfr & Hdigit');
      [by apply Hpoint, follows_stops|].
    destruct (lexInt_relex _ _ _ (fr +:+ ex +:+ rest) Hint Hdigit') as (Hin & _).
    rewrite !append_assoc.
    assert (Hs : Json.lexSign (sg +:+ String c l +:+ fr +:+ ex +:+ rest) =
                 (sg, String c l +:+ fr +:+ ex +:+ rest)).
    { destruct Hsg as [-> | ->]; [|reflexivity].
      rewrite append_nil_l, append_cons. unfold Json.lexSign.
      by rewrite (isDigit_not c (fun c => Ascii.eqb c "-") Hc)
        by (simpl; intuition (subst; reflexivity)). }
    unfold Json.lexNumber. by rewrite Hs, Hin, Hfr, Hex.
Qed.

(** ** Strings *)

Lemma consTok_inv (pre tok rest : string) (r : option (string * string)) :
  Json.consTok pre r = Some (tok, rest) ->
  exists tok', r = Some (tok', rest) /\ tok = pre +:+ tok'.
Proof. destruct r as [[tok' rest']|]; [|discriminate]. intros [= <- <-]. eauto. Qed.

(** What the scanner takes for a string is a token. *)
Lemma lexString_Token (s tok r : string) :
  Json.lexString s = Some (tok, r) -> Token tok.
Proof.
  revert tok r. induction s as [s IH] using string_length_ind. intros tok r.
  destruct s as [|c s]; [discriminate|]. cbn [Json.lexString].
  destruct (Ascii.eqb c Json.quote) eqn:Hq; [intros [= <- <-]; constructor|].
  destruct (Ascii.eqb c Json.backslash) eqn:Hb.
  - apply Ascii.eqb_eq in Hb as ->.
    destruct s as [|e s2]; [discriminate|].
    destruct (Json.isEscape e) eqn:He.
    + intros (tok' & Htok & ->)%consTok_inv.
      apply Token_escape; [exact He|]. apply (IH s2 ltac:(simpl; lia) _ _ Htok).
    + destruct (Ascii.eqb_spec e "u") as [->|_]; [|discriminate].
      destruct s2 as [|h1 [|h2 [|h3 [|h4 s6]]]]; try discriminate.
      destruct (Json.isHex h1 && Json.isHex h2 && Json.isHex h3 && Json.isHex h4) eqn:Hh;
        [|discriminate].
      intros (tok' & Htok & ->)%consTok_inv.
      apply Token_u; [exact Hh|]. apply (IH s6 ltac:(simpl; lia) _ _ Htok).
  - destruct (byte_val c <? 32) eqn:Hc; [discriminate|].
    intros (tok' & Htok & ->)%consTok_inv.
    apply Token_byte; try assumption. apply (IH s ltac:(simpl; lia) _ _ Htok).
Qed.

(** The scanner takes a token whole, up to the quote that closes it. *)
Lemma Token_lexString (tok rest : string) :
  Token tok -> Json.lexString (tok +:+ String Json.quote rest) = Some (tok, rest).
Proof.
  induction 1 as [|c t Hq Hb Hc _ IH|e t He _ IH|h1 h2 h3 h4 t Hh _ IH].
  - reflexivity.
  - rewrite append_cons. cbn [Json.lexString]. by rewrite Hq, Hb, Hc, IH.
  - rewrite !append_cons. cbn [Json.lexString]. by rewrite He, IH.
  - rewrite !append_cons. cbn [Json.lexString].
    assert (Json.isEscape "u" = false) as -> by reflexivity.
    by rewrite Hh, IH.
Qed.

Lemma Token_encodeString (s : string) : Token (Json.encodeString s).
Proof. exact (lexString_Token _ _ _ (lexString_encodeString s EmptyString)). Qed.

Lemma escapeHTML_keep (c : ascii) (t : string) :
  isHTML c = false -> byte_val c <> 226 ->
  Json.escapeHTML (String c t) = String c (Json.escapeHTML t).
Proof.
  unfold isHTML. intros Hc Hsep. cbn [Json.escapeHTML]. rewrite Hc.
  destruct t as [|b1 [|b2 t2]]; try reflexivity.
  unfold Json.isLineSep. by destruct (Z.eqb_spec (byte_val c) 226).
Qed.

Lemma isEscape_keep (e : ascii) :
  Json.isEscape e = true -> isHTML e = false /\ byte_val e <> 226.
Proof.
  destruct e as [[] [] [] [] [] [] [] []]; intros He;
    first [ vm_compute in He; discriminate He | by split ].
Qed.

Lemma isHex_keep (h : ascii) :
  Json.isHex h = true -> isHTML h = false /\ byte_val h <> 226.
Proof.
  destruct h as [[] [] [] [] [] [] [] []]; intros Hh;
    first [ vm_compute in Hh; discriminate Hh | by split ].
Qed.

Lemma Token_u00 (c : ascii) (t : string) : Token t -> Token (Json.u00 c +:+ t).
Proof.
  intros Ht. unfold Json.u00. rewrite !append_cons, append_nil_l.
  apply Token_u; [|exact Ht].
  destruct c as [[] [] [] [] [] [] [] []]; reflexivity.
Qed.

Lemma Token_u202 (b2 : ascii) (t : string) :
  (byte_val b2 =? 168) || (byte_val b2 =? 169) = true ->
  Token t -> Token (Json.u202 b2 +:+ t).
Proof.
  intros Hb Ht. unfold Json.u202. rewrite !append_cons, append_nil_l.
  apply Token_u; [|exact Ht].
  destruct b2 as [[] [] [] [] [] [] [] []];
    first [ reflexivity | vm_compute in Hb; discriminate Hb ].
Qed.

(** A byte of at least [0x80] at the head of a token is a byte of its own,
    and a token follows it. *)
Lemma Token_high_inv (c : ascii) (t : string) :
  128 <= byte_val c -> Token (String c t) -> Token t.
Proof.
  intros Hc Htok. inversion Htok; subst; try assumption;
    vm_compute in Hc; by destruct Hc.
Qed.

(** [escapeHTML] turns a token into a token. *)
Lemma Token_escapeHTML (tok : string) : Token tok -> Token (Json.escapeHTML tok).
Proof.
  induction tok as [tok IH] using string_length_ind. intros Htok.
  destruct Htok as [|c t Hq Hb Hc Ht|e t He Ht|h1 h2 h3 h4 t Hh Ht].
  - constructor.
  - cbn [Json.escapeHTML]. fold (isHTML c).
    destruct (isHTML c) eqn:Hhtml; [apply Token_u00, IH; [simpl; lia | exact Ht]|].
    assert (Hkeep : Token (String c (Json.escapeHTML t))).
    { apply Token_byte; try assumption. apply IH; [simpl; lia | exact Ht]. }
    destruct t as [|b1 [|b2 t2]]; try exact Hkeep.
    destruct (Json.isLineSep c b1 b2) eqn:Hsep; [|exact Hkeep].
    apply Token_u202; [by apply (isLineSep_third c b1)|].
    apply IH; [simpl; lia|].
    unfold Json.isLineSep in Hsep.
    apply andb_true_iff in Hsep as [[_ H1%Z.eqb_eq]%andb_true_iff H2%orb_true_iff].
    apply (Token_high_inv b2); [destruct H2 as [?%Z.eqb_eq|?%Z.eqb_eq]; lia|].
    apply (Token_high_inv b1); [lia | exact Ht].
  - assert (Hbs : isHTML Json.backslash = false /\ byte_val Json.backslash <> 226)
      by (by split).
    destruct (isEscape_keep e He) as [He1 He2].
    rewrite !escapeHTML_keep by tauto.
    apply Token_escape; [exact He|]. apply IH; [simpl; lia | exact Ht].
  - assert (Hbs : isHTML Json.backslash = false /\ byte_val Json.backslash <> 226)
      by (by split).
    assert (Hu : isHTML "u" = false /\ byte_val "u" <> 226) by (by split).
    apply andb_true_iff in Hh as Hh'. destruct Hh' as [Hh' H4].
    apply andb_true_iff in Hh' as [Hh' H3]. apply andb_true_iff in Hh' as [H1 H2].
    apply isHex_keep in H1, H2, H3, H4.
    rewrite !escapeHTML_keep by tauto.
    apply Token_u; [exact Hh|]. apply IH; [simpl; lia | exact Ht].
Qed.

(** ** Trees *)

(** Induction on a JSON tree, with the hypothesis for every element of an
    array and every member of an object. *)
Lemma value_induction (P : Json.value -> Prop) :
  P Json.JNull ->
  (forall b, P (Json.JBool b)) ->
  (forall lit, P (Json.JNumber lit)) ->
  (forall tok, P (Json.JString tok)) ->
  (forall vs, Forall P vs -> P (Json.JArray vs)) ->
  (forall ms, Forall (fun m => P (snd m)) ms -> P (Json.JObject ms)) ->
  forall v, P v.
Proof.
  intros Hnull Hbool Hnum Hstr Harr Hobj.
  fix IH 1. intros [| b | lit | tok | vs | ms].
  - exact Hnull.
  - apply Hbool.
  - apply Hnum.
  - apply Hstr.
  - apply Harr. induction vs as [|x vs IHvs]; constructor; [apply IH | exact IHvs].
  - apply Hobj. induction ms as [|[k x] ms IHms]; constructor; [apply IH | exact IHms].
Qed.

Lemma wf_array (vs : list Json.value) : wf (Json.JArray vs) <-> Forall wf vs.
Proof.
  induction vs as [|x vs IH]; [by split; [constructor|]|].
  change (wf (Json.JArray (x :: vs))) with (wf x /\ wf (Json.JArray vs)).
  rewrite Forall_cons, IH. tauto.
Qed.

Lemma wf_object (ms : list (string * Json.value)) :
  wf (Json.JObject ms) <-> Forall (fun m => Token (fst m) /\ wf (snd m)) ms.
Proof.
  induction ms as [|[k x] ms IH]; [by split; [constructor|]|].
  change (wf (Json.JObject ((k, x) :: ms)))
    with ((Token k /\ wf x) /\ wf (Json.JObject ms)).
  rewrite Forall_cons, IH. tauto.
Qed.

(** The trees the scanner builds are well formed. *)
Lemma parse_wf_fuel (fuel : nat) :
  (forall s v r, Json.parseValue fuel s = Some (v, r) -> wf v) /\
  (forall s vs r, Json.parseElements fuel s = Some (vs, r) -> Forall wf vs) /\
  (forall s ms r, Json.parseMembers fuel s = Some (ms, r) ->
     Forall (fun m => Token (fst m) /\ wf (snd m)) ms).
Proof.
  induction fuel as [|fuel (IHv & IHe & IHm)]; [by repeat split|].
  repeat split.
  - intros s v r. cbn [Json.parseValue].
    destruct (Json.skipSpace s) as [|c t]; [discriminate|].
    repeat match goal with
           | |- (if ?b then _ else _) = _ -> _ => destruct b
           | |- match Json.skipSpace ?x with _ => _ end = _ -> _ =>
               destruct (Json.skipSpace x); [discriminate|]
           end.
    + intros [= <- <-]. exact I.
    + destruct (Json.parseMembers fuel t) as [[ms r2]|] eqn:Hms; [|discriminate].
      intros [= <- <-]. apply wf_object. by apply (IHm _ _ _ Hms).
    + intros [= <- <-]. exact I.
    + destruct (Json.parseElements fuel t) as [[vs r2]|] eqn:Hvs; [|discriminate].
      intros [= <- <-]. apply wf_array. by apply (IHe _ _ _ Hvs).
    + destruct (Json.lexString t) as [[tok r']|] eqn:Htok; [|discriminate].
      intros [= <- <-]. by apply (lexString_Token _ _ _ Htok).
    + destruct (Json.lexLiteral "rue" t); [|discriminate]. by intros [= <- <-].
    + destruct (Json.lexLiteral "alse" t); [|discriminate]. by intros [= <- <-].
    + destruct (Json.lexLiteral "ull" t); [|discriminate]. by intros [= <- <-].
    + destruct (Json.lexNumber (String c t)) as [[lit r']|] eqn:Hlit; [|discriminate].
      intros [= <- <-]. by apply (lexNumber_numOK _ _ _ Hlit).
  - intros s vs r. cbn [Json.parseElements].
    destruct (Json.parseValue fuel s) as [[v r1]|] eqn:Hv; [|discriminate].
    destruct (Json.skipSpace r1) as [|c r']; [discriminate|].
    destruct (Ascii.eqb c ","); [|destruct (Ascii.eqb c "]"); [|discriminate]].
    + destruct (Json.parseElements fuel r') as [[vs' r2]|] eqn:Hvs; [|discriminate].
      intros [= <- <-]. constructor; [by apply (IHv _ _ _ Hv) | by apply (IHe _ _ _ Hvs)].
    + intros [= <- <-]. constructor; [by apply (IHv _ _ _ Hv) | constructor].
  - intros s ms r. cbn [Json.parseMembers].
    destruct (Json.skipSpace s) as [|q t]; [discriminate|].
    destruct (Ascii.eqb q Json.quote); [|discriminate].
    destruct (Json.lexString t) as [[key r1]|] eqn:Hkey; [|discriminate].
    destruct (Json.skipSpace r1) as [|c r2]; [discriminate|].
    destruct (Ascii.eqb c ":"); [|discriminate].
    destruct (Json.parseValue fuel r2) as [[v r3]|] eqn:Hv; [|discriminate].
    destruct (Json.skipSpace r3) as [|c' r4]; [discriminate|].
    pose proof (lexString_Token _ _ _ Hkey) as Hk.
    destruct (Ascii.eqb c' ","); [|destruct (Ascii.eqb c' "}"); [|discriminate]].
    + destruct (Json.parseMembers fuel r4) as [[ms' r5]|] eqn:Hms; [|discriminate].
      intros [= <- <-].
      constructor; [split; [exact Hk | by apply (IHv _ _ _ Hv)] | by apply (IHm _ _ _ Hms)].
    + intros [= <- <-].
      constructor; [split; [exact Hk | by apply (IHv _ _ _ Hv)] | constructor].
Qed.

Lemma parse_wf (s : string) (v : Json.value) : Json.parse s = Some v -> wf v.
Proof.
  unfold Json.parse.
  destruct (Json.parseValue _ s) as [[v' r]|] eqn:Hv; [|discriminate].
  destruct (Json.skipSpace r); [|discriminate]. intros [= <-].
  by apply (proj1 (parse_wf_fuel _) _ _ _ Hv).
Qed.

(** [compact] keeps a tree well formed. *)
Lemma compact_wf (v : Json.value) : wf v -> wf (Json.compact v).
Proof.
  induction v as [| b | lit | tok | vs IH | ms IH] using value_induction;
    try (intros H; exact H).
  - apply Token_escapeHTML.
  - cbn [Json.compact]. rewrite !wf_array. intros Hvs.
    induction Hvs as [|x vs Hx Hvs IHvs]; [constructor|].
    apply Forall_cons in IH as [IHx IH]. constructor; [by apply IHx | by apply IHvs].
  - cbn [Json.compact]. rewrite !wf_object. intros Hms.
    induction Hms as [|[k x] ms [Hk Hx] Hms IHms]; [constructor|].
    apply Forall_cons in IH as [IHx IH].
    constructor; [split; [by apply Token_escapeHTML | by apply IHx] | by apply IHms].
Qed.

(** ** The layout *)

Lemma render_array (d : nat) (x : Json.value) (xs : list Json.value) :
  Json.render d (Json.JArray (x :: xs)) =
    "[" +:+ Json.newline (S d) +:+ Json.render (S d) x +:+ renderElems d xs.
Proof.
  cbn [Json.render]. do 3 f_equal.
  induction xs as [|y ys IH]; [reflexivity|]. cbn [renderElems]. by rewrite <- IH.
Qed.

Lemma render_object (d : nat) (k : string) (x : Json.value)
    (ms : list (string * Json.value)) :
  Json.render d (Json.JObject ((k, x) :: ms)) =
    "{" +:+ Json.newline (S d) +:+ Json.quoted k +:+ ": " +:+
    Json.render (S d) x +:+ renderMembers d ms.
Proof.
  cbn [Json.render]. do 5 f_equal.
  induction ms as [|[k' y] ms IH]; [reflexivity|]. cbn [renderMembers]. by rewrite <- IH.
Qed.

Lemma need_array (vs : list Json.value) : need (Json.JArray vs) = S (needElems vs).
Proof. reflexivity. Qed.

Lemma need_object (ms : list (string * Json.value)) :
  need (Json.JObject ms) = S (needMembers ms).
Proof. reflexivity. Qed.

Lemma skipSpace_spaces (d : nat) (s : string) :
  Json.skipSpace (Json.spaces d +:+ s) = Json.skipSpace s.
Proof.
  induction d as [|d IH]; [reflexivity|].
  cbn [Json.spaces]. rewrite append_assoc, !append_cons, append_nil_l.
  cbn [Json.skipSpace]. exact IH.
Qed.

Lemma skipSpace_newline (d : nat) (s : string) :
  Json.skipSpace (Json.newline d +:+ s) = Json.skipSpace s.
Proof.
  unfold Json.newline. rewrite append_cons. cbn [Json.skipSpace].
  change (Json.isSpace Json.LF) with true. cbv iota. apply skipSpace_spaces.
Qed.

Lemma skipSpace_idem (s : string) : Json.skipSpace (Json.skipSpace s) = Json.skipSpace s.
Proof.
  induction s as [|c s IH]; [reflexivity|]. cbn [Json.skipSpace].
  destruct (Json.isSpace c) eqn:Hc; [exact IH|]. cbn [Json.skipSpace]. by rewrite Hc.
Qed.

Lemma skipSpace_keep (c : ascii) (s : string) :
  Json.isSpace c = false -> Json.skipSpace (String c s) = String c s.
Proof. cbn [Json.skipSpace]. by intros ->. Qed.

Lemma skipSpace_quoted (k s : string) :
  Json.skipSpace (Json.quoted k +:+ s) = String Json.quote (k +:+ String Json.quote s).
Proof.
  unfold Json.quoted. rewrite append_cons, append_assoc, append_cons, append_nil_l.
  by apply skipSpace_keep.
Qed.

(** Decides the comparisons of bytes that are written out. *)
Ltac chars := cbn [Ascii.eqb Bool.eqb andb orb negb].

(** The scanner does not see the white space before a value. *)
Lemma parseValue_skipSpace (fuel : nat) (s s' : string) :
  Json.skipSpace s = Json.skipSpace s' ->
  Json.parseValue fuel s = Json.parseValue fuel s'.
Proof. destruct fuel; [reflexivity|]. cbn [Json.parseValue]. by intros ->. Qed.

Lemma parseElements_skipSpace (fuel : nat) (s s' : string) :
  Json.skipSpace s = Json.skipSpace s' ->
  Json.parseElements fuel s = Json.parseElements fuel s'.
Proof.
  destruct fuel; [reflexivity|]. cbn [Json.parseElements]. intros H.
  by rewrite (parseValue_skipSpace _ _ _ H).
Qed.

Lemma parseMembers_skipSpace (fuel : nat) (s s' : string) :
  Json.skipSpace s = Json.skipSpace s' ->
  Json.parseMembers fuel s = Json.parseMembers fuel s'.
Proof. destruct fuel; [reflexivity|]. cbn [Json.parseMembers]. by intros ->. Qed.

Lemma opens_number (c : ascii) :
  Json.isDigit c = true \/ c = "-"%char ->
  opens c /\
  forall fuel s,
    Json.parseValue (S fuel) (String c s) =
      match Json.lexNumber (String c s) with
      | Some (lit, r) => Some (Json.JNumber lit, r)
      | None => None
      end.
Proof.
  destruct c as [[] [] [] [] [] [] [] []]; intros [H|H];
    first [ vm_compute in H; discriminate H | split; [by repeat split | reflexivity] ].
Qed.

Lemma render_opens (d : nat) (v : Json.value) :
  wf v -> exists c t, Json.render d v = String c t /\ opens c.
Proof.
  destruct v as [| [] | lit | tok | [|x xs] | [|[k x] ms]]; intros Hwf;
    try (do 2 eexists; split; [reflexivity | by repeat split]).
  destruct Hwf as [(c & l & -> & Hc) _]. exists c, l.
  split; [reflexivity | by apply opens_number].
Qed.

Lemma follows_renderElems (d : nat) (xs : list Json.value) (rest : string) :
  follows (renderElems d xs +:+ rest).
Proof. destruct xs; [by right | by left]. Qed.

Lemma follows_renderMembers (d : nat) (ms : list (string * Json.value)) (rest : string) :
  follows (renderMembers d ms +:+ rest).
Proof. destruct ms as [|[k x] ms]; [by right | by left]. Qed.

Lemma parseElements_render (d : nat) (xs : list Json.value) :
  Forall readsBack xs -> Forall wf xs ->
  forall x fuel rest,
    readsBack x -> wf x ->
    (needElems (x :: xs) <= fuel)%nat ->
    Json.parseElements fuel
      (Json.newline (S d) +:+ Json.render (S d) x +:+ renderElems d xs +:+ rest) =
    Some (x :: xs, rest).
Proof.
  intros Hread Hwf. induction Hread as [|y ys Hy _ IH];
    intros x fuel rest Hx Hwx Hfuel;
    (destruct fuel as [|fuel]; [cbn [needElems] in Hfuel; lia|]);
    cbn [needElems] in Hfuel; cbn [Json.parseElements];
    rewrite (parseValue_skipSpace _ _ _ (skipSpace_newline _ _)).
  - rewrite (Hx Hwx (S d) fuel _ ltac:(lia) (follows_renderElems d [] rest)).
    cbn [renderElems]. rewrite append_assoc, skipSpace_newline.
    rewrite append_cons, skipSpace_keep by reflexivity. reflexivity.
  - apply Forall_cons in Hwf as [Hwy Hwys].
    rewrite (Hx Hwx (S d) fuel _ ltac:(lia) (follows_renderElems d (y :: ys) rest)).
    cbn [renderElems]. rewrite !append_assoc, !append_cons, append_nil_l.
    rewrite skipSpace_keep by reflexivity. chars.
    rewrite (IH Hwys y fuel rest Hy Hwy ltac:(cbn [needElems]; lia)). reflexivity.
Qed.

Lemma parseMembers_render (d : nat) (ms : list (string * Json.value)) :
  Forall (fun m => readsBack (snd m)) ms ->
  Forall (fun m => Token (fst m) /\ wf (snd m)) ms ->
  forall k x fuel rest,
    readsBack x -> Token k -> wf x ->
    (needMembers ((k, x) :: ms) <= fuel)%nat ->
    Json.parseMembers fuel
      (Json.newline (S d) +:+ Json.quoted k +:+ ": " +:+ Json.render (S d) x +:+
       renderMembers d ms +:+ rest) =
    Some ((k, x) :: ms, rest).
Proof.
  intros Hread Hwf. induction Hread as [|[k' y] ms Hy _ IH];
    intros k x fuel rest Hx Hk Hwx Hfuel;
    (destruct fuel as [|fuel]; [cbn [needMembers] in Hfuel; lia|]);
    cbn [needMembers] in Hfuel; cbn [Json.parseMembers];
    rewrite skipSpace_newline; unfold Json.quoted at 1;
    rewrite !append_cons, !append_assoc, !append_cons, !append_nil_l;
    rewrite skipSpace_keep by reflexivity; chars;
    rewrite (Token_lexString _ _ Hk);
    rewrite skipSpace_keep by reflexivity; chars;
    rewrite (parseValue_skipSpace _ (String " " _) (Json.render (S d) x +:+ _))
      by (cbn [Json.skipSpace]; reflexivity).
  - rewrite (Hx Hwx (S d) fuel _ ltac:(lia) (follows_renderMembers d [] rest)).
    cbn [renderMembers]. rewrite append_assoc, skipSpace_newline.
    rewrite append_cons, skipSpace_keep by reflexivity. reflexivity.
  - apply Forall_cons in Hwf as [[Hk' Hwy] Hwms]. simpl in Hy, Hk', Hwy.
    rewrite (Hx Hwx (S d) fuel _ ltac:(lia)
               (follows_renderMembers d ((k', y) :: ms) rest)).
    cbn [renderMembers].
    rewrite !append_assoc, (append_cons ","%char EmptyString), append_nil_l.
    rewrite skipSpace_keep by reflexivity. chars.
    rewrite (IH Hwms k' y fuel rest Hy Hk' Hwy ltac:(cbn [needMembers]; lia)).
    reflexivity.
Qed.

(** The scanner reads back the layout of every well-formed tree. *)
Lemma parseValue_render (v : Json.value) : readsBack v.
Proof.
  induction v as [| b | lit | tok | vs IH | ms IH] using value_induction;
    intros Hwf d fuel rest Hfuel Hrest;
    (destruct fuel as [|fuel]; [cbn [need] in Hfuel; lia|]).
  - reflexivity.
  - by destruct b.
  - destruct Hwf as [(c & l & -> & Hc) Hlex].
    cbn [Json.render]. specialize (Hlex rest Hrest).
    rewrite append_cons in *. rewrite (proj2 (opens_number c Hc)). by rewrite Hlex.
  - cbn [Json.render]. unfold Json.quoted.
    rewrite !append_cons, !append_assoc, !append_cons, !append_nil_l.
    cbn [Json.parseValue]. rewrite skipSpace_keep by reflexivity. chars.
    by rewrite (Token_lexString _ _ Hwf).
  - destruct vs as [|x xs]; [reflexivity|].
    apply wf_array in Hwf. apply Forall_cons in Hwf as [Hwx Hwxs].
    apply Forall_cons in IH as [Hx Hxs].
    rewrite need_array in Hfuel.
    rewrite render_array, !append_cons, !append_assoc, !append_nil_l.
    cbn [Json.parseValue]. rewrite skipSpace_keep by reflexivity. chars.
    rewrite skipSpace_newline.
    destruct (render_opens (S d) x Hwx) as (c & t & Hhead & Hsp & Hbr & _).
    rewrite Hhead at 1. rewrite append_cons, skipSpace_keep by exact Hsp. rewrite Hbr.
    by rewrite (parseElements_render d xs Hxs Hwxs x fuel rest Hx Hwx ltac:(lia)).
  - destruct ms as [|[k x] ms]; [reflexivity|].
    apply wf_object in Hwf. apply Forall_cons in Hwf as [[Hk Hwx] Hwms].
    apply Forall_cons in IH as [Hx Hms]. simpl in Hk, Hwx, Hx.
    rewrite need_object in Hfuel.
    rewrite render_object, !append_assoc, (append_cons "{"%char EmptyString), append_nil_l.
    cbn [Json.parseValue]. rewrite skipSpace_keep by reflexivity. chars.
    rewrite skipSpace_newline, skipSpace_quoted. chars.
    by rewrite (parseMembers_render d ms Hms Hwms k x fuel rest Hx Hk Hwx ltac:(lia)).
Qed.

(** ** Fuel *)

Lemma needElems_length (d : nat) (xs : list Json.value) :
  Forall fitsFuel xs -> Forall wf xs ->
  forall x, fitsFuel x -> wf x ->
  (needElems (x :: xs) <=
     String.length (Json.render (S d) x) + String.length (renderElems d xs))%nat.
Proof.
  intros Hfit Hwf. induction Hfit as [|y ys Hy _ IH]; intros x Hx Hwx;
    specialize (Hx Hwx (S d)); cbn [needElems renderElems] in *.
  - rewrite length_append. unfold Json.newline. simpl. lia.
  - apply Forall_cons in Hwf as [Hwy Hwys]. specialize (IH Hwys y Hy Hwy).
    rewrite !length_append. simpl. lia.
Qed.

Lemma needMembers_length (d : nat) (ms : list (string * Json.value)) :
  Forall (fun m => fitsFuel (snd m)) ms ->
  Forall (fun m => Token (fst m) /\ wf (snd m)) ms ->
  forall x, fitsFuel x -> wf x ->
  (needMembers (("", x) :: ms) <=
     String.length (Json.render (S d) x) + String.length (renderMembers d ms))%nat.
Proof.
  intros Hfit Hwf. induction Hfit as [|[k y] ms Hy _ IH]; intros x Hx Hwx;
    specialize (Hx Hwx (S d)); cbn [needMembers renderMembers] in *.
  - rewrite length_append. unfold Json.newline. simpl. lia.
  - apply Forall_cons in Hwf as [[_ Hwy] Hwms]. simpl in Hy, Hwy.
    specialize (IH Hwms y Hy Hwy). rewrite !length_append. simpl. lia.
Qed.

Lemma need_length (v : Json.value) : fitsFuel v.
Proof.
  induction v as [| b | lit | tok | vs IH | ms IH] using value_induction;
    intros Hwf d.
  - simpl. lia.
  - destruct b; simpl; lia.
  - destruct Hwf as [(c & l & -> & _) _]. simpl. lia.
  - simpl. lia.
  - destruct vs as [|x xs]; [simpl; lia|].
    apply wf_array in Hwf. apply Forall_cons in Hwf as [Hwx Hwxs].
    apply Forall_cons in IH as [Hx Hxs].
    pose proof (needElems_length d xs Hxs Hwxs x Hx Hwx) as Hlen.
    rewrite need_array, render_array, !length_append. cbn [String.length]. lia.
  - destruct ms as [|[k x] ms]; [simpl; lia|].
    apply wf_object in Hwf. apply Forall_cons in Hwf as [[Hk Hwx] Hwms].
    apply Forall_cons in IH as [Hx Hms]. simpl in Hx, Hwx.
    pose proof (needMembers_length d ms Hms Hwms x Hx Hwx) as Hlen.
    rewrite need_object, render_object, !length_append.
    cbn [needMembers String.length] in *. lia.
Qed.

(** [Indent] and the scanner agree: the indented text of a well-formed tree
    is a JSON text, and it is the text of that tree. *)
Lemma parse_render (v : Json.value) : wf v -> Json.parse (Json.render 0 v) = Some v.
Proof.
  intros Hwf. unfold Json.parse.
  pose proof (parseValue_render v Hwf 0%nat
                (Json.fuelFor (Json.render 0 v)) EmptyString
                ltac:(pose proof (need_length v Hwf 0%nat); unfold Json.fuelFor; lia)
                I) as Hparse.
  rewrite append_empty_r in Hparse. by rewrite Hparse.
Qed.

(** ** The fuel is enough *)

Lemma skipSpace_length (s : string) :
  (String.length (Json.skipSpace s) <= String.length s)%nat.
Proof.
  induction s as [|c s IH]; [done|]. cbn [Json.skipSpace].
  destruct (Json.isSpace c); simpl; lia.
Qed.

Lemma skipSpace_cons_length (s r : string) (c : ascii) :
  Json.skipSpace s = String c r -> (String.length r < String.length s)%nat.
Proof.
  intros H. pose proof (skipSpace_length s) as Hlen. rewrite H in Hlen. simpl in Hlen. lia.
Qed.

Lemma consTok_length (pre tok r : string) (res : option (string * string)) (n : nat) :
  Json.consTok pre res = Some (tok, r) ->
  (forall tok', res = Some (tok', r) -> (String.length r < n)%nat) ->
  (String.length r < n)%nat.
Proof. intros (tok' & Hres & _)%consTok_inv Hn. by apply (Hn tok'). Qed.

(** The scanner takes at least the closing quote of a string. *)
Lemma lexString_length (s tok r : string) :
  Json.lexString s = Some (tok, r) -> (String.length r < String.length s)%nat.
Proof.
  revert tok r. induction s as [s IH] using string_length_ind. intros tok r.
  destruct s as [|c s]; [discriminate|]. cbn [Json.lexString].
  destruct (Ascii.eqb c Json.quote); [intros [= <- <-]; simpl; lia|].
  destruct (Ascii.eqb c Json.backslash).
  - destruct s as [|e s2]; [discriminate|].
    destruct (Json.isEscape e).
    + intros (tok' & Htok & _)%consTok_inv.
      pose proof (IH s2 ltac:(simpl; lia) _ _ Htok). simpl. lia.
    + destruct (Ascii.eqb e "u"); [|discriminate].
      destruct s2 as [|h1 [|h2 [|h3 [|h4 s6]]]]; try discriminate.
      destruct (_ && _); [|discriminate].
      intros (tok' & Htok & _)%consTok_inv.
      pose proof (IH s6 ltac:(simpl; lia) _ _ Htok). simpl. lia.
  - destruct (byte_val c <? 32); [discriminate|].
    intros (tok' & Htok & _)%consTok_inv.
    pose proof (IH s ltac:(simpl; lia) _ _ Htok). simpl. lia.
Qed.

Lemma lexDigits_length (s ds r : string) :
  Json.lexDigits s = (ds, r) -> (String.length r <= String.length s)%nat.
Proof.
  revert ds r. induction s as [|c s IH]; intros ds r; cbn [Json.lexDigits].
  - by intros [= <- <-].
  - destruct (Json.isDigit c); [|by intros [= <- <-]].
    destruct (Json.lexDigits s) as [ds' r'] eqn:Hs. intros [= <- <-].
    specialize (IH _ _ eq_refl). simpl. lia.
Qed.

Lemma lexLiteral_length (lit s r : string) :
  Json.lexLiteral lit s = Some r -> (String.length r <= String.length s)%nat.
Proof.
  revert s. induction lit as [|a lit IH]; intros s; cbn [Json.lexLiteral].
  - by intros [= <-].
  - destruct s as [|b s]; [discriminate|].
    destruct (Ascii.eqb a b); [|discriminate].
    intros H%IH. simpl. lia.
Qed.

(** The scanner takes at least one digit of a number. *)
Lemma lexNumber_length (s lit r : string) :
  Json.lexNumber s = Some (lit, r) -> (String.length r < String.length s)%nat.
Proof.
  unfold Json.lexNumber.
  destruct (Json.lexSign s) as [sg s1] eqn:Hsign.
  assert (Hs1 : (String.length s1 <= String.length s)%nat).
  { unfold Json.lexSign in Hsign. destruct s as [|c s]; [by injection Hsign as _ <-|].
    destruct (Ascii.eqb c "-"); injection Hsign as _ <-; simpl; lia. }
  destruct (Json.lexInt s1) as [[int s2]|] eqn:Hint; [|discriminate].
  assert (Hs2 : (String.length s2 < String.length s1)%nat).
  { unfold Json.lexInt in Hint. destruct s1 as [|c t]; [discriminate|].
    destruct (Json.isDigit c); [|discriminate].
    destruct (Ascii.eqb c "0"); [injection Hint as _ <-; simpl; lia|].
    destruct (Json.lexDigits t) as [ds r'] eqn:Ht. injection Hint as _ <-.
    apply lexDigits_length in Ht. simpl. lia. }
  destruct (Json.lexFrac s2) as [[fr s3]|] eqn:Hfrac; [|discriminate].
  assert (Hs3 : (String.length s3 <= String.length s2)%nat).
  { unfold Json.lexFrac in Hfrac. destruct s2 as [|p t]; [by injection Hfrac as _ <-|].
    destruct (Ascii.eqb p "."); [|by injection Hfrac as _ <-].
    destruct (Json.lexDigits t) as [ds r'] eqn:Ht. apply lexDigits_length in Ht.
    destruct ds; [discriminate|]. injection Hfrac as _ <-. simpl. lia. }
  destruct (Json.lexExp s3) as [[ex s4]|] eqn:Hexp; [|discriminate].
  assert (Hs4 : (String.length s4 <= String.length s3)%nat).
  { unfold Json.lexExp in Hexp. destruct s3 as [|e t]; [by injection Hexp as _ <-|].
    destruct (_ || _); [|by injection Hexp as _ <-].
    destruct t as [|g t'].
    - simpl in Hexp. discriminate.
    - destruct (Ascii.eqb g "+" || Ascii.eqb g "-");
        destruct (Json.lexDigits _) as [ds r'] eqn:Ht; apply lexDigits_length in Ht;
        (destruct ds; [discriminate|]); injection Hexp as _ <-; simpl in *; lia. }
  intros [= _ <-]. lia.
Qed.

(** Every value takes at least one byte. *)
Lemma parse_length_fuel (fuel : nat) :
  (forall s v r, Json.parseValue fuel s = Some (v, r) ->
     (String.length r < String.length s)%nat) /\
  (forall s vs r, Json.parseElements fuel s = Some (vs, r) ->
     (String.length r < String.length s)%nat) /\
  (forall s ms r, Json.parseMembers fuel s = Some (ms, r) ->
     (String.length r < String.length s)%nat).
Proof.
  induction fuel as [|fuel (IHv & IHe & IHm)]; [by repeat split|].
  repeat split.
  - intros s v r. cbn [Json.parseValue].
    destruct (Json.skipSpace s) as [|c t] eqn:Hs; [discriminate|].
    apply skipSpace_cons_length in Hs.
    repeat match goal with
           | |- (if ?b then _ else _) = _ -> _ => destruct b
           | |- match Json.skipSpace ?x with _ => _ end = _ -> _ =>
               let H := fresh "Hsp" in
               destruct (Json.skipSpace x) eqn:H;
               [discriminate | apply skipSpace_cons_length in H]
           end.
    + intros [= _ <-]. lia.
    + destruct (Json.parseMembers fuel t) as [[ms r2]|] eqn:Hms; [|discriminate].
      intros [= _ <-]. apply IHm in Hms. lia.
    + intros [= _ <-]. lia.
    + destruct (Json.parseElements fuel t) as [[vs r2]|] eqn:Hvs; [|discriminate].
      intros [= _ <-]. apply IHe in Hvs. lia.
    + destruct (Json.lexString t) as [[tok r']|] eqn:Htok; [|discriminate].
      intros [= _ <-]. apply lexString_length in Htok. lia.
    + destruct (Json.lexLiteral "rue" t) eqn:Hl; [|discriminate].
      intros [= _ <-]. apply lexLiteral_length in Hl. lia.
    + destruct (Json.lexLiteral "alse" t) eqn:Hl; [|discriminate].
      intros [= _ <-]. apply lexLiteral_length in Hl. lia.
    + destruct (Json.lexLiteral "ull" t) eqn:Hl; [|discriminate].
      intros [= _ <-]. apply lexLiteral_length in Hl. lia.
    + destruct (Json.lexNumber (String c t)) as [[lit r']|] eqn:Hlit; [|discriminate].
      intros [= _ <-]. apply lexNumber_length in Hlit. simpl in Hlit. lia.
  - intros s vs r. cbn [Json.parseElements].
    destruct (Json.parseValue fuel s) as [[v r1]|] eqn:Hv; [|discriminate].
    apply IHv in Hv.
    destruct (Json.skipSpace r1) as [|c r'] eqn:Hsp; [discriminate|].
    apply skipSpace_cons_length in Hsp.
    destruct (Ascii.eqb c ","); [|destruct (Ascii.eqb c "]"); [|discriminate]].
    + destruct (Json.parseElements fuel r') as [[vs' r2]|] eqn:Hvs; [|discriminate].
      intros [= _ <-]. apply IHe in Hvs. lia.
    + intros [= _ <-]. lia.
  - intros s ms r. cbn [Json.parseMembers].
    destruct (Json.skipSpace s) as [|q t] eqn:Hs; [discriminate|].
    apply skipSpace_cons_length in Hs.
    destruct (Ascii.eqb q Json.quote); [|discriminate].
    destruct (Json.lexString t) as [[key r1]|] eqn:Hkey; [|discriminate].
    apply lexString_length in Hkey.
    destruct (Json.skipSpace r1) as [|c r2] eqn:Hsp; [discriminate|].
    apply skipSpace_cons_length in Hsp.
    destruct (Ascii.eqb c ":"); [|discriminate].
    destruct (Json.parseValue fuel r2) as [[v r3]|] eqn:Hv; [|discriminate].
    apply IHv in Hv.
    destruct (Json.skipSpace r3) as [|c' r4] eqn:Hsp'; [discriminate|].
    apply skipSpace_cons_length in Hsp'.
    destruct (Ascii.eqb c' ","); [|destruct (Ascii.eqb c' "}"); [|discriminate]].
    + destruct (Json.parseMembers fuel r4) as [[ms' r5]|] eqn:Hms; [|discriminate].
      intros [= _ <-]. apply IHm in Hms. lia.
    + intros [= _ <-]. lia.
Qed.

(** From the fuel of [fuelFor] on, more fuel changes nothing. *)
Lemma parse_stable_fuel (n : nat) :
  (forall s fuel, (S (2 * String.length s) <= n)%nat -> (n <= fuel)%nat ->
     Json.parseValue fuel s = Json.parseValue n s) /\
  (forall s fuel, (2 + 2 * String.length s <= n)%nat -> (n <= fuel)%nat ->
     Json.parseElements fuel s = Json.parseElements n s) /\
  (forall s fuel, (2 + 2 * String.length s <= n)%nat -> (n <= fuel)%nat ->
     Json.parseMembers fuel s = Json.parseMembers n s).
Proof.
  induction n as [|n (IHv & IHe & IHm)]; [repeat split; intros; lia|].
  repeat split; intros s [|fuel] Hn Hfuel; try lia.
  - cbn [Json.parseValue].
    destruct (Json.skipSpace s) as [|c t] eqn:Hs; [reflexivity|].
    apply skipSpace_cons_length in Hs.
    rewrite (IHm t fuel) by lia. rewrite (IHe t fuel) by lia. reflexivity.
  - cbn [Json.parseElements]. rewrite (IHv s fuel) by lia.
    destruct (Json.parseValue n s) as [[v r1]|] eqn:Hv; [|reflexivity].
    apply (proj1 (parse_length_fuel n)) in Hv.
    destruct (Json.skipSpace r1) as [|c r'] eqn:Hsp; [reflexivity|].
    apply skipSpace_cons_length in Hsp.
    by rewrite (IHe r' fuel) by lia.
  - cbn [Json.parseMembers].
    destruct (Json.skipSpace s) as [|q t] eqn:Hs; [reflexivity|].
    apply skipSpace_cons_length in Hs.
    destruct (Ascii.eqb q Json.quote); [|reflexivity].
    destruct (Json.lexString t) as [[key r1]|] eqn:Hkey; [|reflexivity].
    apply lexString_length in Hkey.
    destruct (Json.skipSpace r1) as [|c r2] eqn:Hsp; [reflexivity|].
    apply skipSpace_cons_length in Hsp.
    destruct (Ascii.eqb c ":"); [|reflexivity].
    rewrite (IHv r2 fuel) by lia.
    destruct (Json.parseValue n r2) as [[v r3]|] eqn:Hv; [|reflexivity].
    apply (proj1 (parse_length_fuel n)) in Hv.
    destruct (Json.skipSpace r3) as [|c' r4] eqn:Hsp'; [reflexivity|].
    apply skipSpace_cons_length in Hsp'.
    by rewrite (IHm r4 fuel) by lia.
Qed.

(** What the scanner accepts with some fuel it accepts with more. *)
Lemma parse_more_fuel (n : nat) :
  (forall s x fuel, Json.parseValue n s = Some x -> (n <= fuel)%nat ->
     Json.parseValue fuel s = Some x) /\
  (forall s x fuel, Json.parseElements n s = Some x -> (n <= fuel)%nat ->
     Json.parseElements fuel s = Some x) /\
  (forall s x fuel, Json.parseMembers n s = Some x -> (n <= fuel)%nat ->
     Json.parseMembers fuel s = Some x).
Proof.
  induction n as [|n (IHv & IHe & IHm)]; [by repeat split|].
  repeat split; intros s x [|fuel] Hx Hfuel; try lia; revert Hx.
  - cbn [Json.parseValue].
    destruct (Json.skipSpace s) as [|c t]; [done|].
    repeat match goal with
           | |- (if ?b then _ else _) = _ -> _ => destruct b
           | |- match Json.skipSpace ?x with _ => _ end = _ -> _ =>
               destruct (Json.skipSpace x); [done|]
           end; try done.
    + destruct (Json.parseMembers n t) as [y|] eqn:Hy; [|done].
      by rewrite (IHm _ _ fuel Hy) by lia.
    + destruct (Json.parseElements n t) as [y|] eqn:Hy; [|done].
      by rewrite (IHe _ _ fuel Hy) by lia.
  - cbn [Json.parseElements].
    destruct (Json.parseValue n s) as [[v r1]|] eqn:Hv; [|done].
    rewrite (IHv _ _ fuel Hv) by lia.
    destruct (Json.skipSpace r1) as [|c r']; [done|].
    destruct (Ascii.eqb c ","); [|done].
    destruct (Json.parseElements n r') as [y|] eqn:Hy; [|done].
    by rewrite (IHe _ _ fuel Hy) by lia.
  - cbn [Json.parseMembers].
    destruct (Json.skipSpace s) as [|q t]; [done|].
    destruct (Ascii.eqb q Json.quote); [|done].
    destruct (Json.lexString t) as [[key r1]|]; [|done].
    destruct (Json.skipSpace r1) as [|c r2]; [done|].
    destruct (Ascii.eqb c ":"); [|done].
    destruct (Json.parseValue n r2) as [[v r3]|] eqn:Hv; [|done].
    rewrite (IHv _ _ fuel Hv) by lia.
    destruct (Json.skipSpace r3) as [|c' r4]; [done|].
    destruct (Ascii.eqb c' ","); [|done].
    destruct (Json.parseMembers n r4) as [y|] eqn:Hy; [|done].
    by rewrite (IHm _ _ fuel Hy) by lia.
Qed.

(** The answer of [parse] is the answer of the grammar: whatever the
    scanner accepts with any fuel at all, it accepts with the fuel that
    [parse] gives it. *)
Lemma parseValue_fuelFor (s : string) (fuel : nat) (x : Json.value * string) :
  Json.parseValue fuel s = Some x -> Json.parseValue (Json.fuelFor s) s = Some x.
Proof.
  intros Hx. destruct (Nat.le_gt_cases fuel (Json.fuelFor s)) as [Hle|Hgt].
  - by apply (proj1 (parse_more_fuel fuel) s x).
  - rewrite <- (proj1 (parse_stable_fuel (Json.fuelFor s)) s fuel); [exact Hx| |lia].
    unfold Json.fuelFor. lia.
Qed.

(** ** What [Compact] keeps of a string *)

Lemma between_range (lo hi : Z) (c : ascii) :
  Utf8.between lo hi c = true -> lo <= byte_val c <= hi.
Proof. unfold Utf8.between. intros [?%Z.leb_le ?%Z.leb_le]%andb_true_iff. lia. Qed.

Lemma between_below (lo hi : Z) (c : ascii) :
  byte_val c < lo -> Utf8.between lo hi c = false.
Proof. unfold Utf8.between. intros H. destruct (Z.leb_spec lo (byte_val c)); [lia | done]. Qed.

Lemma isHTML_low (c : ascii) : isHTML c = true -> byte_val c < 128.
Proof.
  unfold isHTML.
  intros [[->%Ascii.eqb_eq| ->%Ascii.eqb_eq]%orb_true_iff| ->%Ascii.eqb_eq]%orb_true_iff;
    reflexivity.
Qed.

Lemma isHTML_high (c : ascii) : 128 <= byte_val c -> isHTML c = false.
Proof.
  intros Hc. destruct (isHTML c) eqn:H; [|reflexivity].
  apply isHTML_low in H. lia.
Qed.

(** [seqLen] is one of the tests of [secondBytes], or 0 whatever follows. *)
Lemma seqLen_secondBytes (c : ascii) :
  (forall t, Utf8.seqLen c t = 0%nat) \/
  exists lo hi n, 128 <= lo /\ hi <= 191 /\
    forall t, Utf8.seqLen c t = secondBytes lo hi n t.
Proof.
  assert (Hsec : forall lo hi n,
            128 <= lo -> hi <= 191 ->
            (forall t, secondBytes lo hi n t = secondBytes lo hi n t) ->
            exists lo' hi' n', 128 <= lo' /\ hi' <= 191 /\
              forall t, secondBytes lo hi n t = secondBytes lo' hi' n' t)
    by (intros lo hi n ? ? _; by exists lo, hi, n).
  seqLen_first c;
    first [ left; intros t; reflexivity
          | right; apply (Hsec 128 191 2%nat); [lia | lia | reflexivity]
          | right; apply (Hsec 160 191 3%nat); [lia | lia | reflexivity]
          | right; apply (Hsec 128 191 3%nat); [lia | lia | reflexivity]
          | right; apply (Hsec 128 159 3%nat); [lia | lia | reflexivity]
          | right; apply (Hsec 144 191 4%nat); [lia | lia | reflexivity]
          | right; apply (Hsec 128 191 4%nat); [lia | lia | reflexivity]
          | right; apply (Hsec 128 143 4%nat); [lia | lia | reflexivity] ].
Qed.

(** A byte in the range of a second byte is copied by [escapeHTML]. *)
Lemma escapeHTML_cont (lo hi : Z) (b : ascii) (r : string) :
  128 <= lo -> hi <= 191 -> Utf8.between lo hi b = true ->
  Json.escapeHTML (String b r) = String b (Json.escapeHTML r).
Proof.
  intros Hlo Hhi Hb%between_range.
  apply escapeHTML_keep; [apply isHTML_high|]; lia.
Qed.

(** In place of a byte out of that range [escapeHTML] writes that byte or a
    backslash: a byte out of that range. *)
Lemma escapeHTML_other (lo hi : Z) (b : ascii) (r : string) :
  128 <= lo -> Utf8.between lo hi b = false ->
  exists h x, Json.escapeHTML (String b r) = String h x /\ Utf8.between lo hi h = false.
Proof.
  intros Hlo Hb.
  assert (Hbs : Utf8.between lo hi Json.backslash = false)
    by (apply between_below; change (byte_val Json.backslash) with 92; lia).
  cbn [Json.escapeHTML].
  destruct (_ || _); [by eexists _, _|].
  destruct r as [|b1 [|b2 r2]]; try (by eexists _, _).
  destruct (Json.isLineSep b b1 b2); by eexists _, _.
Qed.

Lemma secondBytes_escapeHTML (lo hi : Z) (n : nat) (t : string) :
  128 <= lo -> hi <= 191 ->
  secondBytes lo hi n (Json.escapeHTML t) = secondBytes lo hi n t.
Proof.
  intros Hlo Hhi.
  assert (Hcont : forall b r, Utf8.isCont b = true ->
            Json.escapeHTML (String b r) = String b (Json.escapeHTML r)).
  { intros b r. by apply escapeHTML_cont. }
  assert (Hother : forall b r, Utf8.isCont b = false ->
            exists h x, Json.escapeHTML (String b r) = String h x /\ Utf8.isCont h = false).
  { intros b r. by apply escapeHTML_other. }
  destruct t as [|b1 r1]; [reflexivity|].
  destruct (Utf8.between lo hi b1) eqn:Hb1.
  - rewrite (escapeHTML_cont lo hi) by assumption.
    cbn [secondBytes]. rewrite Hb1.
    destruct n as [|[|[|[|[|n]]]]]; try reflexivity.
    + destruct r1 as [|b2 r2]; [reflexivity|].
      destruct (Utf8.isCont b2) eqn:Hb2.
      * by rewrite Hcont, Hb2.
      * destruct (Hother b2 r2 Hb2) as (h & x & -> & ->). reflexivity.
    + destruct r1 as [|b2 r2]; [reflexivity|].
      destruct (Utf8.isCont b2) eqn:Hb2.
      * rewrite Hcont by exact Hb2. rewrite Hb2.
        destruct r2 as [|b3 r3]; [reflexivity|].
        destruct (Utf8.isCont b3) eqn:Hb3.
        -- by rewrite Hcont, Hb3.
        -- destruct (Hother b3 r3 Hb3) as (h & x & -> & ->). reflexivity.
      * destruct (Hother b2 r2 Hb2) as (h & x & -> & ->).
        destruct r2 as [|b3 r3], x as [|h' x']; reflexivity.
  - destruct (escapeHTML_other lo hi b1 r1 Hlo Hb1) as (h & x & -> & Hh).
    cbn [secondBytes]. by rewrite Hb1, Hh.
Qed.

Lemma seqLen_escapeHTML (c : ascii) (t : string) :
  Utf8.seqLen c (Json.escapeHTML t) = Utf8.seqLen c t.
Proof.
  destruct (seqLen_secondBytes c) as [Hzero|(lo & hi & n & Hlo & Hhi & Hsec)].
  - by rewrite !Hzero.
  - rewrite !Hsec. by apply secondBytes_escapeHTML.
Qed.

(** The bytes that [seqLen] counts are there, and [escapeHTML] copies them. *)
Lemma seqLen_bytes (c : ascii) (t : string) (k : nat) :
  Utf8.seqLen c t = S k ->
  match k with
  | 1%nat => exists b1 r,
      t = String b1 r /\ 128 <= byte_val b1 /\
      Json.escapeHTML t = String b1 (Json.escapeHTML r)
  | 2%nat => exists b1 b2 r,
      t = String b1 (String b2 r) /\ 128 <= byte_val b1 /\ 128 <= byte_val b2 /\
      Json.escapeHTML t = String b1 (String b2 (Json.escapeHTML r))
  | 3%nat => exists b1 b2 b3 r,
      t = String b1 (String b2 (String b3 r)) /\
      128 <= byte_val b1 /\ 128 <= byte_val b2 /\ 128 <= byte_val b3 /\
      Json.escapeHTML t = String b1 (String b2 (String b3 (Json.escapeHTML r)))
  | _ => False
  end.
Proof.
  destruct (seqLen_secondBytes c) as [Hzero|(lo & hi & n & Hlo & Hhi & Hsec)];
    [by rewrite Hzero|].
  rewrite Hsec. unfold secondBytes.
  destruct t as [|b1 r1]; [discriminate|].
  destruct (Utf8.between lo hi b1) eqn:Hb1; [|discriminate].
  pose proof (between_range _ _ _ Hb1) as Hr1.
  pose proof (escapeHTML_cont lo hi b1 r1 Hlo Hhi Hb1) as He1.
  destruct n as [|[|[|[|[|n]]]]]; try discriminate.
  - intros [= <-]. exists b1, r1. repeat split; [lia | exact He1].
  - destruct r1 as [|b2 r2]; [discriminate|].
    destruct (Utf8.isCont b2) eqn:Hb2; [|discriminate]. intros [= <-].
    pose proof (between_range _ _ _ Hb2) as Hr2.
    exists b1, b2, r2. repeat split; try lia.
    by rewrite He1, (escapeHTML_cont 128 191 b2).
  - destruct r1 as [|b2 [|b3 r3]]; try discriminate.
    destruct (Utf8.isCont b2) eqn:Hb2; [|discriminate].
    destruct (Utf8.isCont b3) eqn:Hb3; [|discriminate]. intros [= <-].
    pose proof (between_range _ _ _ Hb2) as Hr2.
    pose proof (between_range _ _ _ Hb3) as Hr3.
    exists b1, b2, b3, r3. repeat split; try lia.
    by rewrite He1, (escapeHTML_cont 128 191 b2), (escapeHTML_cont 128 191 b3).
Qed.

(** A plain byte below [0x80] denotes itself. *)
Lemma unquote_plain (c : ascii) (s : string) :
  Ascii.eqb c Json.quote = false -> Ascii.eqb c Json.backslash = false ->
  (byte_val c <? 32) = false -> byte_val c < 128 ->
  Json.unquote (String c s) = Json.prepend (String c EmptyString) (Json.unquote s).
Proof.
  intros Hq Hb Hc Hlow. cbn [Json.unquote]. rewrite Hb, Hq, Hc. simpl.
  by destruct (Z.ltb_spec (byte_val c) 128); [|lia].
Qed.

(** The escape that [escapeHTML] writes for [<], [>] or [&] denotes that
    byte. *)
Lemma unquote_u00 (c : ascii) (s : string) :
  isHTML c = true ->
  Json.unquote (Json.u00 c +:+ s) = Json.prepend (String c EmptyString) (Json.unquote s).
Proof.
  unfold isHTML.
  intros [[->%Ascii.eqb_eq| ->%Ascii.eqb_eq]%orb_true_iff| ->%Ascii.eqb_eq]%orb_true_iff;
    reflexivity.
Qed.

Lemma hexVal_isHex (h : ascii) : Json.isHex h = true -> is_Some (Json.hexVal h).
Proof.
  unfold Json.isHex, Json.hexVal.
  destruct (Json.isDigit h); [eauto|].
  destruct (Utf8.between 97 102 h); [eauto|].
  destruct (Utf8.between 65 70 h); [eauto | discriminate].
Qed.

Lemma hex4_isHex (h1 h2 h3 h4 : ascii) :
  Json.isHex h1 && Json.isHex h2 && Json.isHex h3 && Json.isHex h4 = true ->
  is_Some (Json.hex4 h1 h2 h3 h4).
Proof.
  intros [[[H1 H2]%andb_true_iff H3]%andb_true_iff H4]%andb_true_iff.
  unfold Json.hex4.
  destruct (hexVal_isHex _ H1) as [? ->], (hexVal_isHex _ H2) as [? ->],
    (hexVal_isHex _ H3) as [? ->], (hexVal_isHex _ H4) as [? ->]. eauto.
Qed.

(** [unquote] on a [\\u] escape. *)
Lemma unquote_u (h1 h2 h3 h4 : ascii) (s : string) (rr : Z) :
  Json.hex4 h1 h2 h3 h4 = Some rr ->
  Json.unquote (String Json.backslash (String "u" (String h1 (String h2 (String h3
                  (String h4 s)))))) =
    if Json.isSurrogate rr then afterSurrogate rr s
    else Json.prepend (Json.EncodeRune rr) (Json.unquote s).
Proof.
  intros Hrr. cbn [Json.unquote]. simpl Ascii.eqb. cbv iota. rewrite Hrr.
  destruct (Json.isSurrogate rr); [|reflexivity].
  unfold afterSurrogate.
  destruct s as [|b [|u [|k1 [|k2 [|k3 [|k4 s12]]]]]]; try reflexivity.
  unfold Json.getu4.
  destruct (Ascii.eqb b Json.backslash && Ascii.eqb u "u"); [|reflexivity].
  destruct (Json.hex4 k1 k2 k3 k4); reflexivity.
Qed.

Lemma getu4_head (c : ascii) (s : string) :
  Ascii.eqb c Json.backslash = false -> Json.getu4 (String c s) = None.
Proof.
  intros Hc. destruct s as [|u [|k1 [|k2 [|k3 [|k4 s12]]]]]; try reflexivity.
  unfold Json.getu4. by rewrite Hc.
Qed.

Lemma getu4_escape (e : ascii) (s : string) :
  Ascii.eqb e "u" = false -> Json.getu4 (String Json.backslash (String e s)) = None.
Proof.
  intros He. destruct s as [|k1 [|k2 [|k3 [|k4 s12]]]]; try reflexivity.
  unfold Json.getu4. rewrite He. by rewrite andb_false_r.
Qed.

Lemma getu4_u (h1 h2 h3 h4 : ascii) (s : string) (rr : Z) :
  Json.hex4 h1 h2 h3 h4 = Some rr ->
  Json.getu4 (String Json.backslash (String "u" (String h1 (String h2 (String h3
                (String h4 s)))))) = Some (rr, s).
Proof. intros Hrr. unfold Json.getu4. simpl. by rewrite Hrr. Qed.

(** No escape that [escapeHTML] writes is the second half of a pair. *)
Lemma decodePair_low (rr rr1 : Z) : rr1 < 56320 -> Json.decodePair rr rr1 = None.
Proof.
  intros H. unfold Json.decodePair.
  destruct (Z.leb_spec 56320 rr1); [lia|]. by rewrite andb_false_r.
Qed.

Lemma afterSurrogate_u00 (rr : Z) (c : ascii) (s : string) :
  isHTML c = true ->
  afterSurrogate rr (Json.u00 c +:+ s) =
    Json.prepend Json.replacement (Json.unquote (Json.u00 c +:+ s)).
Proof.
  intros Hc.
  assert (Hget : Json.getu4 (Json.u00 c +:+ s) = Some (byte_val c, s)).
  { revert Hc. unfold isHTML.
    intros [[->%Ascii.eqb_eq| ->%Ascii.eqb_eq]%orb_true_iff| ->%Ascii.eqb_eq]%orb_true_iff;
      reflexivity. }
  unfold afterSurrogate. rewrite Hget, decodePair_low; [reflexivity|].
  apply isHTML_low in Hc. lia.
Qed.

Lemma afterSurrogate_u202 (rr : Z) (b2 : ascii) (s : string) :
  (byte_val b2 =? 168) || (byte_val b2 =? 169) = true ->
  afterSurrogate rr (Json.u202 b2 +:+ s) =
    Json.prepend Json.replacement (Json.unquote (Json.u202 b2 +:+ s)).
Proof.
  intros Hb.
  assert (Hget : exists rr1, Json.getu4 (Json.u202 b2 +:+ s) = Some (rr1, s) /\ rr1 < 56320).
  { apply orb_true_iff in Hb as [H%Z.eqb_eq|H%Z.eqb_eq];
      [apply (byte_val_inv b2 168) in H as -> | apply (byte_val_inv b2 169) in H as ->];
      eexists; (split; [reflexivity | reflexivity]). }
  destruct Hget as (rr1 & Hget & Hlow).
  unfold afterSurrogate. by rewrite Hget, decodePair_low.
Qed.

(** [escapeHTML] copies a byte that is neither one of its three nor the
    head of a line separator. *)
Lemma escapeHTML_copy (c : ascii) (t : string) :
  isHTML c = false ->
  match t with
  | String b1 (String b2 _) => Json.isLineSep c b1 b2 = false
  | _ => True
  end ->
  Json.escapeHTML (String c t) = String c (Json.escapeHTML t).
Proof.
  unfold isHTML. intros Hc Hsep. cbn [Json.escapeHTML]. rewrite Hc.
  destruct t as [|b1 [|b2 t2]]; try reflexivity. by rewrite Hsep.
Qed.

(** What [unquote] makes of the text after a surrogate is the same before
    and after [escapeHTML], if [unquote] itself is. *)
Lemma afterSurrogate_escapeHTML (rr : Z) (t : string) :
  Token t ->
  (forall t', (String.length t' <= String.length t)%nat -> Token t' ->
     Json.unquote (Json.escapeHTML t') = Json.unquote t') ->
  afterSurrogate rr (Json.escapeHTML t) = afterSurrogate rr t.
Proof.
  intros Htok IH.
  assert (Hwhole : Json.unquote (Json.escapeHTML t) = Json.unquote t)
    by (apply IH; [lia | exact Htok]).
  assert (Hbs : isHTML Json.backslash = false /\ byte_val Json.backslash <> 226)
    by (by split).
  destruct Htok as [|c t' Hq Hb Hc Ht|e t' He Ht|h1 h2 h3 h4 t' Hh Ht].
  - reflexivity.
  - assert (Hnone : afterSurrogate rr (String c t') =
                    Json.prepend Json.replacement (Json.unquote (String c t')))
      by (unfold afterSurrogate; by rewrite getu4_head).
    rewrite Hnone, <- Hwhole. clear Hnone Hwhole.
    cbn [Json.escapeHTML]. fold (isHTML c).
    destruct (isHTML c) eqn:Hhtml; [by apply afterSurrogate_u00|].
    assert (Hkeep : forall x, afterSurrogate rr (String c x) =
                              Json.prepend Json.replacement (Json.unquote (String c x)))
      by (intros x; unfold afterSurrogate; by rewrite getu4_head).
    destruct t' as [|b1 [|b2 t2]]; try apply Hkeep.
    destruct (Json.isLineSep c b1 b2) eqn:Hsep; [|apply Hkeep].
    apply afterSurrogate_u202. by apply (isLineSep_third c b1).
  - destruct (isEscape_keep e He) as [He1 He2].
    assert (Hu : Ascii.eqb e "u" = false)
      by (destruct (Ascii.eqb_spec e "u") as [->|]; [discriminate He | reflexivity]).
    rewrite !escapeHTML_keep in * by tauto.
    unfold afterSurrogate. rewrite !getu4_escape by exact Hu. by rewrite Hwhole.
  - assert (Hu : isHTML "u" = false /\ byte_val "u" <> 226) by (by split).
    destruct (hex4_isHex _ _ _ _ Hh) as [rr1 Hrr1].
    apply andb_true_iff in Hh as [Hh H4]. apply andb_true_iff in Hh as [Hh H3].
    apply andb_true_iff in Hh as [H1 H2].
    apply isHex_keep in H1, H2, H3, H4.
    rewrite !escapeHTML_keep in * by tauto.
    unfold afterSurrogate. rewrite !(getu4_u _ _ _ _ _ _ Hrr1).
    destruct (Json.decodePair rr rr1); [|by rewrite Hwhole].
    rewrite IH; [reflexivity | simpl; lia | exact Ht].
Qed.

(** [escapeHTML] changes how a string is written, not what it denotes. *)
Lemma unquote_escapeHTML (tok : string) :
  Token tok -> Json.unquote (Json.escapeHTML tok) = Json.unquote tok.
Proof.
  induction tok as [tok IH] using string_length_ind. intros Htok.
  assert (Hbs : isHTML Json.backslash = false /\ byte_val Json.backslash <> 226)
    by (by split).
  destruct Htok as [|c t Hq Hb Hc Ht|e t He Ht|h1 h2 h3 h4 t Hh Ht].
  - reflexivity.
  - assert (IHt : Json.unquote (Json.escapeHTML t) = Json.unquote t)
      by (apply IH; [simpl; lia | exact Ht]).
    destruct (isHTML c) eqn:Hhtml.
    { cbn [Json.escapeHTML]. fold (isHTML c). rewrite Hhtml.
      rewrite unquote_u00, unquote_plain, IHt; try done.
      by apply isHTML_low. }
    destruct (Z.ltb_spec (byte_val c) 128) as [Hlow|Hhigh].
    { rewrite escapeHTML_keep by (try done; lia).
      by rewrite !unquote_plain, IHt. }
    assert (Hcopy : Json.escapeHTML (String c t) = String c (Json.escapeHTML t) ->
                    Json.unquote (Json.escapeHTML (String c t)) = Json.unquote (String c t)).
    { intros ->. rewrite !unquote_high by exact Hhigh. rewrite seqLen_escapeHTML.
      destruct (Utf8.seqLen c t) as [|[|[|[|[|n]]]]] eqn:Hlen;
        try (by rewrite IHt);
        try (by destruct (Json.escapeHTML t) as [|? [|? [|? ?]]], t as [|? [|? [|? ?]]];
             rewrite ?IHt).
      - destruct (seqLen_bytes _ _ _ Hlen) as (b1 & r & -> & H1 & ->).
        rewrite IH; [reflexivity | simpl; lia |].
        by apply (Token_high_inv b1).
      - destruct (seqLen_bytes _ _ _ Hlen) as (b1 & b2 & r & -> & H1 & H2 & ->).
        rewrite IH; [reflexivity | simpl; lia |].
        apply (Token_high_inv b2); [exact H2|]. by apply (Token_high_inv b1).
      - destruct (seqLen_bytes _ _ _ Hlen) as (b1 & b2 & b3 & r & -> & H1 & H2 & H3 & ->).
        rewrite IH; [reflexivity | simpl; lia |].
        apply (Token_high_inv b3); [exact H3|].
        apply (Token_high_inv b2); [exact H2|]. by apply (Token_high_inv b1). }
    destruct t as [|b1 [|b2 t2]];
      try (apply Hcopy; by apply escapeHTML_copy).
    destruct (Json.isLineSep c b1 b2) eqn:Hsep;
      [|apply Hcopy; by apply escapeHTML_copy].
    cbn [Json.escapeHTML]. fold (isHTML c). rewrite Hhtml, Hsep.
    rewrite (unquote_u202 c b1) by exact Hsep.
    assert (Hbytes : 128 <= byte_val b1 /\ 128 <= byte_val b2 /\
                     Utf8.seqLen c (String b1 (String b2 t2)) = 3%nat).
    { unfold Json.isLineSep in Hsep.
      apply andb_true_iff in Hsep as [[H0%Z.eqb_eq H1%Z.eqb_eq]%andb_true_iff H2%orb_true_iff].
      apply (byte_val_inv c 226) in H0 as ->. apply (byte_val_inv b1 128) in H1 as ->.
      destruct H2 as [H2%Z.eqb_eq|H2%Z.eqb_eq];
        [apply (byte_val_inv b2 168) in H2 as -> | apply (byte_val_inv b2 169) in H2 as ->];
        by repeat split. }
    destruct Hbytes as (H1 & H2 & Hlen).
    rewrite unquote_high, Hlen by exact Hhigh.
    rewrite IH; [reflexivity | simpl; lia |].
    apply (Token_high_inv b2); [exact H2|]. by apply (Token_high_inv b1).
  - destruct (isEscape_keep e He) as [He1 He2].
    rewrite !escapeHTML_keep by tauto.
    cbn [Json.unquote]. simpl (Ascii.eqb Json.backslash Json.backslash). cbv iota.
    destruct (Ascii.eqb e "u") eqn:Hu;
      [apply Ascii.eqb_eq in Hu as ->; discriminate He|].
    destruct (Json.simpleEscape e); [|reflexivity].
    rewrite IH; [reflexivity | simpl; lia | exact Ht].
  - assert (Hu : isHTML "u" = false /\ byte_val "u" <> 226) by (by split).
    destruct (hex4_isHex _ _ _ _ Hh) as [rr Hrr].
    apply andb_true_iff in Hh as [Hh H4]. apply andb_true_iff in Hh as [Hh H3].
    apply andb_true_iff in Hh as [H1 H2].
    apply isHex_keep in H1, H2, H3, H4.
    rewrite !escapeHTML_keep by tauto.
    rewrite !(unquote_u _ _ _ _ _ _ Hrr).
    destruct (Json.isSurrogate rr).
    + apply afterSurrogate_escapeHTML; [exact Ht|].
      intros t' Hlen Ht'. apply IH; [simpl; lia | exact Ht'].
    + rewrite IH; [reflexivity | simpl; lia | exact Ht].
Qed.

(** [Compact] changes how a text is written, not what it says. *)
Lemma sameJSON_compact (v : Json.value) : wf v -> sameJSON v (Json.compact v).
Proof.
  induction v as [| b | lit | tok | vs IH | ms IH] using value_induction.
  - intros _. constructor.
  - intros _. constructor.
  - intros _. constructor.
  - intros Htok. constructor. symmetry. by apply unquote_escapeHTML.
  - rewrite wf_array. intros Hvs. cbn [Json.compact]. constructor.
    induction Hvs as [|x vs Hx Hvs IHvs]; [constructor|].
    apply Forall_cons in IH as [IHx IH].
    constructor; [by apply IHx | by apply IHvs].
  - rewrite wf_object. intros Hms. cbn [Json.compact]. constructor.
    induction Hms as [|[k x] ms [Hk Hx] Hms IHms]; [constructor|].
    apply Forall_cons in IH as [IHx IH].
    constructor; [|by apply IHms].
    split; [symmetry; by apply unquote_escapeHTML | by apply IHx].
Qed.

(** ** Texts without [<], [>] and [&] *)

Lemma htmlFree_append (s t : string) :
  htmlFree (s +:+ t) = htmlFree s && htmlFree t.
Proof.
  induction s as [|c s IH]; [reflexivity|].
  rewrite append_cons. cbn [htmlFree]. by rewrite IH, andb_assoc.
Qed.

Lemma htmlFree_high (c : ascii) (s : string) :
  128 <= byte_val c -> htmlFree (String c s) = htmlFree s.
Proof. intros Hc. cbn [htmlFree]. by rewrite isHTML_high. Qed.

Lemma htmlFree_encodeByte (c : ascii) : byte_val c < 128 -> htmlFree (Json.encodeByte c) = true.
Proof.
  destruct c as [[] [] [] [] [] [] [] []]; intros Hc;
    first [ reflexivity | vm_compute in Hc; discriminate Hc ].
Qed.

Lemma htmlFree_u00 (c : ascii) : htmlFree (Json.u00 c) = true.
Proof. destruct c as [[] [] [] [] [] [] [] []]; reflexivity. Qed.

Lemma htmlFree_u202 (b2 : ascii) : htmlFree (Json.u202 b2) = true.
Proof. destruct b2 as [[] [] [] [] [] [] [] []]; reflexivity. Qed.

(** The encoder of strings writes none of the three bytes. *)
Lemma htmlFree_encodeString (s : string) : htmlFree (Json.encodeString s) = true.
Proof.
  induction s as [s IH] using string_length_ind.
  destruct s as [|b0 r0]; [reflexivity|].
  cbn [Json.encodeString].
  destruct (Z.ltb_spec (byte_val b0) 128) as [Hlow|Hhigh].
  { rewrite htmlFree_append, htmlFree_encodeByte, IH by (try done; simpl; lia). done. }
  assert (Hbad : htmlFree (String Json.backslash "ufffd" +:+ Json.encodeString r0) = true).
  { rewrite htmlFree_append, IH by (simpl; lia). done. }
  destruct (Utf8.seqLen b0 r0) as [|[|[|[|[|n]]]]] eqn:Hlen; try exact Hbad.
  - destruct r0 as [|b1 r1]; [exact Hbad|].
    destruct (seqLen_2 _ _ _ Hlen) as (H1 & _).
    rewrite !htmlFree_high by lia. apply IH. simpl. lia.
  - destruct r0 as [|b1 [|b2 r2]]; try exact Hbad.
    destruct (seqLen_3 _ _ _ _ Hlen) as (H1 & H2 & _).
    destruct (Json.isLineSep b0 b1 b2).
    + rewrite htmlFree_append, htmlFree_u202, IH by (simpl; lia). done.
    + rewrite !htmlFree_high by lia. apply IH. simpl. lia.
  - destruct r0 as [|b1 [|b2 [|b3 r3]]]; try exact Hbad.
    destruct (seqLen_4 _ _ _ _ _ Hlen) as (H1 & H2 & H3 & _).
    rewrite !htmlFree_high by lia. apply IH. simpl. lia.
Qed.

(** [escapeHTML] leaves none of the three bytes. *)
Lemma htmlFree_escapeHTML (s : string) : htmlFree (Json.escapeHTML s) = true.
Proof.
  induction s as [s IH] using string_length_ind.
  destruct s as [|c r]; [reflexivity|].
  cbn [Json.escapeHTML]. fold (isHTML c).
  destruct (isHTML c) eqn:Hc.
  { rewrite htmlFree_append, htmlFree_u00, IH by (simpl; lia). done. }
  assert (Hkeep : htmlFree (String c (Json.escapeHTML r)) = true).
  { cbn [htmlFree]. rewrite Hc, IH by (simpl; lia). done. }
  destruct r as [|b1 [|b2 r2]]; try exact Hkeep.
  destruct (Json.isLineSep c b1 b2); [|exact Hkeep].
  rewrite htmlFree_append, htmlFree_u202, IH by (simpl; lia). done.
Qed.

Lemma htmlFree_digits (s ds r : string) :
  Json.lexDigits s = (ds, r) -> htmlFree ds = true.
Proof.
  revert ds r. induction s as [|c s IH]; intros ds r; cbn [Json.lexDigits].
  - by intros [= <- <-].
  - destruct (Json.isDigit c) eqn:Hc; [|by intros [= <- <-]].
    destruct (Json.lexDigits s) as [ds' r'] eqn:Hs. intros [= <- <-].
    cbn [htmlFree]. rewrite (IH _ _ eq_refl).
    rewrite (isDigit_not c isHTML Hc); [done|].
    intros d Hd. simpl in Hd. by repeat destruct Hd as [<-|Hd].
Qed.

(** A number literal has none of the three bytes. *)
Lemma htmlFree_number (s lit r : string) :
  Json.lexNumber s = Some (lit, r) -> htmlFree lit = true.
Proof.
  unfold Json.lexNumber.
  destruct (Json.lexSign s) as [sg s1] eqn:Hsign.
  assert (Hsg : htmlFree sg = true).
  { unfold Json.lexSign in Hsign. destruct s as [|c s]; [by injection Hsign as <- _|].
    destruct (Ascii.eqb_spec c "-") as [->|_]; by injection Hsign as <- _. }
  destruct (Json.lexInt s1) as [[int s2]|] eqn:Hint; [|discriminate].
  assert (Hi : htmlFree int = true).
  { unfold Json.lexInt in Hint. destruct s1 as [|c t]; [discriminate|].
    destruct (Json.isDigit c) eqn:Hc; [|discriminate].
    assert (Hnot : isHTML c = false).
    { apply (isDigit_not c isHTML Hc). intros d Hd. simpl in Hd.
      by repeat destruct Hd as [<-|Hd]. }
    destruct (Ascii.eqb c "0"); [injection Hint as <- _; cbn [htmlFree]; by rewrite Hnot|].
    destruct (Json.lexDigits t) as [ds r'] eqn:Ht. injection Hint as <- _.
    cbn [htmlFree]. by rewrite Hnot, (htmlFree_digits _ _ _ Ht). }
  destruct (Json.lexFrac s2) as [[fr s3]|] eqn:Hfrac; [|discriminate].
  assert (Hf : htmlFree fr = true).
  { unfold Json.lexFrac in Hfrac. destruct s2 as [|p t]; [by injection Hfrac as <- _|].
    destruct (Ascii.eqb_spec p ".") as [->|_]; [|by injection Hfrac as <- _].
    destruct (Json.lexDigits t) as [ds r'] eqn:Ht. apply htmlFree_digits in Ht.
    destruct ds; [discriminate|]. by injection Hfrac as <- _. }
  destruct (Json.lexExp s3) as [[ex s4]|] eqn:Hexp; [|discriminate].
  assert (He : htmlFree ex = true).
  { unfold Json.lexExp in Hexp. destruct s3 as [|e t]; [by injection Hexp as <- _|].
    destruct (Ascii.eqb e "e" || Ascii.eqb e "E") eqn:Hmark; [|by injection Hexp as <- _].
    assert (Hnot : isHTML e = false).
    { apply orb_true_iff in Hmark as [->%Ascii.eqb_eq| ->%Ascii.eqb_eq]; reflexivity. }
    destruct t as [|g t'].
    - simpl in Hexp. discriminate.
    - destruct (Ascii.eqb g "+" || Ascii.eqb g "-") eqn:Hg.
      + destruct (Json.lexDigits t') as [ds r'] eqn:Ht. apply htmlFree_digits in Ht.
        destruct ds; [discriminate|]. injection Hexp as <- _.
        cbn [htmlFree]. rewrite Hnot, append_cons, append_nil_l. cbn [htmlFree].
        cbn [htmlFree] in Ht. rewrite Ht.
        by apply orb_true_iff in Hg as [->%Ascii.eqb_eq| ->%Ascii.eqb_eq].
      + destruct (Json.lexDigits (String g t')) as [ds r'] eqn:Ht.
        apply htmlFree_digits in Ht.
        destruct ds; [discriminate|]. injection Hexp as <- _.
        cbn [htmlFree]. rewrite Hnot, append_nil_l. exact Ht. }
  intros [= <- _]. by rewrite !htmlFree_append, Hsg, Hi, Hf, He.
Qed.

Lemma clean_array (vs : list Json.value) : clean (Json.JArray vs) <-> Forall clean vs.
Proof.
  induction vs as [|x vs IH]; [by split; [constructor|]|].
  change (clean (Json.JArray (x :: vs))) with (clean x /\ clean (Json.JArray vs)).
  rewrite Forall_cons, IH. tauto.
Qed.

Lemma clean_object (ms : list (string * Json.value)) :
  clean (Json.JObject ms) <->
  Forall (fun m => htmlFree (fst m) = true /\ clean (snd m)) ms.
Proof.
  induction ms as [|[k x] ms IH]; [by split; [constructor|]|].
  change (clean (Json.JObject ((k, x) :: ms)))
    with ((htmlFree k = true /\ clean x) /\ clean (Json.JObject ms)).
  rewrite Forall_cons, IH. tauto.
Qed.

(** What [Compact] writes for a text the scanner took is clean. *)
Lemma clean_compact (v : Json.value) : wf v -> clean (Json.compact v).
Proof.
  induction v as [| b | lit | tok | vs IH | ms IH] using value_induction.
  - done.
  - done.
  - intros [_ Hlit]. cbn [Json.compact clean].
    specialize (Hlit EmptyString I). rewrite append_empty_r in Hlit.
    by apply (htmlFree_number _ _ _ Hlit).
  - intros _. apply htmlFree_escapeHTML.
  - rewrite wf_array. intros Hvs. cbn [Json.compact]. apply clean_array.
    induction Hvs as [|x vs Hx Hvs IHvs]; [constructor|].
    apply Forall_cons in IH as [IHx IH].
    constructor; [by apply IHx | by apply IHvs].
  - rewrite wf_object. intros Hms. cbn [Json.compact]. apply clean_object.
    induction Hms as [|[k x] ms [Hk Hx] Hms IHms]; [constructor|].
    apply Forall_cons in IH as [IHx IH].
    constructor; [|by apply IHms].
    split; [apply htmlFree_escapeHTML | by apply IHx].
Qed.

Lemma htmlFree_newline (d : nat) : htmlFree (Json.newline d) = true.
Proof.
  unfold Json.newline. cbn [htmlFree]. simpl (negb _).
  induction d as [|d IH]; [reflexivity|].
  cbn [Json.spaces]. by rewrite htmlFree_append.
Qed.

Lemma htmlFree_quoted (tok : string) : htmlFree tok = true -> htmlFree (Json.quoted tok) = true.
Proof.
  intros Htok. unfold Json.quoted. cbn [htmlFree]. by rewrite htmlFree_append, Htok.
Qed.

(** The layout of a clean tree has none of the three bytes. *)
Lemma htmlFree_render (v : Json.value) : clean v -> forall d, htmlFree (Json.render d v) = true.
Proof.
  induction v as [| b | lit | tok | vs IH | ms IH] using value_induction.
  - done.
  - by intros _ d; destruct b.
  - by intros Hlit d.
  - intros Htok d. by apply htmlFree_quoted.
  - rewrite clean_array. intros Hvs d.
    destruct Hvs as [|x xs Hx Hxs]; [reflexivity|].
    apply Forall_cons in IH as [IHx IH].
    rewrite render_array, !htmlFree_append, htmlFree_newline, (IHx Hx). simpl.
    induction Hxs as [|y ys Hy Hys IHys].
    + cbn [renderElems]. by rewrite htmlFree_append, htmlFree_newline.
    + apply Forall_cons in IH as [IHy IH]. cbn [renderElems].
      rewrite !htmlFree_append, htmlFree_newline, (IHy Hy), (IHys IH). done.
  - rewrite clean_object. intros Hms d.
    destruct Hms as [|[k x] xs [Hk Hx] Hxs]; [reflexivity|].
    cbn [fst snd] in Hk, Hx.
    apply Forall_cons in IH as [IHx IH]. cbn [snd] in IHx.
    rewrite render_object, !htmlFree_append, htmlFree_newline, (IHx Hx),
      (htmlFree_quoted _ Hk). simpl.
    induction Hxs as [|[k' y] ys [Hk' Hy] Hys IHys].
    + cbn [renderMembers]. by rewrite htmlFree_append, htmlFree_newline.
    + cbn [fst snd] in Hk', Hy.
      apply Forall_cons in IH as [IHy IH]. cbn [snd] in IHy. cbn [renderMembers].
      rewrite !htmlFree_append, htmlFree_newline, (IHy Hy), (IHys IH),
        (htmlFree_quoted _ Hk'). done.
Qed.

(* ===================================================================== *)
(** * The runner *)
(* ===================================================================== *)

(** Unfolds the monad of [os/exec] calls. *)
Ltac step_calls :=
  unfold run, Exec, Open, Read, Close, Cmd_StdinPipe, Cmd_StdoutPipe, Cmd_StderrPipe,
    Cmd_Start, Cmd_Wait, pipe, io_Close, ioutil_ReadAll, call, answer, panic,
    mbind, M_bind, mret, M_ret; simpl.

(** Splits on every answer of the operating system and runs the calls. *)
Ltac split_answers w :=
  destruct w as [a1 a2 a3 a4 cl rd a8]; simpl in *;
  destruct a1, a2, a3, a4;
  destruct (cl hStdin) eqn:Hclose;
  destruct (rd hStdout) as [out [eo|]] eqn:Hout;
  destruct (rd hStderr) as [err' [ee|]] eqn:Herr;
  destruct a8;
  step_calls; repeat (rewrite ?Hclose, ?Hout, ?Herr; simpl).

(** [Exec] never panics: after a successful [Open] no handle is nil. *)
Lemma Exec_returns (w : Answers) (e0 : ExecObj) (log0 : list Call) :
  exists e log, Exec e0 w log0 = Ret e log.
Proof. split_answers w; eauto. Qed.

(** Decides that a call is not in a log that is written out. *)
Ltac not_called :=
  let Hin := fresh "Hin" in
  intros Hin;
  repeat (apply elem_of_cons in Hin as [Hin|Hin]; [discriminate Hin|]);
  by apply elem_of_nil in Hin.

(** C5: the run error is the first failure of open, start, close-input,
    drain and wait, and a failed step ends the invocation: after a failed
    pipe acquisition the child is never started; after a failed start the
    input is not closed, nothing is drained and nobody waits; after a failed
    close of the input nothing is drained and nobody waits; after a failed
    drain nobody waits. *)
Theorem Exec_first_failure_is_sticky (w : Answers) (environ : list string)
    (command : string) (args : list string) :
  exists e log,
    run w environ command args = Ret e log /\
    RunErr e = firstFailure w /\
    (openFailure w <> None -> (CallStart ∉ log)) /\
    (onStart w <> None ->
       (CallClose hStdin ∉ log) /\ (forall h, CallReadAll h ∉ log) /\ (CallWait ∉ log)) /\
    (onClose w hStdin <> None -> (forall h, CallReadAll h ∉ log) /\ (CallWait ∉ log)) /\
    (drainFailure w <> None -> CallWait ∉ log) /\
    (firstFailure w = None ->
       log = [CallStdinPipe; CallStdoutPipe; CallStderrPipe; CallStart;
              CallFn (Some hStdin); CallClose hStdin;
              CallReadAll hStdout; CallReadAll hStderr; CallWait]).
Proof.
  unfold firstFailure, openFailure, drainFailure, orElse.
  split_answers w; do 2 eexists; (split; [reflexivity|]); simpl;
    repeat split; intros; try congruence; try not_called.
Qed.

Lemma StatusCode_nil (e : ExecObj) : RunErr e = None -> StatusCode e = 200.
Proof. unfold StatusCode, ErrorMsg. by intros ->. Qed.

Lemma StatusCode_error (e : ExecObj) (err : error) :
  RunErr e = Some err -> Error err <> EmptyString -> StatusCode e = 400.
Proof.
  unfold StatusCode, ErrorMsg. intros -> Htext.
  destruct (String.eqb_spec (Error err) EmptyString); congruence.
Qed.

(** [StatusCode] tells a failure from a success by the text of the error:
    an error without text reads as a success. *)
Lemma StatusCode_error_without_text (e : ExecObj) :
  RunErr e = Some (errorString EmptyString) -> StatusCode e = 200.
Proof. unfold StatusCode, ErrorMsg. by intros ->. Qed.

Lemma StatusCode_two_values (e : ExecObj) : StatusCode e = 200 \/ StatusCode e = 400.
Proof. unfold StatusCode. destruct (String.eqb _ _); auto. Qed.

Lemma StatusBody_nil (e : ExecObj) : RunErr e = None -> StatusBody e = (e, ReadOut e).
Proof. unfold StatusBody, ErrorMsg. by intros ->. Qed.

Lemma firstFailure_reportsText (w : Answers) (err : error) :
  reportsText w -> firstFailure w = Some err -> Error err <> EmptyString.
Proof.
  intros Htext Hfirst. apply Htext.
  unfold firstFailure, openFailure, drainFailure, orElse in Hfirst. simpl.
  destruct (onStdinPipe w), (onStdoutPipe w), (onStderrPipe w), (onStart w),
    (onClose w hStdin), (snd (onReadAll w hStdout)), (snd (onReadAll w hStderr));
    simpl in Hfirst; rewrite Hfirst; tauto.
Qed.

(** What an invocation of a fresh runner leaves behind: the first failure
    as run error, the untouched error template, and, when the drain was
    reached and went through, the bytes that arrived. *)
Lemma run_outcome (w : Answers) (environ : list string) (command : string)
    (args : list string) :
  exists e log,
    run w environ command args = Ret e log /\
    RunErr e = firstFailure w /\
    Err e = defaultErr /\
    (firstFailure w = None \/ firstFailure w = onWait w ->
       openFailure w = None -> onStart w = None -> onClose w hStdin = None ->
       drainFailure w = None ->
       ReadOut e = Some (fst (onReadAll w hStdout)) /\
       ReadErr e = Some (fst (onReadAll w hStderr))).
Proof.
  unfold firstFailure, openFailure, drainFailure, orElse.
  split_answers w; do 2 eexists; (split; [reflexivity|]); simpl;
    repeat split; intros; congruence.
Qed.

(** C2: after an invocation that set no run error, [StatusCode] is 200 and
    [StatusBody] is the captured standard output, untouched; after one that
    set a run error, [StatusCode] is 400; there is no third value. *)
Theorem StatusCode_StatusBody_of_run (w : Answers) (environ : list string)
    (command : string) (args : list string) :
  reportsText w ->
  exists e log,
    run w environ command args = Ret e log /\
    (RunErr e = None ->
       StatusCode e = 200 /\
       StatusBody e = (e, ReadOut e) /\
       ReadOut e = Some (fst (onReadAll w hStdout))) /\
    (RunErr e <> None -> StatusCode e = 400) /\
    (StatusCode e = 200 \/ StatusCode e = 400).
Proof.
  intros Htext.
  destruct (run_outcome w environ command args) as (e & log & Hrun & Herr & _ & Hread).
  exists e, log. split; [exact Hrun|]. repeat split.
  - by apply StatusCode_nil.
  - by apply StatusBody_nil.
  - rewrite Herr in H.
    assert (Hall := H). unfold firstFailure, orElse in Hall.
    destruct (openFailure w); [discriminate|].
    destruct (onStart w); [discriminate|].
    destruct (onClose w hStdin); [discriminate|].
    destruct (drainFailure w); [discriminate|].
    by apply Hread; auto.
  - intros Hset. destruct (RunErr e) as [err|] eqn:He; [|congruence].
    apply (StatusCode_error e err He).
    apply (firstFailure_reportsText w); [exact Htext | congruence].
  - apply StatusCode_two_values.
Qed.

(** C2 on a child that prints [hello] and exits cleanly. *)
Lemma StatusCode_StatusBody_of_run_witness :
  exists e log,
    run (childExits "hello" EmptyString None) [] "echo" ["hello"] = Ret e log /\
    StatusCode e = 200 /\ StatusBody e = (e, Some "hello").
Proof.
  assert (Htext : reportsText (childExits "hello" EmptyString None)).
  { intros err. simpl. intuition discriminate. }
  destruct (StatusCode_StatusBody_of_run _ [] "echo" ["hello"] Htext)
    as (e & log & Hrun & Hok & _).
  exists e, log. split; [exact Hrun|].
  assert (Hnil : RunErr e = None).
  { revert Hrun. step_calls. by intros [= <- _]. }
  destruct (Hok Hnil) as (Hcode & Hbody & Hout).
  split; [exact Hcode|]. by rewrite Hbody, Hout.
Defined.

(** C3, as stated, fails on two exit paths.  When the first pipe cannot be
    had (here for want of file descriptors), the handles of the object are
    nil and [Close] panics on the first of them.  When the child cannot be
    started (here a path that names no file), [Close] returns, but neither
    it nor [Exec] has closed the input handle. *)
Lemma Close_does_not_release_all :
  ~ releasesAll (noStdinPipe (errorString "pipe2: too many open files")) "cat" /\
  ~ releasesAll
      (childFailsToStart
         (errorString "fork/exec /no/such/file: no such file or directory"))
      "/no/such/file".
Proof.
  split; intros (e & log & log' & Hrun & Hclose & Hall).
  - revert Hrun Hclose. step_calls. intros [= <- <-]. step_calls. discriminate.
  - revert Hrun Hclose. step_calls. intros [= <- <-]. step_calls. intros [= <-].
    specialize (Hall hStdin). revert Hall. not_called.
Qed.

(** C3, amended: on every exit path on which the three pipes were had,
    [Close] returns without fault after closing the error-read handle and
    then the output-read handle, and closes nothing else.  The input-write
    handle is closed by [Exec] itself, after the callback, whenever the
    child was started. *)
Theorem Close_after_Exec (w : Answers) (environ : list string) (command : string)
    (args : list string) :
  openFailure w = None ->
  exists e log,
    run w environ command args = Ret e log /\
    Close e w log = Ret tt (log ++ [CallClose hStderr; CallClose hStdout]) /\
    (onStart w = None -> CallClose hStdin ∈ log).
Proof.
  unfold openFailure, orElse.
  split_answers w; intros Hopen; try discriminate Hopen;
    do 2 eexists; (split; [reflexivity|]); simpl;
    (split; [by rewrite <- ?app_assoc|]);
    intros; try congruence; set_solver.
Qed.

(** C3, amended, on a command that cannot be started: the calls of the
    invocation and of [Close], in order. *)
Lemma Close_after_Exec_witness :
  let w := childFailsToStart
             (errorString "fork/exec /no/such/file: no such file or directory") in
  exists e log,
    run w [] "/no/such/file" [] = Ret e log /\
    Close e w log =
      Ret tt [CallStdinPipe; CallStdoutPipe; CallStderrPipe; CallStart;
              CallClose hStderr; CallClose hStdout].
Proof.
  intros w.
  destruct (Close_after_Exec w [] "/no/such/file" [] eq_refl)
    as (e & log & Hrun & Hclose & _).
  exists e, log. split; [exact Hrun|]. rewrite Hclose.
  revert Hrun. step_calls. by intros [= _ <-].
Defined.

(** ** The body of a failed run *)

Lemma Token_literal (s : string) : Json.encodeString s = s -> Token s.
Proof. intros <-. apply Token_encodeString. Qed.

Lemma fields_wf (v : SynqError) (more : list (string * Json.value)) :
  Forall (fun m => Token (fst m) /\ wf (snd m)) more ->
  wf (Json.JObject (fields v ++ more)).
Proof.
  intros Hmore. apply wf_object. unfold fields. simpl.
  repeat (constructor; [split; [by apply Token_literal | apply Token_encodeString]|]).
  exact Hmore.
Qed.

Lemma render_object_nonempty (d : nat) (ms : list (string * Json.value)) :
  Json.render d (Json.JObject ms) <> EmptyString.
Proof. by destruct ms as [|[k x] ms]. Qed.

(** What [MarshalIndent] writes decodes as a structured error, with the
    message of the value it was given. *)
Lemma MarshalIndent_decodes (v : SynqError) (b : string) :
  MarshalIndent v = Some b ->
  b <> EmptyString /\ decodesAsError b (Json.coerceUTF8 (Message v)).
Proof.
  unfold MarshalIndent.
  destruct (Details v) as [raw|].
  - destruct (Json.parse (Json.RawMessage_MarshalJSON raw)) as [d|] eqn:Hraw;
      [|discriminate].
    intros Hb. apply (inj Some) in Hb. subst b. split; [apply render_object_nonempty|].
    eexists _, _, _, _. split; [|split; [right; eauto | apply unquote_encodeString]].
    apply parse_render, fields_wf. constructor; [|constructor].
    split; [by apply Token_literal | by apply compact_wf, (parse_wf _ _ Hraw)].
  - intros Hb. apply (inj Some) in Hb. subst b. split; [apply render_object_nonempty|].
    eexists _, _, _, _. split; [|split; [left; eauto | apply unquote_encodeString]].
    rewrite <- (app_nil_r (fields v)). apply parse_render, fields_wf. constructor.
Qed.

(** [MarshalIndent] fails exactly when there are [details] and their bytes
    are not a JSON text. *)
Lemma MarshalIndent_fails (v : SynqError) :
  MarshalIndent v = None <->
  exists raw, Details v = Some raw /\
              Json.parse (Json.RawMessage_MarshalJSON raw) = None.
Proof.
  unfold MarshalIndent. destruct (Details v) as [raw|].
  - destruct (Json.parse (Json.RawMessage_MarshalJSON raw)) eqn:Hraw.
    + split; [discriminate|]. intros (raw' & Heq & Hnone).
      injection Heq as <-. congruence.
    + split; [intros _; eauto | reflexivity].
  - split; [discriminate | intros (raw & Heq & _); discriminate].
Qed.

(** The document of a payload with [details]: the three strings, then
    [details] as the encoder compacts it. *)
Lemma MarshalIndent_details (v : SynqError) (raw : Json.RawMessage) (d : Json.value) :
  Details v = Some raw ->
  Json.parse (Json.RawMessage_MarshalJSON raw) = Some d ->
  exists b,
    MarshalIndent v = Some b /\
    Json.parse b = Some (Json.JObject (fields v ++ [("details", Json.compact d)])).
Proof.
  intros Hdetails Hraw. unfold MarshalIndent. rewrite Hdetails, Hraw.
  eexists. split; [reflexivity|].
  apply parse_render, fields_wf. constructor; [|constructor].
  split; [by apply Token_literal | by apply compact_wf, (parse_wf _ _ Hraw)].
Qed.

(** The document of a payload without [details]: the three strings. *)
Lemma MarshalIndent_plain (v : SynqError) :
  Details v = None ->
  exists b, MarshalIndent v = Some b /\ Json.parse b = Some (Json.JObject (fields v)).
Proof.
  intros Hdetails. unfold MarshalIndent. rewrite Hdetails.
  eexists. split; [reflexivity|].
  rewrite <- (app_nil_r (fields v)). apply parse_render, fields_wf. constructor.
Qed.

(** C1, as stated, fails for the document that [MarshalError] returns.  A
    child that exits with status 1 after it wrote the object [fooBar] to its
    error stream gets a document in which these bytes do not stand: the
    encoder has laid the object out anew.  A child that wrote [boom] gets no
    document at all. *)
Lemma details_not_verbatim :
  (exists e log b,
     run (childExitsOne fooBar) [] "sh" [] = Ret e log /\
     RunErr e = Some (errorString "exit status 1") /\
     ReadErr e = Some fooBar /\
     snd (MarshalError e) = Some b /\
     Strings.Contains b fooBar = false /\
     ~ detailsVerbatim (snd (MarshalError e)) fooBar) /\
  (exists e log,
     run (childExitsOne "boom") [] "sh" [] = Ret e log /\
     RunErr e = Some (errorString "exit status 1") /\
     ReadErr e = Some "boom" /\
     snd (MarshalError e) = None /\
     ~ detailsVerbatim (snd (MarshalError e)) "boom").
Proof.
  split.
  - do 3 eexists. do 4 (split; [reflexivity|]).
    split; [vm_compute; reflexivity|].
    intros (b & Hbody & Hin). apply (inj Some) in Hbody. subst b.
    vm_compute in Hin. discriminate Hin.
  - do 2 eexists. do 4 (split; [reflexivity|]).
    intros (b & Hbody & _). discriminate Hbody.
Qed.

(** C1, amended: after an invocation that set a run error, [MarshalError]
    fills the payload and returns its document as follows.  If the text of
    the run error is exactly [exit status 1], the field [details] of the
    payload holds the captured error stream, byte for byte, and [message] is
    still the message of the default template.  The document is nil when
    these bytes are not a JSON text.  When they are, the document is the
    three strings of the template followed by the member [details], which
    says what the error stream said, in the layout and with the escapes of
    the encoder.  Otherwise [message] is the text of the run error and
    [details] is absent, in the payload and in the document, whose string
    for [message] denotes that text, with the replacement character for
    bytes that are not UTF-8.  [name] and [url] are the template's in both
    cases. *)
Theorem MarshalError_payload (w : Answers) (environ : list string)
    (command : string) (args : list string) (e : ExecObj) (log : list Call)
    (err : error) :
  run w environ command args = Ret e log ->
  RunErr e = Some err ->
  let payload := Err (fst (MarshalError e)) in
  let body := snd (MarshalError e) in
  let stderrText := Json.RawMessage_MarshalJSON (ReadErr e) in
  (Error err = "exit status 1" ->
     Details payload = Some (ReadErr e) /\
     Message payload = Message defaultErr /\
     (Json.parse stderrText = None -> body = None) /\
     (forall d, Json.parse stderrText = Some d ->
        exists b d',
          body = Some b /\
          Json.parse b =
            Some (Json.JObject (fields defaultErr ++ [("details", d')])) /\
          sameJSON d d')) /\
  (Error err <> "exit status 1" ->
     Message payload = Error err /\
     Details payload = None /\
     exists b m,
       body = Some b /\
       Json.parse b =
         Some (Json.JObject
                 [("name", Json.JString (Json.encodeString (Name defaultErr)));
                  ("url", Json.JString (Json.encodeString (Url defaultErr)));
                  ("message", Json.JString m)]) /\
       Json.unquote m = Some (Json.coerceUTF8 (Error err))) /\
  Name payload = Name defaultErr /\ Url payload = Url defaultErr.
Proof.
  intros Hrun Herr payload body stderrText.
  destruct (run_outcome w environ command args) as (e' & log' & Hrun' & _ & Htpl & _).
  rewrite Hrun in Hrun'. injection Hrun' as <- <-.
  subst payload body stderrText. unfold MarshalError, ErrorMsg. rewrite Herr, Htpl.
  destruct (String.eqb_spec (Error err) "exit status 1") as [Heq|Hne];
    cbn [negb fst snd Err set_Err Name Url Message Details defaultErr].
  - split; [intros _ | split; [congruence | by split]].
    split; [reflexivity|]. split; [reflexivity|]. split.
    + intros Hnone. apply MarshalIndent_fails. eauto.
    + intros d Hd.
      destruct (MarshalIndent_details
                  {| Name := "exec_error"; Url := "http://docs.synq.fm/api/v1/errors/";
                     Message := "An error occured while running your script";
                     Details := Some (ReadErr e) |} (ReadErr e) d eq_refl Hd)
        as (b & Hb & Hparse).
      exists b, (Json.compact d). split; [exact Hb|]. split; [exact Hparse|].
      by apply sameJSON_compact, (parse_wf _ _ Hd).
  - split; [congruence|]. split; [intros _ | by split].
    split; [reflexivity|]. split; [reflexivity|].
    destruct (MarshalIndent_plain
                {| Name := "exec_error"; Url := "http://docs.synq.fm/api/v1/errors/";
                   Message := Error err; Details := None |} eq_refl)
      as (b & Hb & Hparse).
    exists b, (Json.encodeString (Error err)).
    split; [exact Hb|]. split; [exact Hparse | apply unquote_encodeString].
Qed.

(** C1, amended, on a child that writes the object [fooBar] to its error
    stream and exits with status 1. *)
Lemma MarshalError_payload_witness :
  let w := childExits EmptyString fooBar (Some (errorString "exit status 1")) in
  exists e log b d',
    run w [] "sh" [] = Ret e log /\
    RunErr e = Some (errorString "exit status 1") /\
    Details (Err (fst (MarshalError e))) = Some (Some fooBar) /\
    Message (Err (fst (MarshalError e))) = "An error occured while running your script" /\
    snd (MarshalError e) = Some b /\
    Json.parse b = Some (Json.JObject (fields defaultErr ++ [("details", d')])) /\
    sameJSON (Json.JObject [("foo", Json.JString "bar")]) d'.
Proof.
  intros w.
  destruct (Exec_returns w (NewExec [] "sh" []) []) as (e & log & Hrun).
  assert (Herr : RunErr e = Some (errorString "exit status 1")).
  { revert Hrun. step_calls. by intros [= <- _]. }
  assert (Hstderr : ReadErr e = Some fooBar).
  { revert Hrun. step_calls. by intros [= <- _]. }
  destruct (MarshalError_payload w [] "sh" [] e log _ Hrun Herr) as (Hone & _).
  destruct (Hone eq_refl) as (Hdetails & Hmessage & _ & Hdoc).
  destruct (Hdoc (Json.JObject [("foo", Json.JString "bar")]))
    as (b & d' & Hbody & Hparse & Hsame).
  { by rewrite Hstderr. }
  exists e, log, b, d'. rewrite Hdetails, Hmessage, Hstderr. auto 10.
Defined.

(** The body for that child: the document of the template, with the object
    of the error stream as [details], laid out anew by [MarshalIndent]. *)
Example StatusBody_fooBar :
  exists e log b,
    run (childExits EmptyString fooBar (Some (errorString "exit status 1"))) [] "sh" [] =
      Ret e log /\
    snd (StatusBody e) = Some b /\
    Json.parse b =
      Some (Json.JObject
              (fields defaultErr ++
               [("details", Json.JObject [("foo", Json.JString "bar")])])).
Proof. do 3 eexists. split; [reflexivity|]. split; [reflexivity|]. vm_compute. reflexivity. Qed.

(** C4, amended: after an invocation that set a run error, [StatusBody] is
    a structured-error document, not empty, that decodes and carries a
    message that is not empty, in every case but one.  When the text of the
    run error is exactly [exit status 1] and the captured error stream is
    not a JSON text, the encoder fails and [StatusBody] is the nil slice.
    Otherwise the message is the text of the run error, or the message of
    the template when the text is [exit status 1]. *)
Theorem StatusBody_of_failed_run (w : Answers) (environ : list string)
    (command : string) (args : list string) (e : ExecObj) (log : list Call)
    (err : error) :
  reportsText w ->
  run w environ command args = Ret e log ->
  RunErr e = Some err ->
  let body := snd (StatusBody e) in
  let stderrText := Json.RawMessage_MarshalJSON (ReadErr e) in
  (Error err <> "exit status 1" ->
     structuredError body /\
     exists b, body = Some b /\ decodesAsError b (Json.coerceUTF8 (Error err))) /\
  (Error err = "exit status 1" -> Json.parse stderrText <> None ->
     structuredError body /\
     exists b, body = Some b /\ decodesAsError b (Message defaultErr)) /\
  (Error err = "exit status 1" -> Json.parse stderrText = None ->
     body = None /\ ~ structuredError body).
Proof.
  intros Htext Hrun Herr body stderrText.
  destruct (run_outcome w environ command args) as (e' & log' & Hrun' & Hfirst & Htpl & _).
  rewrite Hrun in Hrun'. injection Hrun' as <- <-.
  assert (Hsays : Error err <> EmptyString).
  { apply (firstFailure_reportsText w); [exact Htext | congruence]. }
  assert (Hbody : body = snd (MarshalError e)).
  { subst body. unfold StatusBody, ErrorMsg. rewrite Herr.
    by destruct (String.eqb_spec (Error err) EmptyString). }
  rewrite Hbody. clear Hbody body.
  unfold MarshalError, ErrorMsg. rewrite Herr, Htpl.
  destruct (String.eqb_spec (Error err) "exit status 1") as [Hone|Hother];
    cbn [negb fst snd Err set_Err Name Url Message Details defaultErr].
  - split; [congruence|]. split; intros _.
    + intros Hvalid.
      destruct (MarshalIndent _) as [b|] eqn:Hb.
      * destruct (MarshalIndent_decodes _ _ Hb) as [Hne Hdec].
        cbn [Message] in Hdec.
        change (Json.coerceUTF8 "An error occured while running your script")
          with "An error occured while running your script" in Hdec.
        split; [|eauto]. exists b, "An error occured while running your script".
        split; [reflexivity|]. split; [exact Hne|]. split; [exact Hdec | discriminate].
      * apply MarshalIndent_fails in Hb as (raw & Hraw & Hnone).
        injection Hraw as <-. contradiction.
    + intros Hinvalid.
      destruct (MarshalIndent _) as [b|] eqn:Hb.
      * apply MarshalIndent_decodes in Hb as Hdec.
        unfold MarshalIndent in Hb. cbn [Details] in Hb.
        unfold stderrText in Hinvalid. rewrite Hinvalid in Hb. discriminate Hb.
      * split; [reflexivity|]. by intros (b & msg & [=] & _).
  - split; [intros _ | split; congruence].
    destruct (MarshalIndent _) as [b|] eqn:Hb.
    + destruct (MarshalIndent_decodes _ _ Hb) as [Hne Hdec]. cbn [Message] in Hdec.
      split; [|eauto]. exists b, (Json.coerceUTF8 (Error err)).
      split; [reflexivity|]. split; [exact Hne|].
      split; [exact Hdec | by apply coerceUTF8_nonempty].
    + apply MarshalIndent_fails in Hb as (raw & Hraw & _). discriminate Hraw.
Qed.

(** C4, as stated, fails for a child that exits with status 1 and has
    written to its error stream nothing, or something that is not JSON: the
    run error is set, and [StatusBody] is the nil slice. *)
Lemma StatusBody_can_be_empty :
  (exists e log,
     run (childExitsOne EmptyString) [] "false" [] = Ret e log /\
     RunErr e = Some (errorString "exit status 1") /\
     StatusCode e = 400 /\
     snd (StatusBody e) = None /\
     ~ structuredError (snd (StatusBody e))) /\
  (exists e log,
     run (childExitsOne "boom") [] "sh" [] = Ret e log /\
     RunErr e = Some (errorString "exit status 1") /\
     StatusCode e = 400 /\
     snd (StatusBody e) = None /\
     ~ structuredError (snd (StatusBody e))).
Proof.
  split; do 2 eexists; (split; [reflexivity|]); (split; [reflexivity|]);
    (split; [reflexivity|]); (split; [reflexivity|]);
    by intros (b & msg & [=] & _).
Qed.

(** C4, amended, on a command that cannot be started. *)
Lemma StatusBody_of_failed_run_witness :
  exists e log,
    run (childFailsToStart
           (errorString "fork/exec /no/such/file: no such file or directory"))
        [] "/no/such/file" [] = Ret e log /\
    structuredError (snd (StatusBody e)) /\
    exists b,
      snd (StatusBody e) = Some b /\
      decodesAsError b "fork/exec /no/such/file: no such file or directory".
Proof.
  set (w := childFailsToStart
              (errorString "fork/exec /no/such/file: no such file or directory")).
  assert (Htext : reportsText w).
  { intros err [H|[H|[H|[H|[H|[H|[H|[H|[]]]]]]]]]; try discriminate H.
    injection H as <-. discriminate. }
  destruct (Exec_returns w (NewExec [] "/no/such/file" []) []) as (e & log & Hrun).
  assert (Herr : RunErr e =
                 Some (errorString "fork/exec /no/such/file: no such file or directory")).
  { revert Hrun. step_calls. by intros [= <- _]. }
  destruct (StatusBody_of_failed_run w [] "/no/such/file" [] e log _ Htext Hrun Herr)
    as (Hother & _).
  destruct (Hother ltac:(discriminate)) as (Hdoc & b & Hb & Hdec).
  exists e, log. split; [exact Hrun|]. split; [exact Hdoc|]. exists b. by split.
Defined.

(** ** More on invocations *)

(** X1: [Exec] makes its calls in one order: the pipes of standard input,
    output and error, [Start], the callback with the input handle, the close
    of that handle, the read of standard output, the read of standard error,
    [Wait].  The calls of one invocation are the first ones of that order,
    up to the first that fails.  So the callback runs once, exactly when the
    child started and before the input is closed, and [Exec] closes neither
    of the two read handles. *)
Theorem Exec_calls_in_order (w : Answers) (environ : list string)
    (command : string) (args : list string) :
  exists e,
    run w environ command args = Ret e (take (callsMade w) callOrder) /\
    (CallFn (Some hStdin) ∈ take (callsMade w) callOrder <->
       openFailure w = None /\ onStart w = None) /\
    (CallClose hStdout ∉ take (callsMade w) callOrder) /\
    (CallClose hStderr ∉ take (callsMade w) callOrder).
Proof.
  unfold callsMade, callOrder, openFailure, orElse.
  split_answers w; eexists; (split; [reflexivity|]); simpl;
    (split; [split; [intros Hin; try (by split);
                     exfalso; revert Hin; not_called
                    | intros [? ?]; try discriminate; set_solver]
            | split; not_called]).
Qed.

(** X2: what [Read] leaves in the two buffers of a fresh runner.  [ReadOut]
    holds the bytes of standard output exactly when the invocation got as
    far as [Read] and the read of standard output went through; [ReadErr]
    holds the bytes of standard error exactly when both reads went through.
    In every other case the buffer is nil: bytes that came with a read error
    are dropped.  A failure of [Wait] leaves both buffers filled. *)
Theorem Exec_buffers (w : Answers) (environ : list string)
    (command : string) (args : list string) :
  exists e log,
    run w environ command args = Ret e log /\
    ReadOut e =
      (if reachesRead w && negb (failed (snd (onReadAll w hStdout)))
       then Some (fst (onReadAll w hStdout)) else None) /\
    ReadErr e =
      (if reachesRead w && negb (failed (snd (onReadAll w hStdout))) &&
          negb (failed (snd (onReadAll w hStderr)))
       then Some (fst (onReadAll w hStderr)) else None).
Proof.
  unfold reachesRead, openFailure, orElse.
  split_answers w; do 2 eexists; (split; [reflexivity|]); simpl; by split.
Qed.



(** X4: [Exec] sets the run error and never clears it.  On any object, fresh
    or not, the run error after the call is the first failure of the
    invocation if there is one and the run error from before otherwise: an
    object that carries an error keeps it through an invocation in which
    every step succeeds.  The error template and the command stay as they
    were. *)
Theorem Exec_never_clears_RunErr (w : Answers) (e0 : ExecObj) (log0 : list Call) :
  exists e log,
    Exec e0 w log0 = Ret e log /\
    RunErr e = orElse (firstFailure w) (RunErr e0) /\
    Err e = Err e0 /\
    Cmd e = Cmd e0.
Proof.
  unfold firstFailure, openFailure, drainFailure, orElse.
  split_answers w; do 2 eexists; (split; [reflexivity|]); simpl; by repeat split.
Qed.

(** X5: [StatusBody] can be called again.  The first call may write to the
    error template; a second call on the object it leaves returns the same
    body and leaves the same object.  No call touches the run error or the
    two buffers. *)
Theorem StatusBody_idempotent (e : ExecObj) :
  StatusBody (fst (StatusBody e)) = StatusBody e /\
  RunErr (fst (StatusBody e)) = RunErr e /\
  ReadOut (fst (StatusBody e)) = ReadOut e /\
  ReadErr (fst (StatusBody e)) = ReadErr e.
Proof.
  unfold StatusBody.
  destruct (String.eqb (ErrorMsg e) EmptyString) eqn:Hempty.
  - simpl. by rewrite Hempty.
  - unfold MarshalError.
    destruct (String.eqb (ErrorMsg e) "exit status 1") eqn:Hone; simpl;
      unfold ErrorMsg in *; simpl; rewrite Hempty, Hone; simpl; by repeat split.
Qed.

(** X6: a runner that was never invoked looks like a success.  [StatusCode]
    is 200 and [StatusBody] is the nil slice, and [Close] panics, for the
    handles are nil. *)
Theorem NewExec_before_Exec (environ : list string) (command : string)
    (args : list string) (w : Answers) (log : list Call) :
  let e := NewExec environ command args in
  StatusCode e = 200 /\
  StatusBody e = (e, None) /\
  Close e w log = Panic log.
Proof. by repeat split. Qed.


(** ** More on the body of a failed run *)

Lemma StatusBody_exit_status_1 (e : ExecObj) :
  ErrorMsg e = "exit status 1" ->
  snd (StatusBody e) =
    MarshalIndent {| Name := Name (Err e); Url := Url (Err e);
                     Message := Message (Err e); Details := Some (ReadErr e) |}.
Proof. unfold StatusBody, MarshalError. by intros ->. Qed.

(** X7: what arrives in [details].  When the text of the run error is
    [exit status 1] and the captured error stream is a JSON text, the body
    is the document of the three strings of the template followed by the
    member [details], and [details] says what the error stream said: the
    same objects and arrays, the same number literals, and strings and keys
    that denote the same strings.  The bytes are not the child's: the text
    is laid out anew and [<], [>], [&] are written as escapes. *)
Theorem StatusBody_details_same_JSON (e : ExecObj) (d : Json.value) :
  ErrorMsg e = "exit status 1" ->
  Json.parse (Json.RawMessage_MarshalJSON (ReadErr e)) = Some d ->
  exists b d',
    snd (StatusBody e) = Some b /\
    Json.parse b = Some (Json.JObject (fields (Err e) ++ [("details", d')])) /\
    sameJSON d d'.
Proof.
  intros Hone Hraw. rewrite (StatusBody_exit_status_1 _ Hone).
  unfold MarshalIndent. cbn [Details]. rewrite Hraw.
  pose proof (parse_wf _ _ Hraw) as Hwf.
  eexists _, (Json.compact d). split; [reflexivity|]. split.
  - apply parse_render.
    apply (fields_wf {| Name := Name (Err e); Url := Url (Err e);
                        Message := Message (Err e); Details := Some (ReadErr e) |}).
    constructor; [|constructor].
    split; [by apply Token_literal | by apply compact_wf].
  - by apply sameJSON_compact.
Qed.

(** X7 on a child that exits with status 1 after it wrote [lessThan] to
    its error stream. *)
Lemma StatusBody_details_same_JSON_witness :
  exists e log b,
    run (childExitsOne lessThan) [] "sh" [] = Ret e log /\
    snd (StatusBody e) = Some b /\
    Json.parse b =
      Some (Json.JObject
              (fields defaultErr ++
               [("details", Json.JObject [("msg", Json.JString "a\u003cb")])])) /\
    Json.unquote "a\u003cb" = Some "a<b".
Proof.
  destruct (Exec_returns (childExitsOne lessThan) (NewExec [] "sh" []) [])
    as (e & log & Hrun).
  assert (He : e = set_RunErr (Some (errorString "exit status 1"))
                     (set_ReadErr (Some lessThan)
                        (set_ReadOut (Some EmptyString)
                           (set_stderr (Some hStderr)
                              (set_stdout (Some hStdout)
                                 (set_stdin (Some hStdin) (NewExec [] "sh" []))))))).
  { revert Hrun. step_calls. by intros [= <- _]. }
  destruct (StatusBody_details_same_JSON e
              (Json.JObject [("msg", Json.JString "a<b")]))
    as (b & d' & Hbody & Hparse & _).
  - by rewrite He.
  - by rewrite He.
  - exists e, log, b. split; [exact Hrun|]. split; [exact Hbody|].
    split; [|reflexivity].
    rewrite He in Hbody. vm_compute in Hbody. injection Hbody as <-.
    vm_compute. reflexivity.
Defined.

(** X8: the body of a failed run is safe to put into HTML.  Whatever the
    text of the run error and whatever the child wrote to its error stream,
    the document that [StatusBody] returns for a run error has none of the
    bytes [<], [>] and [&]: the encoder writes them as [\\u003c], [\\u003e]
    and [\\u0026], in [details] too. *)
Theorem StatusBody_error_htmlFree (e : ExecObj) (b : string) :
  ErrorMsg e <> EmptyString ->
  snd (StatusBody e) = Some b ->
  htmlFree b = true.
Proof.
  intros Hmsg. unfold StatusBody.
  destruct (String.eqb_spec (ErrorMsg e) EmptyString) as [?|_]; [contradiction|].
  unfold MarshalError.
  assert (Hfields : forall v more,
            Forall (fun m => htmlFree (fst m) = true /\ clean (snd m)) more ->
            htmlFree (Json.render 0 (Json.JObject (fields v ++ more))) = true).
  { intros v more Hmore. apply htmlFree_render, clean_object. unfold fields. simpl.
    repeat (constructor; [split; [reflexivity | apply htmlFree_encodeString]|]).
    exact Hmore. }
  destruct (negb _); cbn [fst snd Err set_Err]; unfold MarshalIndent; cbn [Details].
  - destruct (Details (Err e)) as [raw|].
    + destruct (Json.parse _) as [d|] eqn:Hraw; [|discriminate].
      intros Hb. apply (inj Some) in Hb. subst b. apply Hfields.
      constructor; [|constructor].
      split; [reflexivity | by apply clean_compact, (parse_wf _ _ Hraw)].
    + intros Hb. apply (inj Some) in Hb. subst b.
      rewrite <- (app_nil_r (fields _)). apply Hfields. constructor.
  - destruct (Json.parse _) as [d|] eqn:Hraw; [|discriminate].
    intros Hb. apply (inj Some) in Hb. subst b. apply Hfields.
    constructor; [|constructor].
    split; [reflexivity | by apply clean_compact, (parse_wf _ _ Hraw)].
Qed.

(** X8 on a child that exits with status 1 after it wrote [lessThan] to
    its error stream: the [<] of the error stream is not in the body. *)
Lemma StatusBody_error_htmlFree_witness :
  exists e log b,
    run (childExitsOne lessThan) [] "sh" [] = Ret e log /\
    snd (StatusBody e) = Some b /\
    htmlFree b = true /\
    htmlFree lessThan = false.
Proof.
  destruct (Exec_returns (childExitsOne lessThan) (NewExec [] "sh" []) [])
    as (e & log & Hrun).
  assert (He : e = set_RunErr (Some (errorString "exit status 1"))
                     (set_ReadErr (Some lessThan)
                        (set_ReadOut (Some EmptyString)
                           (set_stderr (Some hStderr)
                              (set_stdout (Some hStdout)
                                 (set_stdin (Some hStdin) (NewExec [] "sh" []))))))).
  { revert Hrun. step_calls. by intros [= <- _]. }
  destruct (snd (StatusBody e)) as [b|] eqn:Hbody;
    [|rewrite He in Hbody; vm_compute in Hbody; discriminate Hbody].
  exists e, log, b. split; [exact Hrun|]. split; [exact Hbody|].
  split; [|reflexivity].
  apply (StatusBody_error_htmlFree e b); [by rewrite He | exact Hbody].
Defined.
(* ===================================================================== *)
(** * The guard *)
(* ===================================================================== *)

Lemma Sprintf_d (n : Z) : Sprintf "%d" n = Strconv.FormatInt n.
Proof. simpl. apply append_empty_r. Qed.

Lemma NewError_conflict (p : Z) :
  NewError "Pid '%d' already exists, will not run" p = conflict p.
Proof. reflexivity. Qed.

(** A write that cannot open the file leaves the world as it is. *)
Lemma claimed_refused (pidFile : string) (w : World) :
  onWrite w pidFile <> None -> claimed pidFile w = w.
Proof. unfold claimed, ioutil_WriteFile. by destruct (onWrite w pidFile). Qed.

(** A write that goes through leaves the file with the PID, in the mode it
    had. *)
Lemma claimed_written (pidFile : string) (w : World) :
  onWrite w pidFile = None ->
  files (claimed pidFile w) =
    <[pidFile := {| content := Strconv.FormatInt (pid w);
                    readable := match files w !! pidFile with
                                | Some f => readable f
                                | None => true
                                end |}]> (files w).
Proof. unfold claimed, ioutil_WriteFile. by intros ->. Qed.



Lemma claimed_onWrite (pidFile : string) (w : World) :
  onWrite (claimed pidFile w) = onWrite w.
Proof. unfold claimed, ioutil_WriteFile. by destruct (onWrite w pidFile). Qed.


(** [CheckPid] on a lock file that is not there. *)
Lemma CheckPid_absent (pidFile : string) (w : World) :
  files w !! pidFile = None ->
  CheckPid pidFile w = (claimed pidFile w, (pid w, None)).
Proof.
  intros Habsent. unfold CheckPid, os_Stat, claimed, os_Getpid.
  rewrite Habsent, Sprintf_d. by destruct (ioutil_WriteFile _ _ _).
Qed.

(** [CheckPid] on a lock file that is there: the three ways out. *)
Lemma CheckPid_present (pidFile : string) (w : World) :
  is_Some (files w !! pidFile) ->
  CheckPid pidFile w =
    let rec := recordedPid pidFile w in
    if pid w =? rec then (w, (pid w, None))
    else if notAlive (probe w rec) then (claimed pidFile w, (pid w, None))
    else (w, (rec, Some (conflict rec))).
Proof.
  intros [f Hf]. unfold CheckPid, os_Stat, recordedPid, claimed, os_Getpid, notAlive.
  rewrite Hf, Sprintf_d.
  destruct (ioutil_WriteFile _ _ _) as [w' werr].
  destruct (ioutil_ReadFile pidFile w) as [b rerr]. simpl.
  destruct (Strconv.ParseInt (string_of_bytes b)) as [rec perr]. simpl.
  destruct (pid w =? rec); [reflexivity|].
  destruct (probe w rec) as [err|]; [|reflexivity].
  by destruct (_ || _).
Qed.




(** C7: the lock file exists and records a PID other than the caller's; the
    probe fails, and its text has neither [already finished] nor
    [no such process] in it.  [CheckPid] then returns the recorded PID and
    the error that names it, and writes nothing. *)
Theorem CheckPid_fails_closed (pidFile : string) (w : World) (err : error) :
  is_Some (files w !! pidFile) ->
  recordedPid pidFile w <> pid w ->
  probe w (recordedPid pidFile w) = Some err ->
  Strings.Contains (Error err) "already finished" = false ->
  Strings.Contains (Error err) "no such process" = false ->
  CheckPid pidFile w =
    (w, (recordedPid pidFile w, Some (conflict (recordedPid pidFile w)))).
Proof.
  intros Hfile Hother Hprobe Hfin Hnone. rewrite (CheckPid_present _ _ Hfile). cbv zeta.
  destruct (Z.eqb_spec (pid w) (recordedPid pidFile w)) as [Heq|_]; [congruence|].
  by rewrite Hprobe; simpl; rewrite Hfin, Hnone.
Qed.

(** C7 on a lock file that records PID 42, the probe being refused. *)
Lemma CheckPid_fails_closed_witness :
  CheckPid lockFile (world (Some (textFile "42")) probeRefused) =
    (world (Some (textFile "42")) probeRefused,
     (42, Some (errorString "Pid '42' already exists, will not run"))).
Proof.
  refine (CheckPid_fails_closed lockFile (world (Some (textFile "42")) probeRefused)
            (errorString "operation not permitted") _ _ eq_refl eq_refl eq_refl).
  - vm_compute. eauto.
  - vm_compute. discriminate.
Defined.





Lemma recordedPid_unreadable (pidFile : string) (w : World) (f : File) :
  files w !! pidFile = Some f -> readable f = false -> recordedPid pidFile w = 0.
Proof. unfold recordedPid, ioutil_ReadFile. by intros -> ->. Qed.

Lemma recordedPid_readable (pidFile : string) (w : World) (f : File) :
  files w !! pidFile = Some f -> readable f = true ->
  recordedPid pidFile w = fst (Strconv.ParseInt (content f)).
Proof. unfold recordedPid, ioutil_ReadFile. by intros -> ->. Qed.




(** C10, as stated, fails when the content overflows [int64]: [ParseInt]
    reports a range error, which [CheckPid] drops like any other, but the
    PID it returns with that error is the largest [int64], not 0.  The first
    content is not even a number; the loop of [ParseUint] meets the overflow
    before it meets the letter. *)
Lemma garbage_not_resolved_by_pid_zero :
  let w := world (Some (textFile "99999999999999999999x")) probeRefused in
  let w' := world (Some (textFile "9223372036854775808")) probeRefused in
  snd (Strconv.ParseInt "99999999999999999999x") = Some Strconv.ErrRange /\
  snd (Strconv.ParseInt "9223372036854775808") = Some Strconv.ErrRange /\
  CheckPid lockFile w =
    (w, (9223372036854775807,
         Some (errorString "Pid '9223372036854775807' already exists, will not run"))) /\
  CheckPid lockFile w' =
    (w', (9223372036854775807,
          Some (errorString "Pid '9223372036854775807' already exists, will not run"))) /\
  ~ resolvedByPidZero lockFile w /\
  ~ resolvedByPidZero lockFile w'.
Proof.
  intros w w'.
  do 4 (split; [reflexivity|]).
  split; intros [Hzero _]; vm_compute in Hzero; discriminate.
Qed.

(** C10, amended: a lock file that exists but cannot be read, or whose
    content [ParseInt] rejects, never makes [CheckPid] return a read or parse
    error.  The recorded PID is 0 when the file cannot be read or the
    content is a syntax error, and the nearest bound of [int64] when the
    content is a range error.  If that PID is not the caller's own, the call
    is settled by the probe of that PID alone: the caller's PID is written
    when the probe says the process is gone, and the conflict names the
    recorded PID otherwise. *)
Theorem CheckPid_garbage_lock_file (pidFile : string) (w : World) (f : File) :
  files w !! pidFile = Some f ->
  readable f = false \/ snd (Strconv.ParseInt (content f)) <> None ->
  let rec := recordedPid pidFile w in
  (readable f = false \/ snd (Strconv.ParseInt (content f)) = Some Strconv.ErrSyntax ->
     rec = 0) /\
  (readable f = true -> snd (Strconv.ParseInt (content f)) = Some Strconv.ErrRange ->
     rec = maxInt64 \/ rec = minInt64) /\
  (rec = pid w -> CheckPid pidFile w = (w, (pid w, None))) /\
  (rec <> pid w ->
     CheckPid pidFile w =
       if notAlive (probe w rec) then (claimed pidFile w, (pid w, None))
       else (w, (rec, Some (conflict rec)))).
Proof.
  intros Hf Hbad rec. subst rec.
  assert (Hfile : is_Some (files w !! pidFile)) by (rewrite Hf; eauto).
  repeat split.
  - intros [Hmode|Hsyntax]; [by apply (recordedPid_unreadable _ _ f)|].
    destruct (readable f) eqn:Hmode; [|by apply (recordedPid_unreadable _ _ f)].
    rewrite (recordedPid_readable _ _ _ Hf Hmode).
    revert Hsyntax. unfold Strconv.ParseInt.
    destruct (content f) as [|c s]; [reflexivity|].
    destruct (Strconv.ParseUint _) as [un [[]|]]; simpl; try reflexivity;
      repeat (destruct (_ && _); simpl); discriminate.
  - intros Hmode Hrange. rewrite (recordedPid_readable _ _ _ Hf Hmode).
    revert Hrange. unfold Strconv.ParseInt, maxInt64, minInt64.
    destruct (content f) as [|c s]; [discriminate|].
    destruct (Strconv.ParseUint _) as [un [[]|]]; simpl; try discriminate;
      repeat (destruct (_ && _); simpl); try discriminate; auto.
  - intros Hown. rewrite (CheckPid_present _ _ Hfile). cbv zeta.
    by rewrite Hown, Z.eqb_refl.
  - intros Hother. rewrite (CheckPid_present _ _ Hfile). cbv zeta.
    by destruct (Z.eqb_spec (pid w) (recordedPid pidFile w)); [congruence|].
Qed.

(** C10, amended, on a lock file that holds no number, the probe being
    refused. *)
Lemma CheckPid_garbage_lock_file_witness :
  let w := world (Some (textFile "not a pid")) probeRefused in
  recordedPid lockFile w = 0 /\
  CheckPid lockFile w =
    (w, (0, Some (errorString "Pid '0' already exists, will not run"))).
Proof.
  intros w.
  assert (Hbad : readable (textFile "not a pid") = false \/
                 snd (Strconv.ParseInt (content (textFile "not a pid"))) <> None)
    by (right; discriminate).
  destruct (CheckPid_garbage_lock_file lockFile w (textFile "not a pid") eq_refl Hbad)
    as (Hzero & _ & _ & Hprobe).
  assert (Hrec : recordedPid lockFile w = 0) by (apply Hzero; right; reflexivity).
  split; [exact Hrec|].
  rewrite Hprobe by (rewrite Hrec; discriminate).
  by rewrite Hrec.
Defined.

(** ** More on the guard *)

(** X9: [CheckPid] returns an error exactly when the PID it returns is not
    the caller's.  The only error it ever returns is the conflict that names
    the PID returned; then a lock file exists, the PID is the one read from
    it, and nothing was written. *)
Theorem CheckPid_error_iff_other_owner (pidFile : string) (w : World) :
  let r := CheckPid pidFile w in
  (snd (snd r) = None <-> fst (snd r) = pid w) /\
  (forall err, snd (snd r) = Some err ->
     err = conflict (fst (snd r)) /\
     fst r = w /\
     fst (snd r) = recordedPid pidFile w /\
     is_Some (files w !! pidFile)).
Proof.
  intros r. subst r.
  destruct (files w !! pidFile) as [f|] eqn:Hf.
  - assert (Hfile : is_Some (files w !! pidFile)) by (rewrite Hf; eauto).
    rewrite (CheckPid_present _ _ Hfile). cbv zeta.
    destruct (Z.eqb_spec (pid w) (recordedPid pidFile w)) as [Hown|Hother]; simpl.
    + split; [done|]. intros err [=].
    + destruct (notAlive _); simpl.
      * split; [done|]. intros err [=].
      * split; [split; [discriminate | congruence]|].
        intros err [= <-]. by rewrite <- Hf.
  - rewrite (CheckPid_absent _ _ Hf). simpl. split; [done|]. intros err [=].
Qed.



(** After a call without error whose write, if there was one, went
    through, the lock file is there and, if it can be read, records the
    caller. *)
Lemma CheckPid_records_owner (pidFile : string) (w w1 : World) :
  is_int64 (pid w) ->
  onWrite w pidFile = None ->
  CheckPid pidFile w = (w1, (pid w, None)) ->
  (forall f, files w1 !! pidFile = Some f -> readable f = true) ->
  is_Some (files w1 !! pidFile) /\ recordedPid pidFile w1 = pid w.
Proof.
  intros Hpid Hwrite Hfirst Hmode.
  assert (Hclaimed : is_Some (files (claimed pidFile w) !! pidFile) /\
                     (w1 = claimed pidFile w -> recordedPid pidFile w1 = pid w)).
  { pose proof (claimed_written _ _ Hwrite) as Hfiles.
    assert (Hlock : files (claimed pidFile w) !! pidFile =
                    Some {| content := Strconv.FormatInt (pid w);
                            readable := match files w !! pidFile with
                                        | Some f => readable f
                                        | None => true
                                        end |})
      by (by rewrite Hfiles, lookup_insert_eq).
    split; [rewrite Hlock; eauto|]. intros ->.
    rewrite (recordedPid_readable _ _ _ Hlock (Hmode _ Hlock)). simpl.
    by rewrite ParseInt_FormatInt. }
  destruct (files w !! pidFile) as [f|] eqn:Hf.
  - assert (Hfile : is_Some (files w !! pidFile)) by (rewrite Hf; eauto).
    rewrite (CheckPid_present _ _ Hfile) in Hfirst. cbv zeta in Hfirst.
    destruct (Z.eqb_spec (pid w) (recordedPid pidFile w)) as [Hown|Hother].
    + injection Hfirst as <-. by split.
    + destruct (notAlive _); [|injection Hfirst as _ Hbad; congruence].
      injection Hfirst as <-. split; [apply Hclaimed | by apply Hclaimed].
  - rewrite (CheckPid_absent _ _ Hf) in Hfirst. injection Hfirst as <-.
    split; [apply Hclaimed | by apply Hclaimed].
Qed.

(** X11: the guard excludes a second process.  Once [CheckPid] has returned
    without error to a process, another process that calls it on the same
    files, while its probe does not say that the first is gone, gets the
    PID of the first and the conflict that names it, and the lock file stays
    as the first process left it.  The lock file has to be one that can be
    written and read, and the PID of the first process an [int64]. *)
Theorem CheckPid_excludes_second_process (pidFile : string) (w w1 : World)
    (p : Z) (alive : Z -> option error) :
  is_int64 (pid w) ->
  onWrite w pidFile = None ->
  CheckPid pidFile w = (w1, (pid w, None)) ->
  (forall f, files w1 !! pidFile = Some f -> readable f = true) ->
  p <> pid w ->
  notAlive (alive (pid w)) = false ->
  CheckPid pidFile (seenBy p alive w1) =
    (seenBy p alive w1, (pid w, Some (conflict (pid w)))).
Proof.
  intros Hpid Hwrite Hfirst Hmode Hp Halive.
  destruct (CheckPid_records_owner _ _ _ Hpid Hwrite Hfirst Hmode) as [Hfile Hrec].
  assert (Hseen : recordedPid pidFile (seenBy p alive w1) = pid w) by exact Hrec.
  rewrite CheckPid_present by exact Hfile. cbv zeta. rewrite Hseen.
  change (pid (seenBy p alive w1)) with p.
  change (probe (seenBy p alive w1)) with alive.
  destruct (Z.eqb_spec p (pid w)) as [?|_]; [congruence|].
  by rewrite Halive.
Qed.

(** X11 on an empty directory: process 100 takes the lock, then process 200
    is turned away while 100 is alive. *)
Lemma CheckPid_excludes_second_process_witness :
  let w := world None (onlyAlive 42) in
  let w1 := claimed lockFile w in
  CheckPid lockFile w = (w1, (100, None)) /\
  CheckPid lockFile (seenBy 200 (onlyAlive 100) w1) =
    (seenBy 200 (onlyAlive 100) w1,
     (100, Some (errorString "Pid '100' already exists, will not run"))).
Proof.
  intros w w1.
  assert (Hpid : is_int64 (pid w)) by (unfold is_int64, minInt64, maxInt64; simpl; lia).
  assert (Hfirst : CheckPid lockFile w = (w1, (pid w, None))) by reflexivity.
  split; [exact Hfirst|].
  refine (CheckPid_excludes_second_process lockFile w w1 200 (onlyAlive 100)
            Hpid eq_refl Hfirst _ ltac:(discriminate) eq_refl).
  intros f Hf. vm_compute in Hf. by injection Hf as <-.
Defined.



(** X12: the lock file reads back.  The decimal text that [CheckPid] writes
    for a PID is what its parser turns into that PID again, without error,
    for every [int64].  After a call that returned without error, the PID
    that the next call would take from the lock file is the caller's,
    provided the file can be read and the write, if the call made one, went
    through; a call whose write is refused leaves the files as they were,
    and with them whatever PID the lock file recorded. *)
Theorem lock_file_round_trip (pidFile : string) (w w1 : World) :
  is_int64 (pid w) ->
  CheckPid pidFile w = (w1, (pid w, None)) ->
  (forall f, files w1 !! pidFile = Some f -> readable f = true) ->
  Strconv.ParseInt (Sprintf "%d" (pid w)) = (pid w, None) /\
  (onWrite w pidFile = None -> recordedPid pidFile w1 = pid w) /\
  (onWrite w pidFile <> None ->
     w1 = w /\ recordedPid pidFile w1 = recordedPid pidFile w).
Proof.
  intros Hpid Hfirst Hmode. split; [|split].
  - rewrite Sprintf_d. by apply ParseInt_FormatInt.
  - intros Hwrite. by apply (CheckPid_records_owner _ _ _ Hpid Hwrite Hfirst Hmode).
  - intros Hrefused.
    assert (Hsame : w1 = w); [|by rewrite Hsame].
    destruct (files w !! pidFile) as [f|] eqn:Hf.
    + assert (Hfile : is_Some (files w !! pidFile)) by (rewrite Hf; eauto).
      rewrite (CheckPid_present _ _ Hfile), (claimed_refused _ _ Hrefused) in Hfirst.
      cbv zeta in Hfirst.
      destruct (pid w =? recordedPid pidFile w); [by injection Hfirst|].
      destruct (notAlive _); by injection Hfirst.
    + rewrite (CheckPid_absent _ _ Hf), (claimed_refused _ _ Hrefused) in Hfirst.
      by injection Hfirst.
Qed.

(** X12 on a stale lock file that the caller takes over, and on the same
    file where it cannot be written: there the call returns without error
    and the file still records the process that is gone. *)
Lemma lock_file_round_trip_witness :
  (let w := world (Some (textFile "42")) (onlyAlive 7) in
   CheckPid lockFile w = (claimed lockFile w, (100, None)) /\
   contentOf lockFile (claimed lockFile w) = Some "100" /\
   recordedPid lockFile (claimed lockFile w) = 100) /\
  (let w := readOnly (world (Some (textFile "42")) (onlyAlive 7)) in
   CheckPid lockFile w = (w, (100, None)) /\
   recordedPid lockFile w = 42).
Proof.
  split; intros w.
  - assert (Hpid : is_int64 (pid w))
      by (unfold is_int64, minInt64, maxInt64; simpl; lia).
    assert (Hfirst : CheckPid lockFile w = (claimed lockFile w, (pid w, None)))
      by reflexivity.
    destruct (lock_file_round_trip lockFile w (claimed lockFile w) Hpid Hfirst)
      as (_ & Hrec & _).
    + intros f Hf. vm_compute in Hf. by injection Hf as <-.
    + split; [exact Hfirst | split; [reflexivity | exact (Hrec eq_refl)]].
  - assert (Hpid : is_int64 (pid w))
      by (unfold is_int64, minInt64, maxInt64; simpl; lia).
    assert (Hfirst : CheckPid lockFile w = (w, (pid w, None))) by reflexivity.
    destruct (lock_file_round_trip lockFile w w Hpid Hfirst) as (_ & _ & Hkept).
    + intros f Hf. vm_compute in Hf. by injection Hf as <-.
    + split; [exact Hfirst | reflexivity].
Defined.

(** ** What the guard reads *)

Lemma prefix_append (sub s : string) :
  String.prefix sub s = true <-> exists post, s = sub +:+ post.
Proof.
  revert s. induction sub as [|a sub IH]; intros s.
  - split; [intros _; by exists s | intros _; by destruct s].
  - destruct s as [|b s]; simpl.
    + split; [discriminate | by intros [post [=]]].
    + destruct (ascii_dec a b) as [->|Hne].
      * rewrite IH. split; intros [post Hpost]; exists post.
        -- by rewrite append_cons, Hpost.
        -- rewrite append_cons in Hpost. by injection Hpost.
      * split; [done|]. intros [post Hpost]. rewrite append_cons in Hpost.
        injection Hpost as Hab _. congruence.
Qed.

(** [Contains] finds [sub] wherever it stands in [s]. *)
Lemma Contains_append (s sub : string) :
  Strings.Contains s sub = true <-> exists pre post, s = pre +:+ sub +:+ post.
Proof.
  induction s as [|c s IH].
  - cbn [Strings.Contains]. rewrite orb_false_r, prefix_append. split.
    + intros [post Hpost]. by exists EmptyString, post.
    + intros (pre & post & Hs). destruct pre as [|a pre]; [by exists post|].
      rewrite append_cons in Hs. discriminate Hs.
  - cbn [Strings.Contains]. rewrite orb_true_iff, prefix_append, IH. split.
    + intros [[post Hpost]|(pre & post & Hs)].
      * by exists EmptyString, post.
      * exists (String c pre), post. by rewrite append_cons, Hs.
    + intros (pre & post & Hs). destruct pre as [|a pre].
      * left. by exists post.
      * right. rewrite append_cons in Hs. injection Hs as _ Hs. by exists pre, post.
Qed.

(** X13: when the lock file records the PID of another process, [CheckPid]
    takes the lock over exactly when the probe of that PID fails with a text
    that has [already finished] or [no such process] somewhere in it,
    whatever stands before and after; in every other case it returns the
    conflict. *)
Theorem CheckPid_takes_over_iff (pidFile : string) (w : World) :
  is_Some (files w !! pidFile) ->
  recordedPid pidFile w <> pid w ->
  (CheckPid pidFile w = (claimed pidFile w, (pid w, None)) <->
   exists err pre post,
     probe w (recordedPid pidFile w) = Some err /\
     (Error err = pre +:+ "already finished" +:+ post \/
      Error err = pre +:+ "no such process" +:+ post)) /\
  (CheckPid pidFile w = (claimed pidFile w, (pid w, None)) \/
   CheckPid pidFile w =
     (w, (recordedPid pidFile w, Some (conflict (recordedPid pidFile w))))).
Proof.
  intros Hfile Hother. rewrite (CheckPid_present _ _ Hfile). cbv zeta.
  destruct (Z.eqb_spec (pid w) (recordedPid pidFile w)) as [?|_]; [congruence|].
  assert (Hgone : notAlive (probe w (recordedPid pidFile w)) = true <->
            exists err pre post,
              probe w (recordedPid pidFile w) = Some err /\
              (Error err = pre +:+ "already finished" +:+ post \/
               Error err = pre +:+ "no such process" +:+ post)).
  { unfold notAlive. destruct (probe w _) as [err|].
    - rewrite orb_true_iff, !Contains_append. split.
      + intros [(pre & post & H)|(pre & post & H)]; exists err, pre, post; auto.
      + intros (err' & pre & post & [= <-] & [H|H]); [left | right]; eauto.
    - split; [done | by intros (err & _ & _ & [=] & _)]. }
  destruct (notAlive _) eqn:Hn.
  - split; [|by left]. split; [intros _; by apply Hgone | done].
  - split; [|by right]. split; [intros [=] | intros H%Hgone; discriminate H].
Qed.

(** X13 on a probe that fails with the text of the kernel behind a prefix. *)
Lemma CheckPid_takes_over_iff_witness :
  let w := world (Some (textFile "42"))
             (fun _ => Some (errorString "kill 42: no such process")) in
  CheckPid lockFile w = (claimed lockFile w, (100, None)).
Proof.
  intros w.
  assert (Hfile : is_Some (files w !! lockFile)) by (vm_compute; eauto).
  assert (Hother : recordedPid lockFile w <> pid w) by (vm_compute; discriminate).
  apply (proj1 (CheckPid_takes_over_iff lockFile w Hfile Hother)).
  exists (errorString "kill 42: no such process"), "kill 42: ", EmptyString.
  split; [reflexivity | right; reflexivity].
Defined.

Lemma digitsValue_ge (s : string) (acc : Z) :
  allDigits s = true -> 0 <= acc -> acc <= digitsValue s acc.
Proof.
  revert acc. induction s as [|c s IH]; intros acc; cbn [allDigits digitsValue]; [lia|].
  intros [Hc%between_range Hs]%andb_true_iff Hacc.
  specialize (IH (10 * acc + (byte_val c - 48)) Hs). lia.
Qed.

(** The loop of [ParseUint] on digits: their value, or the range error as
    soon as the value passes [maxUint64]. *)
Lemma parseDigits_value (s : string) (n : Z) :
  allDigits s = true -> 0 <= n <= maxUint64 ->
  Strconv.parseDigits s n =
    if digitsValue s n <=? maxUint64 then (digitsValue s n, None)
    else (maxUint64, Some Strconv.ErrRange).
Proof.
  revert n. induction s as [|c s IH]; intros n; cbn [allDigits digitsValue].
  - intros _ Hn. cbn [Strconv.parseDigits].
    by destruct (Z.leb_spec n maxUint64); [|lia].
  - intros [Hc Hs]%andb_true_iff Hn. cbn [Strconv.parseDigits].
    change (byte_val "0") with 48. change (byte_val "9") with 57.
    pose proof (between_range _ _ _ Hc) as Hd.
    unfold Json.isDigit, Utf8.between in Hc. rewrite Hc.
    pose proof (digitsValue_ge s (10 * n + (byte_val c - 48)) Hs ltac:(lia)) as Hge.
    unfold maxUint64 in *.
    destruct (Z.leb_spec ((2 ^ 64 - 1) / 10 + 1) n) as [Hcut|Hcut].
    { destruct (Z.leb_spec (digitsValue s (10 * n + (byte_val c - 48))) (2 ^ 64 - 1));
        [|reflexivity].
      change ((2 ^ 64 - 1) / 10 + 1) with 1844674407370955162 in Hcut. lia. }
    change ((2 ^ 64 - 1) / 10 + 1) with 1844674407370955162 in Hcut.
    destruct (Z.leb_spec (10 * n + (byte_val c - 48)) (2 ^ 64 - 1)) as [Hfit|Hover].
    + rewrite (Z.mod_small (n * 10 + (byte_val c - 48)) (2 ^ 64)) by lia.
      destruct (Z.ltb_spec (n * 10 + (byte_val c - 48)) (n * 10)); [lia|].
      destruct (Z.ltb_spec (2 ^ 64 - 1) (n * 10 + (byte_val c - 48))); [lia|].
      cbn [orb]. replace (n * 10 + (byte_val c - 48)) with (10 * n + (byte_val c - 48)) by lia.
      apply IH; [exact Hs | lia].
    + assert (Hwrap : (n * 10 + (byte_val c - 48)) mod 2 ^ 64 =
                      n * 10 + (byte_val c - 48) - 2 ^ 64).
      { symmetry. apply (Z.mod_unique _ _ 1); lia. }
      rewrite Hwrap.
      destruct (Z.ltb_spec (n * 10 + (byte_val c - 48) - 2 ^ 64) (n * 10)); [|lia].
      cbn [orb].
      by destruct (Z.leb_spec (digitsValue s (10 * n + (byte_val c - 48))) (2 ^ 64 - 1));
        [lia|].
Qed.

(** [ParseInt] on digits after an optional sign. *)
Lemma ParseInt_digits (neg plus : bool) (ds : string) :
  ds <> EmptyString -> allDigits ds = true -> neg && plus = false ->
  let sign := if neg then "-" else if plus then "+" else EmptyString in
  let v := if neg then - digitsValue ds 0 else digitsValue ds 0 in
  Strconv.ParseInt (sign +:+ ds) =
    (clampInt64 v, if (minInt64 <=? v) && (v <=? maxInt64) then None
                   else Some Strconv.ErrRange).
Proof.
  intros Hne Hds Hsign sign v. subst sign v.
  destruct ds as [|c ds']; [done|].
  assert (Hc : Json.isDigit c = true) by (by apply andb_true_iff in Hds as [? _]).
  assert (Hplain : Ascii.eqb c "+" = false /\ Ascii.eqb c "-" = false).
  { split; apply (isDigit_not c (fun x => Ascii.eqb x _) Hc);
      intros d Hd; simpl in Hd; by repeat destruct Hd as [<-|Hd]. }
  destruct Hplain as [Hp Hm].
  assert (Huint : Strconv.ParseUint (String c ds') =
                  if digitsValue (String c ds') 0 <=? maxUint64
                  then (digitsValue (String c ds') 0, None)
                  else (maxUint64, Some Strconv.ErrRange)).
  { unfold Strconv.ParseUint. apply parseDigits_value; [exact Hds|].
    unfold maxUint64. lia. }
  pose proof (digitsValue_ge _ 0 Hds ltac:(lia)) as Hpos.
  set (V := digitsValue (String c ds') 0) in *.
  assert (Hgoal : forall isneg : bool,
            (let un := fst (Strconv.ParseUint (String c ds')) in
             match Strconv.ParseUint (String c ds') with
             | (_, Some Strconv.ErrSyntax) => (0, Some Strconv.ErrSyntax)
             | (un, _) =>
                 if negb isneg && (2 ^ 63 <=? un) then (2 ^ 63 - 1, Some Strconv.ErrRange)
                 else if isneg && (2 ^ 63 <? un) then (- 2 ^ 63, Some Strconv.ErrRange)
                 else (if isneg then - un else un, None)
             end) =
            (clampInt64 (if isneg then - V else V),
             if (minInt64 <=? (if isneg then - V else V)) &&
                ((if isneg then - V else V) <=? maxInt64)
             then None else Some Strconv.ErrRange)).
  { intros isneg. cbv zeta. rewrite Huint.
    unfold clampInt64, minInt64, maxInt64, maxUint64.
    destruct (Z.leb_spec V (2 ^ 64 - 1)); destruct isneg; cbn [negb andb];
      repeat match goal with
             | |- context [?a <=? ?b] => destruct (Z.leb_spec a b)
             | |- context [?a <? ?b] => destruct (Z.ltb_spec a b)
             end; cbn [andb]; try lia; f_equal; lia. }
  destruct neg, plus; try discriminate Hsign.
  - rewrite append_cons, append_nil_l. cbn [Strconv.ParseInt].
    change (Ascii.eqb "-" "-") with true. change (Ascii.eqb "-" "+") with false.
    cbn [orb]. exact (Hgoal true).
  - rewrite append_cons, append_nil_l. cbn [Strconv.ParseInt].
    change (Ascii.eqb "+" "-") with false. change (Ascii.eqb "+" "+") with true.
    cbn [orb]. exact (Hgoal false).
  - rewrite append_nil_l. cbn [Strconv.ParseInt]. rewrite Hp, Hm.
    cbn [orb]. exact (Hgoal false).
Qed.

(** X14: how [CheckPid] reads a lock file that holds a number.  If the file
    can be read and its content is decimal digits, with or without a sign
    before them, the recorded PID is the number written, leading zeros and a
    plus sign being allowed, if it is an [int64], and the nearest bound of
    [int64] if it is not. *)
Theorem recordedPid_decimal (pidFile : string) (w : World) (f : File)
    (neg plus : bool) (ds : string) :
  files w !! pidFile = Some f ->
  readable f = true ->
  ds <> EmptyString -> allDigits ds = true -> neg && plus = false ->
  content f = (if neg then "-" else if plus then "+" else EmptyString) +:+ ds ->
  recordedPid pidFile w = clampInt64 (if neg then - digitsValue ds 0 else digitsValue ds 0).
Proof.
  intros Hf Hmode Hne Hds Hsign Hcontent.
  rewrite (recordedPid_readable _ _ _ Hf Hmode), Hcontent.
  by rewrite (ParseInt_digits neg plus ds Hne Hds Hsign).
Qed.

(** X14 on three lock files: a PID with zeros and a plus sign before it, a
    number past the largest [int64], and one below the smallest. *)
Lemma recordedPid_decimal_witness :
  recordedPid lockFile (world (Some (textFile "+00100")) probeRefused) = 100 /\
  recordedPid lockFile (world (Some (textFile "18446744073709551616")) probeRefused) =
    maxInt64 /\
  recordedPid lockFile (world (Some (textFile "-9223372036854775809")) probeRefused) =
    minInt64.
Proof.
  split; [|split].
  - exact (recordedPid_decimal lockFile (world (Some (textFile "+00100")) probeRefused)
             (textFile "+00100") false true "00100"
             eq_refl eq_refl ltac:(discriminate) eq_refl eq_refl eq_refl).
  - exact (recordedPid_decimal lockFile
             (world (Some (textFile "18446744073709551616")) probeRefused)
             (textFile "18446744073709551616") false false "18446744073709551616"
             eq_refl eq_refl ltac:(discriminate) eq_refl eq_refl eq_refl).
  - exact (recordedPid_decimal lockFile
             (world (Some (textFile "-9223372036854775809")) probeRefused)
             (textFile "-9223372036854775809") true false "9223372036854775809"
             eq_refl eq_refl ltac:(discriminate) eq_refl eq_refl eq_refl).
Defined.

(** The loop of [ParseUint] on digits that do not pass [maxUint64] and a
    byte after them that is no digit: the syntax error. *)
Lemma parseDigits_garbage (ds : string) (c : ascii) (rest : string) (n : Z) :
  allDigits ds = true -> 0 <= n -> digitsValue ds n <= maxUint64 ->
  Json.isDigit c = false ->
  Strconv.parseDigits (ds +:+ String c rest) n = (0, Some Strconv.ErrSyntax).
Proof.
  revert n. induction ds as [|d ds IH]; intros n; cbn [allDigits digitsValue].
  - intros _ _ _ Hc. rewrite append_nil_l. cbn [Strconv.parseDigits].
    change (byte_val "0") with 48. change (byte_val "9") with 57.
    unfold Json.isDigit, Utf8.between in Hc. by rewrite Hc.
  - intros [Hd Hds]%andb_true_iff Hn Hfit Hc. rewrite append_cons.
    cbn [Strconv.parseDigits].
    change (byte_val "0") with 48. change (byte_val "9") with 57.
    pose proof (between_range _ _ _ Hd) as Hr.
    unfold Json.isDigit, Utf8.between in Hd. rewrite Hd.
    pose proof (digitsValue_ge ds (10 * n + (byte_val d - 48)) Hds ltac:(lia)) as Hge.
    unfold maxUint64 in *.
    change ((2 ^ 64 - 1) / 10 + 1) with 1844674407370955162.
    destruct (Z.leb_spec 1844674407370955162 n); [lia|].
    rewrite (Z.mod_small (n * 10 + (byte_val d - 48)) (2 ^ 64)) by lia.
    destruct (Z.ltb_spec (n * 10 + (byte_val d - 48)) (n * 10)); [lia|].
    destruct (Z.ltb_spec (2 ^ 64 - 1) (n * 10 + (byte_val d - 48))); [lia|].
    cbn [orb]. replace (n * 10 + (byte_val d - 48)) with (10 * n + (byte_val d - 48)) by lia.
    apply IH; try assumption; lia.
Qed.

(** [ParseInt] on a text that is not a number: an optional sign, digits,
    and then the end where a digit is due or a byte that is no digit. *)
Lemma ParseInt_garbage (neg plus : bool) (ds tail : string) :
  neg && plus = false ->
  allDigits ds = true -> stops Json.isDigit tail ->
  tail <> EmptyString \/ ds = EmptyString ->
  (neg = false -> plus = false -> ds = EmptyString -> stops isSign tail) ->
  digitsValue ds 0 <= maxUint64 ->
  Strconv.ParseInt ((if neg then "-" else if plus then "+" else EmptyString) +:+
                    ds +:+ tail) = (0, Some Strconv.ErrSyntax).
Proof.
  intros Hsign Hds Htail Hshape Hmax Hfit.
  assert (Huint : Strconv.ParseUint (ds +:+ tail) = (0, Some Strconv.ErrSyntax)).
  { destruct tail as [|c rest].
    - destruct Hshape as [?| ->]; [done | reflexivity].
    - unfold Strconv.ParseUint.
      rewrite (parseDigits_garbage ds c rest 0 Hds ltac:(lia) Hfit Htail).
      by destruct ds. }
  destruct neg, plus; try discriminate Hsign.
  - rewrite append_cons, append_nil_l. cbn [Strconv.ParseInt].
    change (Ascii.eqb "-" "-") with true. change (Ascii.eqb "-" "+") with false.
    cbn [orb]. by rewrite Huint.
  - rewrite append_cons, append_nil_l. cbn [Strconv.ParseInt].
    change (Ascii.eqb "+" "-") with false. change (Ascii.eqb "+" "+") with true.
    cbn [orb]. by rewrite Huint.
  - rewrite append_nil_l.
    destruct (ds +:+ tail) as [|c s] eqn:Hs; [reflexivity|].
    cbn [Strconv.ParseInt].
    assert (Hc : isSign c = false).
    { destruct ds as [|d ds'].
      - rewrite append_nil_l in Hs. subst tail. by apply Hmax.
      - rewrite append_cons in Hs. injection Hs as <- _.
        apply andb_true_iff in Hds as [Hd _].
        apply (isDigit_not d isSign Hd). intros x Hx. simpl in Hx.
        by repeat destruct Hx as [<-|Hx]. }
    unfold isSign in Hc. apply orb_false_iff in Hc as [-> ->]. cbn [orb].
    by rewrite Huint.
Qed.

(** X15: what is not a number reads as PID 0.  If the lock file can be read
    and its content, after an optional sign and the digits that follow it,
    ends where a digit is due or goes on with a byte that is no digit (a
    line feed after the PID, a blank before it, an empty file), the recorded
    PID is 0, provided the digits do not pass [maxUint64]. *)
Theorem recordedPid_not_a_number (pidFile : string) (w : World) (f : File)
    (neg plus : bool) (ds tail : string) :
  files w !! pidFile = Some f ->
  readable f = true ->
  content f = (if neg then "-" else if plus then "+" else EmptyString) +:+ ds +:+ tail ->
  neg && plus = false ->
  allDigits ds = true -> stops Json.isDigit tail ->
  tail <> EmptyString \/ ds = EmptyString ->
  (neg = false -> plus = false -> ds = EmptyString -> stops isSign tail) ->
  digitsValue ds 0 <= maxUint64 ->
  recordedPid pidFile w = 0.
Proof.
  intros Hf Hmode Hcontent Hsign Hds Htail Hshape Hmax Hfit.
  rewrite (recordedPid_readable _ _ _ Hf Hmode), Hcontent.
  by rewrite (ParseInt_garbage neg plus ds tail).
Qed.

(** X15 on a lock file that holds a PID and a line feed, as a shell writes
    it, and on an empty one. *)
Lemma recordedPid_not_a_number_witness :
  recordedPid lockFile
    (world (Some (textFile ("4711" +:+ String Json.LF EmptyString))) probeRefused) = 0 /\
  recordedPid lockFile (world (Some (textFile EmptyString)) probeRefused) = 0.
Proof.
  split.
  - apply (recordedPid_not_a_number lockFile
             (world (Some (textFile ("4711" +:+ String Json.LF EmptyString))) probeRefused)
             (textFile ("4711" +:+ String Json.LF EmptyString))
             false false "4711" (String Json.LF EmptyString)).
    + reflexivity.
    + reflexivity.
    + reflexivity.
    + reflexivity.
    + reflexivity.
    + reflexivity.
    + left. discriminate.
    + discriminate.
    + vm_compute. discriminate.
  - apply (recordedPid_not_a_number lockFile
             (world (Some (textFile EmptyString)) probeRefused)
             (textFile EmptyString) false false EmptyString EmptyString).
    + reflexivity.
    + reflexivity.
    + reflexivity.
    + reflexivity.
    + reflexivity.
    + exact I.
    + by right.
    + intros _ _ _. exact I.
    + vm_compute. discriminate.
Defined.

(* ===================================================================== *)
(** * The request runner of the tests *)
(* ===================================================================== *)

(** ** Splitting at a byte *)

Lemma Contains_byte (s : string) (c : ascii) :
  Strings.Contains s (String c EmptyString) = false <->
  forall pre post, s <> pre +:+ String c post.
Proof.
  split.
  - intros Hno pre post Hs.
    assert (Hyes : Strings.Contains s (String c EmptyString) = true).
    { apply Contains_append. exists pre, post. by rewrite Hs. }
    congruence.
  - intros Hno. destruct (Strings.Contains s (String c EmptyString)) eqn:Hyes; [|done].
    apply Contains_append in Hyes as (pre & post & Hs).
    by destruct (Hno pre post).
Qed.

Lemma Contains_byte_cons (a c : ascii) (s : string) :
  Strings.Contains (String a s) (String c EmptyString) = false ->
  a <> c /\ Strings.Contains s (String c EmptyString) = false.
Proof.
  rewrite !Contains_byte. intros Hno. split.
  - intros ->. by apply (Hno EmptyString s).
  - intros pre post ->. by apply (Hno (String a pre) post).
Qed.

(** A text without the separator is one piece. *)
Lemma Split_none (s : string) (c : ascii) :
  Strings.Contains s (String c EmptyString) = false -> Strings.Split s c = [s].
Proof.
  induction s as [|a s IH]; [done|].
  intros [Ha Hs]%Contains_byte_cons. cbn [Strings.Split].
  destruct (Ascii.eqb_spec a c); [done|]. by rewrite (IH Hs).
Qed.

(** The first piece ends at the first separator. *)
Lemma Split_first (p t : string) (c : ascii) :
  Strings.Contains p (String c EmptyString) = false ->
  Strings.Split (p +:+ String c t) c = p :: Strings.Split t c.
Proof.
  induction p as [|a p IH].
  - intros _. rewrite append_nil_l. cbn [Strings.Split]. by rewrite Ascii.eqb_refl.
  - intros [Ha Hp]%Contains_byte_cons. rewrite append_cons. cbn [Strings.Split].
    destruct (Ascii.eqb_spec a c); [done|]. by rewrite (IH Hp).
Qed.

(** ** The calls of [RunRequest] *)

Section Calls.

Import test_helper.

Variable w : Answers.
Hypothesis calm : forall c, panics w c = false.

Lemma call_calm (c : Call) (log : list Call) : call c w log = Ret tt (log ++ [c]).
Proof. unfold call. by rewrite calm. Qed.

Lemma forEach_call {A : Type} (f : A -> Call) (l : list A) (log : list Call) :
  forEach (fun x => call (f x)) l w log = Ret tt (log ++ List.map f l).
Proof.
  revert log. induction l as [|x l IH]; intros log; cbn [forEach List.map].
  - by rewrite app_nil_r.
  - unfold mbind, M_bind. rewrite call_calm, IH. by rewrite <- app_assoc.
Qed.

Lemma forEach_onRequest {A : Type} (f : A -> Call) (l : list A) (log : list Call) :
  forEach (fun x => onRequest (Some tt) (f x)) l w log = Ret tt (log ++ List.map f l).
Proof. apply forEach_call. Qed.

Lemma forEach_nil_request {A : Type} (f : A -> Call) (x : A) (l : list A)
    (log : list Call) :
  forEach (fun x => onRequest None (f x)) (x :: l) w log = Panic log.
Proof. reflexivity. Qed.

(** The calls before the request is made. *)
Lemma RunRequest_uses (rc : RequestConfig) (log : list Call) :
  match Middlewares rc with
  | Some mws =>
      if (0 <? length mws)%nat then forEach (fun mw => call (Engine_Use mw)) mws
      else mret tt
  | None => mret tt
  end w log = Ret tt (log ++ usesOf rc).
Proof.
  unfold usesOf. destruct (Middlewares rc) as [[|mw mws]|].
  - by rewrite app_nil_r.
  - cbn [length Nat.ltb Nat.leb]. apply forEach_call.
  - by rewrite app_nil_r.
Qed.

(** The headers, on a request that is there. *)
Lemma RunRequest_headers (rc : RequestConfig) (log : list Call) :
  (if (0 <? length (Headers rc))%nat then
     forEach (fun kv => onRequest (Some tt) (Header_Set (fst kv) (snd kv))) (Headers rc)
   else if String.eqb (Method rc) "POST" || String.eqb (Method rc) "PUT" then
     if Strings.HasPrefix (Body rc) "{" then
       onRequest (Some tt) (Header_Set "Content-Type" "application/json")
     else
       onRequest (Some tt) (Header_Set "Content-Type" "application/x-www-form-urlencoded")
   else mret tt) w log = Ret tt (log ++ headersOf rc).
Proof.
  unfold headersOf. destruct (Headers rc) as [|kv l].
  - cbn [length Nat.ltb Nat.leb].
    destruct (_ || _); [|by rewrite app_nil_r].
    destruct (Strings.HasPrefix _ _); apply call_calm.
  - cbn [length Nat.ltb Nat.leb]. apply forEach_onRequest.
Qed.

(** The headers, on the nil request. *)
Lemma RunRequest_headers_nil (rc : RequestConfig) (log : list Call) :
  (if (0 <? length (Headers rc))%nat then
     forEach (fun kv => onRequest None (Header_Set (fst kv) (snd kv))) (Headers rc)
   else if String.eqb (Method rc) "POST" || String.eqb (Method rc) "PUT" then
     if Strings.HasPrefix (Body rc) "{" then
       onRequest None (Header_Set "Content-Type" "application/json")
     else
       onRequest None (Header_Set "Content-Type" "application/x-www-form-urlencoded")
   else mret tt) w log =
  match headersOf rc with
  | [] => Ret tt log
  | _ :: _ => Panic log
  end.
Proof.
  unfold headersOf. destruct (Headers rc) as [|kv l].
  - cbn [length Nat.ltb Nat.leb].
    destruct (_ || _); [|reflexivity]. by destruct (Strings.HasPrefix _ _).
  - reflexivity.
Qed.

Lemma RunRequest_finaliser (rc : RequestConfig) (log : list Call) :
  match Finaliser rc with
  | Some f => call (Finaliser_call f)
  | None => mret tt
  end w log = Ret tt (log ++ finaliserOf rc).
Proof.
  unfold finaliserOf. destruct (Finaliser rc); [apply call_calm | by rewrite app_nil_r].
Qed.

(** A run from the point where the path and the query are known. *)
Lemma RunRequest_from (rc : RequestConfig) (p q : string) :
  (if Strings.Contains (Path rc) "?" then
     let ss := Strings.Split (Path rc) "?" in
     p ← index ss 0; q ← index ss 1; mret (p, q)
   else mret (Path rc, EmptyString)) w ([gin_SetMode; gin_New] ++ usesOf rc)%list =
    Ret (p, q) ([gin_SetMode; gin_New] ++ usesOf rc) ->
  RunRequest rc w [] =
    match onNewRequest w (Method rc) p with
    | None => Ret tt (callsOf rc p q true)
    | Some _ =>
        if (0 <? String.length q)%nat then Panic (callsBefore rc p)
        else
          match headersOf rc with
          | [] => Ret tt (callsOf rc p q false)
          | _ :: _ => Panic (callsBefore rc p)
          end
    end.
Proof.
  intros Hsplit. unfold RunRequest.
  unfold mbind at 1. unfold M_bind at 1. rewrite call_calm.
  unfold mbind at 1. unfold M_bind at 1. rewrite call_calm.
  unfold mbind at 1. unfold M_bind at 1. rewrite RunRequest_uses.
  unfold mbind at 1. unfold M_bind at 1. cbn [app] in *. rewrite Hsplit.
  unfold mbind at 1. unfold M_bind at 1. unfold NewRequest. rewrite calm.
  unfold callsOf, callsBefore.
  destruct (onNewRequest w (Method rc) p) as [err|].
  - destruct (0 <? String.length q)%nat eqn:Hq.
    + unfold mbind at 1. unfold M_bind at 1. cbn [onRequest panic].
      reflexivity.
    + unfold mbind at 1. unfold M_bind at 1. cbn [mret M_ret].
      unfold mbind at 1. unfold M_bind at 1. rewrite RunRequest_headers_nil.
      destruct (headersOf rc) as [|h hs] eqn:Hh; [|reflexivity].
      unfold mbind at 1. unfold M_bind at 1. rewrite call_calm.
      unfold mbind at 1. unfold M_bind at 1. rewrite call_calm.
      unfold mbind at 1. unfold M_bind at 1. rewrite call_calm.
      rewrite RunRequest_finaliser. f_equal.
      cbn [app]. rewrite <- ?app_assoc. reflexivity.
  - unfold mbind at 1. unfold M_bind at 1.
    assert (Hquery : (if (0 <? String.length q)%nat
                      then onRequest (Some tt) (URL_RawQuery q) else mret tt) w
                       (([gin_SetMode; gin_New] ++ usesOf rc) ++
                        [http_NewRequest (Method rc) p (Body rc)])%list =
                     Ret tt ((([gin_SetMode; gin_New] ++ usesOf rc) ++
                              [http_NewRequest (Method rc) p (Body rc)]) ++
                             (if (0 <? String.length q)%nat then [URL_RawQuery q] else []))).
    { destruct (0 <? String.length q)%nat; [apply call_calm | by rewrite app_nil_r]. }
    cbn [app] in Hquery |- *. rewrite Hquery.
    unfold mbind at 1. unfold M_bind at 1. rewrite RunRequest_headers.
    unfold mbind at 1. unfold M_bind at 1. rewrite call_calm.
    unfold mbind at 1. unfold M_bind at 1. rewrite call_calm.
    unfold mbind at 1. unfold M_bind at 1. rewrite call_calm.
    rewrite RunRequest_finaliser. f_equal.
    cbn [app]. rewrite <- ?app_assoc. reflexivity.
Qed.

End Calls.

Lemma Split_pieces (s : string) (c : ascii) : exists p l, Strings.Split s c = p :: l.
Proof.
  induction s as [|a s (p & l & IH)]; [by eexists _, _|].
  cbn [Strings.Split]. destruct (Ascii.eqb a c); [by eexists _, _|].
  rewrite IH. by eexists _, _.
Qed.

(** A text with the separator in it has two pieces at least. *)
Lemma Split_two (s : string) (c : ascii) :
  Strings.Contains s (String c EmptyString) = true ->
  exists p q l, Strings.Split s c = p :: q :: l.
Proof.
  induction s as [|a s IH]; [discriminate|].
  intros Hs. cbn [Strings.Split].
  destruct (Ascii.eqb_spec a c) as [->|Hne].
  - destruct (Split_pieces s c) as (q & l & ->). by eexists _, _, _.
  - destruct IH as (p & q & l & ->); [|by eexists _, _, _].
    apply Contains_append in Hs as (pre & post & Hs). apply Contains_append.
    destruct pre as [|b pre].
    + rewrite append_nil_l, append_cons in Hs. injection Hs as Hs _. congruence.
    + rewrite append_cons in Hs. injection Hs as _ Hs. by exists pre, post.
Qed.

(** The path and the query of a run: taking them never panics. *)
Lemma RunRequest_path (w : test_helper.Answers) (rc : test_helper.RequestConfig)
    (log : list test_helper.Call) :
  (if Strings.Contains (test_helper.Path rc) "?" then
     let ss := Strings.Split (test_helper.Path rc) "?" in
     p ← test_helper.index ss 0; q ← test_helper.index ss 1; mret (p, q)
   else mret (test_helper.Path rc, EmptyString)) w log =
    test_helper.Ret (test_helper.pathAndQuery (test_helper.Path rc)) log.
Proof.
  unfold test_helper.pathAndQuery.
  destruct (Strings.Contains _ _) eqn:Hq; [|reflexivity].
  destruct (Split_two _ _ Hq) as (p & q & l & Hss). cbv zeta. by rewrite Hss.
Qed.

(** X16: [RunRequest] takes the query string off the path.  For a path
    without [?] the request and the route have the path as it is, and no
    query is set.  For a path with [?] the URL of the request and the route
    put on the engine are the part before the first [?]; the query of the
    request is the part between the first [?] and the second, or the end;
    and what follows a second [?] is dropped.  The theorem gives the calls
    of the whole run, in order, when [http.NewRequest] succeeds and no call
    panics. *)
Theorem RunRequest_query_string (w : test_helper.Answers)
    (rc : test_helper.RequestConfig) :
  (forall c, test_helper.panics w c = false) ->
  (Strings.Contains (test_helper.Path rc) "?" = false ->
   test_helper.onNewRequest w (test_helper.Method rc) (test_helper.Path rc) = None ->
   test_helper.RunRequest rc w [] =
     test_helper.Ret tt (test_helper.callsOf rc (test_helper.Path rc) EmptyString true)) /\
  (forall p q rest,
     test_helper.Path rc = p +:+ "?" +:+ q +:+ rest ->
     Strings.Contains p "?" = false ->
     Strings.Contains q "?" = false ->
     rest = EmptyString \/ (exists r, rest = String "?" r) ->
     test_helper.onNewRequest w (test_helper.Method rc) p = None ->
     test_helper.RunRequest rc w [] =
       test_helper.Ret tt (test_helper.callsOf rc p q true)).
Proof.
  intros Hcalm. split.
  - intros Hno Hreq.
    rewrite (RunRequest_from w Hcalm rc (test_helper.Path rc) EmptyString);
      [by rewrite Hreq | by rewrite Hno].
  - intros p q rest Hpath Hp Hq Hrest Hreq.
    rewrite (RunRequest_from w Hcalm rc p q); [by rewrite Hreq|].
    assert (Hyes : Strings.Contains (test_helper.Path rc) "?" = true).
    { apply Contains_append. exists p, (q +:+ rest). by rewrite Hpath. }
    rewrite Hyes. cbv zeta.
    assert (Hss : exists l, Strings.Split (test_helper.Path rc) "?" = p :: q :: l).
    { rewrite Hpath, append_cons, append_nil_l, (Split_first p _ _ Hp).
      destruct Hrest as [->|[r ->]].
      - rewrite append_empty_r, (Split_none q _ Hq). by exists [].
      - rewrite (Split_first q _ _ Hq). eauto. }
    destruct Hss as [l ->]. reflexivity.
Qed.

(** X16 on a GET with a query and a second [?]. *)
Lemma RunRequest_query_string_witness :
  test_helper.RunRequest
    {| test_helper.Method := "GET"; test_helper.Path := "/videos?limit=2?page=3";
       test_helper.Body := EmptyString; test_helper.Headers := [];
       test_helper.Middlewares := test_helper.MiddleWares;
       test_helper.Handler := 1%nat; test_helper.Finaliser := Some 2%nat |}
    test_helper.willing [] =
  test_helper.Ret tt
    [test_helper.gin_SetMode; test_helper.gin_New;
     test_helper.http_NewRequest "GET" "/videos" EmptyString;
     test_helper.URL_RawQuery "limit=2";
     test_helper.Engine_Handle "GET" "/videos" 1%nat;
     test_helper.httptest_NewRecorder; test_helper.Engine_ServeHTTP true;
     test_helper.Finaliser_call 2%nat].
Proof.
  refine (proj2 (RunRequest_query_string test_helper.willing
                   {| test_helper.Method := "GET";
                      test_helper.Path := "/videos?limit=2?page=3";
                      test_helper.Body := EmptyString; test_helper.Headers := [];
                      test_helper.Middlewares := test_helper.MiddleWares;
                      test_helper.Handler := 1%nat;
                      test_helper.Finaliser := Some 2%nat |} (fun _ => eq_refl))
            "/videos" "limit=2" "?page=3" eq_refl eq_refl eq_refl _ eq_refl).
  right. by eexists.
Defined.

(** Every run in which [http.NewRequest] succeeds and no call panics makes
    the calls of [callsOf]. *)
Lemma RunRequest_calm (w : test_helper.Answers) (rc : test_helper.RequestConfig) :
  (forall c, test_helper.panics w c = false) ->
  (forall m u, test_helper.onNewRequest w m u = None) ->
  test_helper.RunRequest rc w [] =
    test_helper.Ret tt
      (test_helper.callsOf rc (fst (test_helper.pathAndQuery (test_helper.Path rc)))
         (snd (test_helper.pathAndQuery (test_helper.Path rc))) true).
Proof.
  intros Hcalm Hreq.
  rewrite (RunRequest_from w Hcalm rc
             (fst (test_helper.pathAndQuery (test_helper.Path rc)))
             (snd (test_helper.pathAndQuery (test_helper.Path rc))));
    [by rewrite Hreq|].
  by rewrite RunRequest_path, <- surjective_pairing.
Qed.

(** X17: the two short forms and the content type.  [RunSimplePost] sets
    one header, [Content-Type]: [application/json] when the first byte of
    the body is an opening brace, and [application/x-www-form-urlencoded]
    for every other body, a JSON array or a JSON object after white space
    included.  [RunSimpleGet] sets no header.  Neither puts a middleware on
    the engine.  The theorem gives the calls of both, in order, when
    [http.NewRequest] succeeds and no call panics. *)
Theorem RunSimple_content_type (w : test_helper.Answers) (path body : string)
    (handler : test_helper.Func) (reply : option test_helper.Func) :
  (forall c, test_helper.panics w c = false) ->
  (forall m u, test_helper.onNewRequest w m u = None) ->
  let p := fst (test_helper.pathAndQuery path) in
  let q := snd (test_helper.pathAndQuery path) in
  let query := if (0 <? String.length q)%nat then [test_helper.URL_RawQuery q] else [] in
  let served :=
    ([test_helper.httptest_NewRecorder; test_helper.Engine_ServeHTTP true] ++
     match reply with
     | Some f => [test_helper.Finaliser_call f]
     | None => []
     end)%list in
  test_helper.RunSimplePost path body handler reply w [] =
    test_helper.Ret tt
      ([test_helper.gin_SetMode; test_helper.gin_New;
        test_helper.http_NewRequest "POST" p body] ++ query ++
       [test_helper.Header_Set "Content-Type"
          (if Strings.HasPrefix body "{" then "application/json"
           else "application/x-www-form-urlencoded");
        test_helper.Engine_Handle "POST" p handler] ++ served) /\
  test_helper.RunSimpleGet path handler reply w [] =
    test_helper.Ret tt
      ([test_helper.gin_SetMode; test_helper.gin_New;
        test_helper.http_NewRequest "GET" p EmptyString] ++ query ++
       [test_helper.Engine_Handle "GET" p handler] ++ served).
Proof.
  intros Hcalm Hreq p q query served.
  unfold test_helper.RunSimplePost, test_helper.RunSimpleGet.
  rewrite !(RunRequest_calm w _ Hcalm Hreq).
  unfold test_helper.callsOf, test_helper.callsBefore, test_helper.usesOf,
    test_helper.headersOf, test_helper.finaliserOf.
  cbn [test_helper.Method test_helper.Path test_helper.Body test_helper.Headers
       test_helper.Middlewares test_helper.Handler test_helper.Finaliser].
  fold p q. subst query served.
  split; cbn [String.eqb Ascii.eqb Bool.eqb orb andb app]; reflexivity.
Qed.

(** X17 on a body that is a JSON array: it goes out as a form. *)
Lemma RunSimple_content_type_witness :
  test_helper.RunSimplePost "/videos" "[1, 2]" 1%nat None test_helper.willing [] =
  test_helper.Ret tt
    [test_helper.gin_SetMode; test_helper.gin_New;
     test_helper.http_NewRequest "POST" "/videos" "[1, 2]";
     test_helper.Header_Set "Content-Type" "application/x-www-form-urlencoded";
     test_helper.Engine_Handle "POST" "/videos" 1%nat;
     test_helper.httptest_NewRecorder; test_helper.Engine_ServeHTTP true].
Proof.
  exact (proj1 (RunSimple_content_type test_helper.willing "/videos" "[1, 2]" 1%nat None
                  (fun _ => eq_refl) (fun _ _ => eq_refl))).
Defined.

(** X18: [RunRequest] drops the error of [http.NewRequest] and goes on with
    the nil request.  If the run has a query or a header to set, it panics
    on that request, right after [http.NewRequest]: no route is put on the
    engine and the finaliser is not called.  Otherwise the nil request is
    what the engine is asked to serve.  No call panics by itself here. *)
Theorem RunRequest_nil_request (w : test_helper.Answers)
    (rc : test_helper.RequestConfig) :
  (forall c, test_helper.panics w c = false) ->
  (forall m u, test_helper.onNewRequest w m u <> None) ->
  let p := fst (test_helper.pathAndQuery (test_helper.Path rc)) in
  let q := snd (test_helper.pathAndQuery (test_helper.Path rc)) in
  test_helper.RunRequest rc w [] =
    if (0 <? String.length q)%nat then test_helper.Panic (test_helper.callsBefore rc p)
    else
      match test_helper.headersOf rc with
      | [] => test_helper.Ret tt (test_helper.callsOf rc p q false)
      | _ :: _ => test_helper.Panic (test_helper.callsBefore rc p)
      end.
Proof.
  intros Hcalm Hreq p q.
  rewrite (RunRequest_from w Hcalm rc p q);
    [|subst p q; by rewrite RunRequest_path, <- surjective_pairing].
  destruct (test_helper.onNewRequest w (test_helper.Method rc) p) eqn:Herr;
    [reflexivity | by destruct (Hreq _ _ Herr)].
Qed.

(** X18 on a POST to a path that is no URL: the run panics when it comes to
    the content type. *)
Lemma RunRequest_nil_request_witness :
  test_helper.RunSimplePost "/videos%zz" "{}" 1%nat (Some 2%nat)
    (test_helper.noRequest (errorString "parse /videos%zz: invalid URL escape")) [] =
  test_helper.Panic
    [test_helper.gin_SetMode; test_helper.gin_New;
     test_helper.http_NewRequest "POST" "/videos%zz" "{}"].
Proof.
  exact (RunRequest_nil_request
           (test_helper.noRequest (errorString "parse /videos%zz: invalid URL escape"))
           {| test_helper.Method := "POST"; test_helper.Path := "/videos%zz";
              test_helper.Body := "{}"; test_helper.Headers := [];
              test_helper.Middlewares := None; test_helper.Handler := 1%nat;
              test_helper.Finaliser := Some 2%nat |}
           (fun _ => eq_refl) ltac:(discriminate)).
Defined.

Lemma Header_Set_map (k v : string) (l : list (string * string)) :
  test_helper.Header_Set k v ∈
    List.map (fun kv => test_helper.Header_Set (fst kv) (snd kv)) l <-> (k, v) ∈ l.
Proof.
  rewrite !list_elem_of_In, in_map_iff. split.
  - intros ([k' v'] & [= -> ->] & Hin). exact Hin.
  - intros Hin. by exists (k, v).
Qed.

Lemma Header_Set_usesOf (k v : string) (rc : test_helper.RequestConfig) :
  test_helper.Header_Set k v ∉ test_helper.usesOf rc.
Proof.
  unfold test_helper.usesOf. destruct (test_helper.Middlewares rc) as [mws|].
  - rewrite list_elem_of_In, in_map_iff. by intros (mw & [=] & _).
  - apply not_elem_of_nil.
Qed.

(** X19: headers of the configuration replace the default.  When [Headers]
    has an entry, the headers that [RunRequest] sets on the request are the
    entries of [Headers] and no other: a POST or a PUT gets no content type
    unless [Headers] has one. *)
Theorem RunRequest_explicit_headers (w : test_helper.Answers)
    (rc : test_helper.RequestConfig) :
  (forall c, test_helper.panics w c = false) ->
  (forall m u, test_helper.onNewRequest w m u = None) ->
  test_helper.Headers rc <> [] ->
  exists log,
    test_helper.RunRequest rc w [] = test_helper.Ret tt log /\
    forall k v, test_helper.Header_Set k v ∈ log <-> (k, v) ∈ test_helper.Headers rc.
Proof.
  intros Hcalm Hreq Hsome. rewrite (RunRequest_calm w rc Hcalm Hreq).
  eexists. split; [reflexivity|]. intros k v.
  assert (Hheaders : test_helper.Header_Set k v ∈ test_helper.headersOf rc <->
                     (k, v) ∈ test_helper.Headers rc).
  { unfold test_helper.headersOf.
    destruct (test_helper.Headers rc) as [|kv l] eqn:Hl; [done|].
    apply Header_Set_map. }
  unfold test_helper.callsOf, test_helper.callsBefore.
  rewrite !elem_of_app, Hheaders.
  pose proof (Header_Set_usesOf k v rc) as Huses.
  assert (Hstart : test_helper.Header_Set k v ∉
                     [test_helper.gin_SetMode; test_helper.gin_New]) by not_called.
  assert (Hreq' : forall m u b,
            test_helper.Header_Set k v ∉ [test_helper.http_NewRequest m u b])
    by (intros m u b; not_called).
  assert (Hquery : forall q,
            test_helper.Header_Set k v ∉
              (if (0 <? String.length q)%nat then [test_helper.URL_RawQuery q] else []))
    by (intros q; destruct (0 <? String.length q)%nat; not_called).
  assert (Hserve : forall m u h,
            test_helper.Header_Set k v ∉
              [test_helper.Engine_Handle m u h; test_helper.httptest_NewRecorder;
               test_helper.Engine_ServeHTTP true])
    by (intros m u h; not_called).
  assert (Hfin : test_helper.Header_Set k v ∉ test_helper.finaliserOf rc)
    by (unfold test_helper.finaliserOf; destruct (test_helper.Finaliser rc); not_called).
  split; [|tauto].
  intros [[Hin|[Hin|Hin]]|[Hin|[Hin|[Hin|Hin]]]]; try exact Hin.
  - by destruct Hstart.
  - by destruct Huses.
  - by destruct (Hreq' _ _ _ Hin).
  - by destruct (Hquery _ Hin).
  - by destruct (Hserve _ _ _ Hin).
  - by destruct Hfin.
Qed.

(** X19 on a POST with a JSON body and one header of its own. *)
Lemma RunRequest_explicit_headers_witness :
  test_helper.RunRequest
    {| test_helper.Method := "POST"; test_helper.Path := "/videos";
       test_helper.Body := "{}"; test_helper.Headers := [("Authorization", "Bearer t")];
       test_helper.Middlewares := None;
       test_helper.Handler := 1%nat; test_helper.Finaliser := None |}
    test_helper.willing [] =
  test_helper.Ret tt
    [test_helper.gin_SetMode; test_helper.gin_New;
     test_helper.http_NewRequest "POST" "/videos" "{}";
     test_helper.Header_Set "Authorization" "Bearer t";
     test_helper.Engine_Handle "POST" "/videos" 1%nat;
     test_helper.httptest_NewRecorder; test_helper.Engine_ServeHTTP true].
Proof.
  destruct (RunRequest_explicit_headers test_helper.willing
              {| test_helper.Method := "POST"; test_helper.Path := "/videos";
                 test_helper.Body := "{}";
                 test_helper.Headers := [("Authorization", "Bearer t")];
                 test_helper.Middlewares := None;
                 test_helper.Handler := 1%nat; test_helper.Finaliser := None |}
              (fun _ => eq_refl) (fun _ _ => eq_refl) ltac:(discriminate))
    as (log & Hrun & _).
  rewrite Hrun. vm_compute in Hrun. by injection Hrun as <-.
Defined.
